(** * ZeroClaw browser control: relay, reconnection, selector resolution

    A shallow embedding of the three JavaScript programs of the repository

    - the bridge server ([Bridge]): WebSocket + REST relay with its table of
      pending commands,
    - the extension's background service worker: its command routing
      ([Executor], over the browser APIs of [Chrome]) and its connection
      management ([Background] for the [setTimeout] based reconnection,
      [BackgroundAlarm] for the [chrome.alarms] based one),
    - the content script's [resolveElement] ([Content]),

    followed by the properties the specification states about them.

    JavaScript is single threaded: every event handler runs to completion,
    so a handler is a function from state to state and the event loop is a
    fold over a list of events.  What the environment decides (the id that
    [crypto.randomUUID] returns, socket ready states, what a Chrome API call
    answers, when a timer fires) enters as an argument or an event. *)

From Stdlib Require Import ZArith QArith String Ascii List Lia Bool DecimalString.
From stdpp Require Import gmap strings list fin_maps.
Import ListNotations.
Set Warnings "-register-all".
Local Open Scope Z_scope.
Local Open Scope string_scope.

(* ===================================================================== *)
(** ** JavaScript values *)
(* ===================================================================== *)

Module Js.

(** JSON-shaped values.  Numbers are restricted to integers; a string is a
    sequence of code units below 256, one [ascii] each. *)
Inductive value : Type :=
| Undefined
| Null
| Bool (b : bool)
| Num (n : Z)
| Str (s : string)
| Arr (items : list value)
| Obj (fields : list (string * value)).

(** An object is its list of own properties in insertion order. *)
Definition object : Type := list (string * value).

(** ToBoolean *)
Definition truthy (v : value) : bool :=
  match v with
  | Undefined | Null => false
  | Bool b => b
  | Num n => negb (n =? 0)%Z
  | Str s => negb (String.eqb s "")
  | Arr _ | Obj _ => true
  end.

(** [o.k]: the first property named [k], [undefined] when there is none. *)
Fixpoint get (k : string) (o : object) : value :=
  match o with
  | [] => Undefined
  | (k', v) :: rest => if String.eqb k k' then v else get k rest
  end.

(** [o.k = v]: overwrite in place, or append. *)
Fixpoint set (k : string) (v : value) (o : object) : object :=
  match o with
  | [] => [(k, v)]
  | (k', v') :: rest =>
      if String.eqb k k' then (k, v) :: rest else (k', v') :: set k v rest
  end.

(** [const { k, ...rest } = o]: the rest object. *)
Definition without (k : string) (o : object) : object :=
  List.filter (fun kv => negb (String.eqb (fst kv) k)) o.

(** [{ ...base, ...extra }]: properties of [extra] are assigned in order. *)
Definition spread (base extra : object) : object :=
  fold_left (fun acc kv => set (fst kv) (snd kv) acc) extra base.

(** [v === "lit"] *)
Definition is_string (lit : string) (v : value) : bool :=
  match v with
  | Str s => String.eqb s lit
  | _ => false
  end.

Definition string_of_Z (n : Z) : string :=
  NilEmpty.string_of_int (Z.to_int n).

Fixpoint join (sep : string) (l : list string) : string :=
  match l with
  | [] => ""
  | [s] => s
  | s :: rest => s ++ sep ++ join sep rest
  end.

(** ToString, as a template literal or [new Error(v)] applies it.  A
    number is printed as JavaScript prints a safe integer (see [exact]
    below for the values on which this is the JavaScript conversion). *)
Fixpoint to_string (v : value) : string :=
  match v with
  | Undefined => "undefined"
  | Null => "null"
  | Bool true => "true"
  | Bool false => "false"
  | Num n => string_of_Z n
  | Str s => s
  | Arr items =>
      join "," (List.map (fun x =>
                            match x with
                            | Undefined | Null => ""
                            | _ => to_string x
                            end) items)
  | Obj _ => "[object Object]"
  end.

(** [JSON.parse(JSON.stringify(v))]: properties holding [undefined] are
    dropped, [undefined] array items become [null]. *)
Fixpoint json_roundtrip (v : value) : value :=
  match v with
  | Arr items =>
      Arr (List.map (fun x =>
                       match x with
                       | Undefined => Null
                       | _ => json_roundtrip x
                       end) items)
  | Obj fields =>
      Obj ((fix go (l : list (string * value)) : list (string * value) :=
              match l with
              | [] => []
              | (k, Undefined) :: rest => go rest
              | (k, x) :: rest => (k, json_roundtrip x) :: go rest
              end) fields)
  | _ => v
  end.

(** The own properties of a value that is not [null] or [undefined]; a
    primitive has none of those read here. *)
Definition fields (v : value) : object :=
  match v with Obj l => l | _ => [] end.

(** A value that [JSON.parse] can return: no [undefined] inside. *)
Fixpoint is_json (v : value) : bool :=
  match v with
  | Undefined => false
  | Arr items => forallb is_json items
  | Obj fs =>
      (fix all (l : list (string * value)) : bool :=
         match l with
         | [] => true
         | (_, x) :: rest => is_json x && all rest
         end) fs
  | _ => true
  end.

(** Every number in [v] is a safe integer, [|n| <= 2^53 - 1]: one that a
    JavaScript number holds exactly and that [to_string] prints as
    JavaScript does, digit by digit.  Beyond that range a JavaScript number
    is rounded, and printed in exponent form from [1e21] on, which [Num]
    and [to_string] do not follow. *)
Fixpoint exact (v : value) : bool :=
  match v with
  | Num n => (Z.abs n <=? 9007199254740991)%Z
  | Arr items => forallb exact items
  | Obj fs =>
      (fix all (l : list (string * value)) : bool :=
         match l with
         | [] => true
         | (_, x) :: rest => exact x && all rest
         end) fs
  | _ => true
  end.

(** [s.startsWith(p)] *)
Definition startsWith (p s : string) : bool := String.prefix p s.

(** [s.includes(p)] *)
Fixpoint includes (p s : string) : bool :=
  String.prefix p s ||
  match s with
  | EmptyString => false
  | String _ rest => includes p rest
  end.

(** White space and line terminators among the code units below 256:
    TAB, LF, VT, FF, CR, SP, NBSP. *)
Definition is_space (c : ascii) : bool :=
  let n := nat_of_ascii c in
  (Nat.leb 9 n && Nat.leb n 13) || Nat.eqb n 32 || Nat.eqb n 160.

Fixpoint trimStart (s : string) : string :=
  match s with
  | EmptyString => EmptyString
  | String c rest => if is_space c then trimStart rest else s
  end.

Fixpoint trimEnd (s : string) : string :=
  match s with
  | EmptyString => EmptyString
  | String c rest =>
      match trimEnd rest with
      | EmptyString => if is_space c then EmptyString else String c EmptyString
      | r => String c r
      end
  end.

(** [s.trim()] *)
Definition trim (s : string) : string := trimEnd (trimStart s).

(** What an expression evaluation ends in: a value or a thrown [Error]
    with its message. *)
Inductive completion (A : Type) : Type :=
| Normal (a : A)
| Throw (message : string).
Arguments Normal {A} a.
Arguments Throw {A} message.

Definition bind {A B} (c : completion A) (k : A -> completion B) : completion B :=
  match c with
  | Normal a => k a
  | Throw m => Throw m
  end.

(** [try { c } catch (_) { h }] *)
Definition try_catch {A} (c : completion A) (h : string -> completion A) : completion A :=
  match c with
  | Normal a => Normal a
  | Throw m => h m
  end.

End Js.

(** A JavaScript [Map] with string keys: entries in insertion order, at
    most one per key. *)
Module JsMap.
Section Map.
Context {V : Type}.

Definition t : Type := list (string * V).

Definition empty : t := [].

Fixpoint get (k : string) (m : t) : option V :=
  match m with
  | [] => None
  | (k', v) :: rest => if String.eqb k k' then Some v else get k rest
  end.

Definition has (k : string) (m : t) : bool :=
  match get k m with Some _ => true | None => false end.

Fixpoint set (k : string) (v : V) (m : t) : t :=
  match m with
  | [] => [(k, v)]
  | (k', v') :: rest =>
      if String.eqb k k' then (k, v) :: rest else (k', v') :: set k v rest
  end.

Fixpoint delete (k : string) (m : t) : t :=
  match m with
  | [] => []
  | (k', v') :: rest =>
      if String.eqb k k' then delete k rest else (k', v') :: delete k rest
  end.

Definition size (m : t) : nat := List.length m.

Definition keys (m : t) : list string := List.map fst m.

End Map.
Arguments t V : clear implicits.
End JsMap.

(** [WebSocket.readyState] *)
Inductive ReadyState : Type := CONNECTING | OPEN | CLOSING | CLOSED.

(** A text frame as [JSON.parse] sees it. *)
Inductive Frame : Type :=
| Invalid                       (* [JSON.parse] throws *)
| Parsed (msg : Js.value).

(* ===================================================================== *)
(** ** The bridge server (WebSocket + REST relay) *)
(* ===================================================================== *)

Module Bridge.

Definition WS_PORT : Z := 7822.
Definition REST_PORT : Z := 7823.
Definition COMMAND_TIMEOUT_MS : Z := 30000.

(** How a promise returned by [sendCommand] is settled. *)
Inductive Outcome : Type :=
| Resolved (data : Js.value)
| Rejected (message : string).     (* [new Error(message)] *)

(** An entry of [pendingCommands]: [{ resolve, reject, timer }].  [resolve]
    and [reject] are the two settling functions of one promise, which the
    entry names by [promise]. *)
Record Pending : Type := { promise : nat; timer : nat }.

(** The closure handed to [setTimeout] in [sendCommand]: it captured [id],
    [reject] and [action]; [due] is when the timer may fire. *)
Record Timeout : Type :=
  { t_id : string; t_promise : nat; t_action : Js.value; t_due : Z }.

Record State : Type := {
  extensionSocket : option nat;             (* [null] or a socket *)
  readyState : gmap nat ReadyState;         (* [socket.readyState] *)
  pendingCommands : JsMap.t Pending;
  timers : gmap nat Timeout;                (* armed timers, by handle *)
  nextTimer : nat;
  nextPromise : nat;
  settlements : list (nat * Outcome);       (* every call of a resolve/reject, oldest first *)
  sent : list (nat * Js.value);             (* [socket.send] calls, oldest first *)
  now : Z;                                  (* milliseconds *)
  crashed : bool                            (* an exception escaped a handler *)
}.

Definition init : State :=
  {| extensionSocket := None; readyState := ∅; pendingCommands := JsMap.empty;
     timers := ∅; nextTimer := 0; nextPromise := 0; settlements := [];
     sent := []; now := 0; crashed := false |}.

Definition set_extensionSocket (x : option nat) (s : State) : State :=
  {| extensionSocket := x; readyState := readyState s;
     pendingCommands := pendingCommands s; timers := timers s;
     nextTimer := nextTimer s; nextPromise := nextPromise s;
     settlements := settlements s; sent := sent s; now := now s;
     crashed := crashed s |}.

Definition set_readyState (x : gmap nat ReadyState) (s : State) : State :=
  {| extensionSocket := extensionSocket s; readyState := x;
     pendingCommands := pendingCommands s; timers := timers s;
     nextTimer := nextTimer s; nextPromise := nextPromise s;
     settlements := settlements s; sent := sent s; now := now s;
     crashed := crashed s |}.

Definition set_pendingCommands (x : JsMap.t Pending) (s : State) : State :=
  {| extensionSocket := extensionSocket s; readyState := readyState s;
     pendingCommands := x; timers := timers s;
     nextTimer := nextTimer s; nextPromise := nextPromise s;
     settlements := settlements s; sent := sent s; now := now s;
     crashed := crashed s |}.

Definition set_timers (x : gmap nat Timeout) (s : State) : State :=
  {| extensionSocket := extensionSocket s; readyState := readyState s;
     pendingCommands := pendingCommands s; timers := x;
     nextTimer := nextTimer s; nextPromise := nextPromise s;
     settlements := settlements s; sent := sent s; now := now s;
     crashed := crashed s |}.

Definition set_nextTimer (x : nat) (s : State) : State :=
  {| extensionSocket := extensionSocket s; readyState := readyState s;
     pendingCommands := pendingCommands s; timers := timers s;
     nextTimer := x; nextPromise := nextPromise s;
     settlements := settlements s; sent := sent s; now := now s;
     crashed := crashed s |}.

Definition set_nextPromise (x : nat) (s : State) : State :=
  {| extensionSocket := extensionSocket s; readyState := readyState s;
     pendingCommands := pendingCommands s; timers := timers s;
     nextTimer := nextTimer s; nextPromise := x;
     settlements := settlements s; sent := sent s; now := now s;
     crashed := crashed s |}.

Definition set_settlements (x : list (nat * Outcome)) (s : State) : State :=
  {| extensionSocket := extensionSocket s; readyState := readyState s;
     pendingCommands := pendingCommands s; timers := timers s;
     nextTimer := nextTimer s; nextPromise := nextPromise s;
     settlements := x; sent := sent s; now := now s;
     crashed := crashed s |}.

Definition set_sent (x : list (nat * Js.value)) (s : State) : State :=
  {| extensionSocket := extensionSocket s; readyState := readyState s;
     pendingCommands := pendingCommands s; timers := timers s;
     nextTimer := nextTimer s; nextPromise := nextPromise s;
     settlements := settlements s; sent := x; now := now s;
     crashed := crashed s |}.

Definition set_now (x : Z) (s : State) : State :=
  {| extensionSocket := extensionSocket s; readyState := readyState s;
     pendingCommands := pendingCommands s; timers := timers s;
     nextTimer := nextTimer s; nextPromise := nextPromise s;
     settlements := settlements s; sent := sent s; now := x;
     crashed := crashed s |}.

Definition set_crashed (x : bool) (s : State) : State :=
  {| extensionSocket := extensionSocket s; readyState := readyState s;
     pendingCommands := pendingCommands s; timers := timers s;
     nextTimer := nextTimer s; nextPromise := nextPromise s;
     settlements := settlements s; sent := sent s; now := now s;
     crashed := x |}.

(** *** Promises and timers *)

(** [resolve(v)] or [reject(e)] of promise [p] is called. *)
Definition settle (p : nat) (o : Outcome) (s : State) : State :=
  set_settlements (settlements s ++ [(p, o)]) s.

(** The calls made so far on promise [p], oldest first. *)
Definition calls_on (p : nat) (s : State) : list Outcome :=
  List.map snd (List.filter (fun c => Nat.eqb (fst c) p) (settlements s)).

(** What the awaiting caller observes: a promise keeps its first
    settlement, later calls are ignored by the language. *)
Definition outcome (p : nat) (s : State) : option Outcome :=
  List.hd_error (calls_on p s).

Definition clearTimeout (t : nat) (s : State) : State :=
  set_timers (base.delete t (timers s)) s.

(** [extensionSocket !== null && extensionSocket.readyState === WebSocket.OPEN] *)
Definition socket_open (s : State) : bool :=
  match extensionSocket s with
  | Some sock =>
      match readyState s !! sock with
      | Some OPEN => true
      | _ => false
      end
  | None => false
  end.

(** *** [wsServer.on("connection")] and the socket's handlers *)

Definition on_connection (sock : nat) (s : State) : State :=
  set_extensionSocket (Some sock) (set_readyState (<[sock := OPEN]> (readyState s)) s).

(** The command-response branch of the message handler, [msg] an object. *)
Definition on_response (msg : Js.object) (s : State) : State :=
  match Js.get "id" msg with
  | Js.Str id =>
      if Js.truthy (Js.Str id) then
        match JsMap.get id (pendingCommands s) with
        | Some e =>
            let s1 := clearTimeout (timer e) s in
            let s2 := set_pendingCommands (JsMap.delete id (pendingCommands s1)) s1 in
            if Js.truthy (Js.get "success" msg) then
              settle (promise e) (Resolved (Js.get "data" msg)) s2
            else
              settle (promise e)
                (Rejected (Js.to_string
                             (if Js.truthy (Js.get "error" msg)
                              then Js.get "error" msg
                              else Js.Str "Extension command failed"))) s2
        | None => s
        end
      else s
  | _ => s         (* falsy, or not a key of the map: the keys are strings *)
  end.

Definition on_object (msg : Js.object) (s : State) : State :=
  if Js.is_string "ping" (Js.get "type" msg) then s
  else if Js.is_string "extension_ready" (Js.get "type" msg) then s
  else on_response msg s.

(** [socket.on("message")] *)
Definition on_message (raw : Frame) (s : State) : State :=
  match raw with
  | Invalid => s
  | Parsed (Js.Obj msg) => on_object msg s
  | Parsed Js.Null | Parsed Js.Undefined =>
      set_crashed true s            (* [msg.type] of [null]: a TypeError escapes *)
  | Parsed _ => on_object [] s      (* a primitive or an array has none of the properties *)
  end.

(** The loop [for (const [id, { reject, timer }] of pendingCommands)] of
    the close handler and of [shutdown], over the entries it visits. *)
Fixpoint reject_each (message : string) (entries : list (string * Pending))
    (s : State) : State :=
  match entries with
  | [] => s
  | (id, e) :: rest =>
      let s1 := clearTimeout (timer e) s in
      let s2 := settle (promise e) (Rejected message) s1 in
      let s3 := set_pendingCommands (JsMap.delete id (pendingCommands s2)) s2 in
      reject_each message rest s3
  end.

(** [socket.on("close")]; the socket is [CLOSED] when the event is emitted. *)
Definition on_close (sock : nat) (s : State) : State :=
  let s0 := set_readyState (<[sock := CLOSED]> (readyState s)) s in
  let s1 := match extensionSocket s0 with
            | Some cur => if Nat.eqb cur sock then set_extensionSocket None s0 else s0
            | None => s0
            end in
  reject_each "Extension disconnected" (pendingCommands s1) s1.

(** [socket.on("error")] only logs. *)
Definition on_error (sock : nat) (s : State) : State := s.

(** *** [sendCommand] *)

(** [sendCommand(action, params)], [id] being what [crypto.randomUUID]
    returns.  The result is the new state and the promise returned. *)
Definition sendCommand (id : string) (action : Js.value) (params : Js.object)
    (s : State) : State * nat :=
  let p := nextPromise s in
  let s0 := set_nextPromise (S p) s in
  if negb (socket_open s0) then
    (settle p (Rejected "Chrome extension is not connected") s0, p)
  else
    let t := nextTimer s0 in
    let s1 := set_nextTimer (S t)
                (set_timers (<[t := {| t_id := id; t_promise := p; t_action := action;
                                       t_due := now s0 + COMMAND_TIMEOUT_MS |}]>
                               (timers s0)) s0) in
    let s2 := set_pendingCommands
                (JsMap.set id {| promise := p; timer := t |} (pendingCommands s1)) s1 in
    let payload := Js.Obj (Js.spread [("id", Js.Str id); ("action", action)] params) in
    match extensionSocket s2 with
    | Some sock => (set_sent (sent s2 ++ [(sock, payload)]) s2, p)
    | None => (s2, p)
    end.

(** The timer callback of [sendCommand]. *)
Definition on_timeout (c : Timeout) (s : State) : State :=
  let s1 := set_pendingCommands (JsMap.delete (t_id c) (pendingCommands s)) s in
  settle (t_promise c)
    (Rejected ("Command timed out after "
               ++ Js.string_of_Z (COMMAND_TIMEOUT_MS / 1000) ++ "s: "
               ++ Js.to_string (t_action c))) s1.

(** Timer [t] fires: only an armed timer whose delay has elapsed does, and
    it is disarmed by firing. *)
Definition timer_fire (t : nat) (s : State) : State :=
  match timers s !! t with
  | Some c =>
      if (t_due c <=? now s)%Z then on_timeout c (clearTimeout t s) else s
  | None => s
  end.

(** *** The event loop *)

Inductive Event : Type :=
| Connection (sock : nat)
| Message (sock : nat) (raw : Frame)
| Close (sock : nat)
| SocketError (sock : nat)
| ReadyStateChange (sock : nat) (rs : ReadyState)   (* e.g. a closing handshake starts *)
| SendCommand (id : string) (action : Js.value) (params : Js.object)
| TimerFire (t : nat)
| Elapse (dt : N).

Definition step (s : State) (e : Event) : State :=
  if crashed s then s else
  match e with
  | Connection sock => on_connection sock s
  | Message _ raw => on_message raw s
  | Close sock => on_close sock s
  | SocketError sock => on_error sock s
  | ReadyStateChange sock rs => set_readyState (<[sock := rs]> (readyState s)) s
  | SendCommand id action params => fst (sendCommand id action params s)
  | TimerFire t => timer_fire t s
  | Elapse dt => set_now (now s + Z.of_N dt) s
  end.

Definition run (s : State) (tr : list Event) : State := fold_left step tr s.

Definition reachable (s : State) : Prop := exists tr, run init tr = s.

(** *** REST API *)

Record Response : Type := { status : Z; body : Js.object }.

(** [app.get("/health")] *)
Definition health (s : State) : Response :=
  {| status := 200;
     body := [("status", Js.Str "ok");
              ("extensionConnected", Js.Bool (socket_open s));
              ("pendingCommands", Js.Num (Z.of_nat (JsMap.size (pendingCommands s))))] |}.

(** What a route does once the promise it awaits is settled. *)
Definition respond (o : Outcome) : Response :=
  match o with
  | Resolved data =>
      {| status := 200; body := [("success", Js.Bool true); ("data", data)] |}
  | Rejected message =>
      {| status := if Js.includes "not connected" message then 503 else 500;
         body := [("success", Js.Bool false); ("error", Js.Str message)] |}
  end.

(** [app.post("/command")] up to its [await]: an immediate response, or the
    promise of [sendCommand]. *)
Definition post_command (id : string) (req_body : Js.object) (s : State)
    : State * (Response + nat) :=
  let action := Js.get "action" req_body in
  let params := Js.without "action" req_body in
  if negb (Js.truthy action) then
    (s, inl {| status := 400;
               body := [("success", Js.Bool false);
                        ("error", Js.Str "Missing 'action' field")] |})
  else
    let '(s', p) := sendCommand id action params s in (s', inr p).

Definition SHORTCUT_ACTIONS : list string :=
  ["navigate"; "click"; "fill"; "scrape"; "screenshot"; "scroll"; "hover";
   "get_text"; "get_title"].

(** [app.post(`/${action}`)] up to its [await]. *)
Definition post_shortcut (action : string) (id : string) (req_body : Js.object)
    (s : State) : State * nat :=
  sendCommand id (Js.Str action) req_body s.

(** [shutdown] up to the point where the servers are closed. *)
Definition shutdown (s : State) : State :=
  reject_each "Server shutting down" (pendingCommands s) s.

(** *** Vocabulary of the properties *)

(** [id] is not in use: no entry of the table and no armed timer carries
    it.  This is what [crypto.randomUUID] is relied on for. *)
Definition fresh (id : string) (s : State) : bool :=
  negb (JsMap.has id (pendingCommands s))
  && forallb (fun tc => negb (String.eqb (t_id (snd tc)) id))
       (map_to_list (timers s)).

(** Events that concern the command with correlation id [id]: the peer
    connection closes, a frame carrying [id] arrives, or the id is handed
    out again. *)
Definition touches (id : string) (e : Event) : bool :=
  match e with
  | Close _ => true
  | Message _ (Parsed (Js.Obj msg)) => Js.is_string id (Js.get "id" msg)
  | SendCommand id' _ _ => String.eqb id' id
  | _ => false
  end.

(** A frame that the message handler takes for a reply to [id]. *)
Definition reply_to (id : string) (msg : Js.object) : bool :=
  Js.is_string id (Js.get "id" msg)
  && negb (Js.is_string "ping" (Js.get "type" msg))
  && negb (Js.is_string "extension_ready" (Js.get "type" msg)).

(** The frame carries no id of the pending table. *)
Definition unmatched (msg : Js.object) (s : State) : bool :=
  match Js.get "id" msg with
  | Js.Str id => negb (JsMap.has id (pendingCommands s))
  | _ => true
  end.

(** The error of the timer callback for a command with action [action] *)
Definition timed_out (action : Js.value) : Outcome :=
  Rejected ("Command timed out after 30s: " ++ Js.to_string action).

(** An armed timer [t] with closure [c] goes away together with the entry
    of its id, and its promise is settled with [o].  A reply, a timeout and
    one turn of the close loop all have this form. *)
Definition retire (t : nat) (c : Timeout) (o : Outcome) (s : State) : State :=
  settle (t_promise c) o
    (set_pendingCommands (JsMap.delete (t_id c) (pendingCommands s))
       (clearTimeout t s)).

(** What holds of every state the server can be in; [wf_once] is the
    single-resolution guarantee. *)
Record wf (s : State) : Prop := {
  wf_keys : NoDup (JsMap.keys (pendingCommands s));
  wf_entry : ∀ id e, JsMap.get id (pendingCommands s) = Some e →
    ∃ c, timers s !! timer e = Some c ∧ t_id c = id ∧ t_promise c = promise e;
  wf_timer : ∀ t c, timers s !! t = Some c →
    (t < nextTimer s)%nat ∧ (t_promise c < nextPromise s)%nat
    ∧ calls_on (t_promise c) s = [];
  wf_timer_inj : ∀ t t' c c', timers s !! t = Some c → timers s !! t' = Some c' →
    t_promise c = t_promise c' → t = t';
  wf_once : ∀ p, (length (calls_on p s) ≤ 1)%nat;
  wf_unborn : ∀ p, (nextPromise s ≤ p)%nat → calls_on p s = []
}.

(** The command [id] is still waiting: its entry holds promise [p] and
    timer [t], armed for [due] and the only timer of that id, and nothing
    has been called on [p]. *)
Definition awaiting (id : string) (p t : nat) (due : Z) (s : State) : Prop :=
  crashed s = false
  ∧ JsMap.get id (pendingCommands s) = Some {| promise := p; timer := t |}
  ∧ (∃ c, timers s !! t = Some c ∧ t_id c = id ∧ t_promise c = p ∧ t_due c = due)
  ∧ (∀ t' c', timers s !! t' = Some c' → t_id c' = id → t' = t)
  ∧ calls_on p s = [].

End Bridge.

(* ===================================================================== *)
(** ** The extension: command routing of the background service worker *)
(* ===================================================================== *)

(** The Chrome extension APIs the service worker calls.  A call is logged
    and answered by the environment. *)
Module Chrome.

Record Tab : Type := { id : Js.value; url : Js.value; title : Js.value }.

Inductive Call : Type :=
| tabs_update (tabId : Js.value) (props : Js.object)
| tabs_query (query : Js.object)
| tabs_create (props : Js.object)
| tabs_get (tabId : Js.value)
| tabs_captureVisibleTab (options : Js.object)
| scripting_executeScript (tabId : Js.value) (files : list string)
| tabs_sendMessage (tabId : Js.value) (message : Js.object)
| webNavigation_onCompleted_addListener (tabId : Js.value).

(** How [chrome.tabs.sendMessage] and the 15 s timer around it end. *)
Inductive MessageReply : Type :=
| NoCallback                               (* the timer fires first *)
| LastError (message : string)             (* [chrome.runtime.lastError] is set *)
| Response (response : Js.value).

(** The browser, as far as the service worker can observe it. *)
Record Env : Type := {
  update : Js.value -> Js.object -> Js.completion Tab;
  query : Js.object -> Js.completion (list Tab);
  create : Js.object -> Js.completion Tab;
  get : Js.value -> Js.completion Tab;
  captureVisibleTab : Js.object -> Js.completion Js.value;
  executeScript : Js.value -> list string -> Js.completion unit;
  sendMessage : Js.value -> Js.object -> MessageReply;
  (* does [webNavigation.onCompleted] report the main frame of the tab
     before the timeout of [waitForTabLoad]? *)
  navigationCompletes : Js.value -> bool
}.

(** An asynchronous computation: the API calls made, oldest first, and how
    it ends. *)
Definition M (A : Type) : Type := list Call * Js.completion A.

Definition ret {A} (a : A) : M A := ([], Js.Normal a).
Definition throw {A} (message : string) : M A := ([], Js.Throw message).
Definition bind {A B} (m : M A) (k : A -> M B) : M B :=
  match m with
  | (calls, Js.Normal a) => let '(calls', r) := k a in ((calls ++ calls')%list, r)
  | (calls, Js.Throw e) => (calls, Js.Throw e)
  end.
(** [await] of an API call *)
Definition call {A} (c : Call) (answer : Js.completion A) : M A := ([c], answer).
(** [try { m } catch { }] around an awaited call whose value is unused *)
Definition swallow (m : M unit) : M unit := (fst m, Js.Normal tt).

End Chrome.

Module Executor.
Import Chrome.

Notation "x <- m ;; k" := (Chrome.bind m (fun x => k))
  (at level 100, m at next level, right associativity).

Definition active_query : Js.object :=
  [("active", Js.Bool true); ("currentWindow", Js.Bool true)].

Definition tab_summary (t : Tab) : Js.value :=
  Js.Obj [("tabId", id t); ("url", url t); ("title", title t)].

(** [waitForTabLoad(tabId)] with its default timeout of 30 s *)
Definition waitForTabLoad (env : Env) (tabId : Js.value) : M unit :=
  call (webNavigation_onCompleted_addListener tabId)
       (if navigationCompletes env tabId then Js.Normal tt
        else Js.Throw "Navigation timed out after 30s").

(** [url.startsWith("http") ? url : `https://${url}`] *)
Definition targetUrl (url : string) : string :=
  if Js.startsWith "http" url then url else "https://" ++ url.

Definition navigate (env : Env) (params : Js.object) : M Js.value :=
  let url := Js.get "url" params in
  let tabId := Js.get "tabId" params in
  if negb (Js.truthy url) then throw "navigate requires a 'url' parameter" else
  match url with
  | Js.Str u =>
      let target := [("url", Js.Str (targetUrl u))] in
      if Js.truthy tabId then
        tab <- call (tabs_update tabId target) (update env tabId target) ;;
        _ <- waitForTabLoad env (id tab) ;;
        ret (tab_summary tab)
      else
        tabs <- call (tabs_query active_query) (query env active_query) ;;
        match tabs with
        | activeTab :: _ =>
            tab <- call (tabs_update (id activeTab) target)
                        (update env (id activeTab) target) ;;
            _ <- waitForTabLoad env (id tab) ;;
            updated <- call (tabs_get (id tab)) (get env (id tab)) ;;
            ret (tab_summary updated)
        | [] =>
            tab <- call (tabs_create target) (create env target) ;;
            _ <- waitForTabLoad env (id tab) ;;
            updated <- call (tabs_get (id tab)) (get env (id tab)) ;;
            ret (tab_summary updated)
        end
  | _ => throw "url.startsWith is not a function"
  end.

(** The tab a command without a truthy [tabId] applies to. *)
Definition target_tab (env : Env) (tabId : Js.value) : M Js.value :=
  if Js.truthy tabId then ret tabId
  else
    tabs <- call (tabs_query active_query) (query env active_query) ;;
    match tabs with
    | activeTab :: _ => ret (id activeTab)
    | [] => throw "No active tab found"
    end.

Definition screenshot (env : Env) (params : Js.object) : M Js.value :=
  targetTabId <- target_tab env (Js.get "tabId" params) ;;
  _ <- call (tabs_update targetTabId [("active", Js.Bool true)])
            (update env targetTabId [("active", Js.Bool true)]) ;;
  let options := [("format", Js.Str "png"); ("quality", Js.Num 90)] in
  dataUrl <- call (tabs_captureVisibleTab options) (captureVisibleTab env options) ;;
  ret (Js.Obj [("screenshot", dataUrl); ("tabId", targetTabId)]).

Definition getTitle (env : Env) (params : Js.object) : M Js.value :=
  let tabId := Js.get "tabId" params in
  if Js.truthy tabId then
    tab <- call (tabs_get tabId) (get env tabId) ;;
    ret (Js.Obj [("title", title tab); ("url", url tab); ("tabId", id tab)])
  else
    tabs <- call (tabs_query active_query) (query env active_query) ;;
    match tabs with
    | activeTab :: _ =>
        ret (Js.Obj [("title", title activeTab); ("url", url activeTab);
                     ("tabId", id activeTab)])
    | [] => throw "No active tab found"
    end.

(** [o.k] where [o] is any value that is neither [null] nor [undefined] *)
Definition property (k : string) (v : Js.value) : Js.value :=
  match v with
  | Js.Obj o => Js.get k o
  | _ => Js.Undefined
  end.

Definition forwardToContentScript (env : Env) (action : Js.value)
    (params : Js.object) : M Js.value :=
  targetTabId <- target_tab env (Js.get "tabId" params) ;;
  _ <- swallow (call (scripting_executeScript targetTabId ["content_script.js"])
                     (executeScript env targetTabId ["content_script.js"])) ;;
  let message := [("source", Js.Str "zeroclaw"); ("action", action);
                  ("params", Js.Obj params)] in
  call (tabs_sendMessage targetTabId message)
       (match sendMessage env targetTabId message with
        | NoCallback =>
            Js.Throw ("Content script timeout for action: " ++ Js.to_string action)
        | LastError m => Js.Throw m
        | Response response =>
            if negb (Js.truthy response) then Js.Throw "No response from content script"
            else if Js.truthy (property "success" response)
                 then Js.Normal (property "data" response)
                 else Js.Throw (Js.to_string
                                  (if Js.truthy (property "error" response)
                                   then property "error" response
                                   else Js.Str "Content script error"))
        end).

(** The actions [handleCommand] has a [case] for. *)
Definition ACTIONS : list string :=
  ["navigate"; "screenshot"; "get_title"; "click"; "fill"; "scrape"; "scroll";
   "hover"; "get_text"].

(** [switch (action)] compares with [===], one [case] after the other. *)
Definition handleCommand (env : Env) (action : Js.value) (params : Js.object)
    : M Js.value :=
  if Js.is_string "navigate" action then navigate env params
  else if Js.is_string "screenshot" action then screenshot env params
  else if Js.is_string "get_title" action then getTitle env params
  else if Js.is_string "click" action || Js.is_string "fill" action
          || Js.is_string "scrape" action || Js.is_string "scroll" action
          || Js.is_string "hover" action || Js.is_string "get_text" action
       then forwardToContentScript env action params
  else throw ("Unknown action: " ++ Js.to_string action).

(** The reply [ws.onmessage] builds once [handleCommand] has settled. *)
Definition reply (id : Js.value) (result : Js.completion Js.value) : Js.object :=
  match result with
  | Js.Normal data => [("id", id); ("success", Js.Bool true); ("data", data)]
  | Js.Throw message =>
      [("id", id); ("success", Js.Bool false); ("error", Js.Str message)]
  end.

(** What [ws.onmessage] does with a frame, up to the [send] that ends it. *)
Inductive Job : Type :=
| SendNow (data : Js.object)          (* the [catch] of [JSON.parse] *)
| SendLater (calls : list Call) (data : Js.object)   (* after the [await] *)
| Dies.                               (* destructuring [null]: the handler rejects *)

Definition onmessage (env : Env) (raw : Frame) : Job :=
  match raw with
  | Invalid =>
      SendNow [("success", Js.Bool false);
               ("error", Js.Str "Invalid JSON from bridge server")]
  | Parsed Js.Null | Parsed Js.Undefined => Dies
  | Parsed msg =>
      let o := Js.fields msg in
      let id := Js.get "id" o in
      let action := Js.get "action" o in
      let params := Js.without "action" (Js.without "id" o) in
      let '(calls, result) := handleCommand env action params in
      SendLater calls (reply id result)
  end.

(** The reply that [ws.onmessage] is going to send for the command [o]. *)
Definition answer (env : Env) (o : Js.object) : Js.object :=
  reply (Js.get "id" o)
        (snd (handleCommand env (Js.get "action" o)
                (Js.without "action" (Js.without "id" o)))).

(** The URLs handed to the browser by [chrome.tabs.update] and
    [chrome.tabs.create], oldest first. *)
Definition delivered_urls (calls : list Call) : list Js.value :=
  List.flat_map (fun c =>
                   match c with
                   | tabs_update _ props | tabs_create props =>
                       match Js.get "url" props with
                       | Js.Undefined => []
                       | u => [u]
                       end
                   | _ => []
                   end) calls.

End Executor.

(* ===================================================================== *)
(** ** The service worker's connection management, [setTimeout] variant *)
(* ===================================================================== *)

Module Background.

Definition RECONNECT_BASE_MS : Z := 1000.
Definition RECONNECT_MAX_MS : Z := 30000.

Record State : Type := {
  ws : option nat;                        (* [null] or the current socket *)
  readyState : gmap nat ReadyState;
  nextSocket : nat;
  reconnectDelay : Z;
  reconnectTimer : option nat;            (* last handle [setTimeout] returned *)
  timers : gmap nat Z;                    (* armed reconnect timers: handle to due time *)
  nextTimer : nat;
  scheduled : list Z;                     (* delay of every [setTimeout] of
                                             [scheduleReconnect], oldest first *)
  jobs : gmap nat Js.object;              (* handlers suspended in [await handleCommand],
                                             with the reply each is going to send *)
  nextJob : nat;
  sent : list (nat * Js.value);           (* arguments of [JSON.stringify] in [send] *)
  now : Z
}.

Definition init : State :=
  {| ws := None; readyState := ∅; nextSocket := 0;
     reconnectDelay := RECONNECT_BASE_MS; reconnectTimer := None; timers := ∅;
     nextTimer := 1; scheduled := []; jobs := ∅; nextJob := 0; sent := [];
     now := 0 |}.

Definition set_ws (x : option nat) (s : State) : State :=
  {| ws := x; readyState := readyState s; nextSocket := nextSocket s;
     reconnectDelay := reconnectDelay s; reconnectTimer := reconnectTimer s;
     timers := timers s; nextTimer := nextTimer s; scheduled := scheduled s;
     jobs := jobs s; nextJob := nextJob s; sent := sent s; now := now s |}.

Definition set_readyState (x : gmap nat ReadyState) (s : State) : State :=
  {| ws := ws s; readyState := x; nextSocket := nextSocket s;
     reconnectDelay := reconnectDelay s; reconnectTimer := reconnectTimer s;
     timers := timers s; nextTimer := nextTimer s; scheduled := scheduled s;
     jobs := jobs s; nextJob := nextJob s; sent := sent s; now := now s |}.

Definition set_nextSocket (x : nat) (s : State) : State :=
  {| ws := ws s; readyState := readyState s; nextSocket := x;
     reconnectDelay := reconnectDelay s; reconnectTimer := reconnectTimer s;
     timers := timers s; nextTimer := nextTimer s; scheduled := scheduled s;
     jobs := jobs s; nextJob := nextJob s; sent := sent s; now := now s |}.

Definition set_reconnectDelay (x : Z) (s : State) : State :=
  {| ws := ws s; readyState := readyState s; nextSocket := nextSocket s;
     reconnectDelay := x; reconnectTimer := reconnectTimer s;
     timers := timers s; nextTimer := nextTimer s; scheduled := scheduled s;
     jobs := jobs s; nextJob := nextJob s; sent := sent s; now := now s |}.

(** [reconnectTimer = setTimeout(callback, delay)] *)
Definition set_reconnectTimer (delay : Z) (s : State) : State :=
  {| ws := ws s; readyState := readyState s; nextSocket := nextSocket s;
     reconnectDelay := reconnectDelay s; reconnectTimer := Some (nextTimer s);
     timers := <[nextTimer s := now s + delay]> (timers s);
     nextTimer := S (nextTimer s); scheduled := scheduled s ++ [delay];
     jobs := jobs s; nextJob := nextJob s; sent := sent s; now := now s |}.

Definition clearTimeout (t : nat) (s : State) : State :=
  {| ws := ws s; readyState := readyState s; nextSocket := nextSocket s;
     reconnectDelay := reconnectDelay s; reconnectTimer := reconnectTimer s;
     timers := base.delete t (timers s); nextTimer := nextTimer s;
     scheduled := scheduled s;
     jobs := jobs s; nextJob := nextJob s; sent := sent s; now := now s |}.

Definition set_jobs (x : gmap nat Js.object) (n : nat) (s : State) : State :=
  {| ws := ws s; readyState := readyState s; nextSocket := nextSocket s;
     reconnectDelay := reconnectDelay s; reconnectTimer := reconnectTimer s;
     timers := timers s; nextTimer := nextTimer s; scheduled := scheduled s;
     jobs := x; nextJob := n; sent := sent s; now := now s |}.

Definition set_sent (x : list (nat * Js.value)) (s : State) : State :=
  {| ws := ws s; readyState := readyState s; nextSocket := nextSocket s;
     reconnectDelay := reconnectDelay s; reconnectTimer := reconnectTimer s;
     timers := timers s; nextTimer := nextTimer s; scheduled := scheduled s;
     jobs := jobs s; nextJob := nextJob s; sent := x; now := now s |}.

Definition set_now (x : Z) (s : State) : State :=
  {| ws := ws s; readyState := readyState s; nextSocket := nextSocket s;
     reconnectDelay := reconnectDelay s; reconnectTimer := reconnectTimer s;
     timers := timers s; nextTimer := nextTimer s; scheduled := scheduled s;
     jobs := jobs s; nextJob := nextJob s; sent := sent s; now := x |}.

(** [ws && ws.readyState === WebSocket.OPEN] *)
Definition ws_open (s : State) : bool :=
  match ws s with
  | Some sock => match readyState s !! sock with Some OPEN => true | _ => false end
  | None => false
  end.

(** [send(data)] *)
Definition send (data : Js.object) (s : State) : State :=
  match ws s with
  | Some sock =>
      if ws_open s then set_sent (sent s ++ [(sock, Js.Obj data)]) s else s
  | None => s
  end.

Definition scheduleReconnect (s : State) : State :=
  let s1 := match reconnectTimer s with
            | Some t => clearTimeout t s
            | None => s
            end in
  set_reconnectTimer (reconnectDelay s1) s1.

(** [connect()]; [constructs] tells whether [new WebSocket(WS_URL)] returns
    rather than throws. *)
Definition connect (constructs : bool) (s : State) : State :=
  let busy := match ws s with
              | Some sock =>
                  match readyState s !! sock with
                  | Some OPEN | Some CONNECTING => true
                  | _ => false
                  end
              | None => false
              end in
  if busy then s
  else if constructs then
    set_nextSocket (S (nextSocket s))
      (set_readyState (<[nextSocket s := CONNECTING]> (readyState s))
         (set_ws (Some (nextSocket s)) s))
  else scheduleReconnect s.

(** [ws.onopen]; [version] is [chrome.runtime.getManifest().version]. *)
Definition onopen (sock : nat) (version : Js.value) (s : State) : State :=
  let s0 := set_readyState (<[sock := OPEN]> (readyState s)) s in
  let s1 := set_reconnectDelay RECONNECT_BASE_MS s0 in
  send [("type", Js.Str "extension_ready"); ("version", version)] s1.

(** [ws.onclose] *)
Definition onclose (sock : nat) (s : State) : State :=
  let s0 := set_readyState (<[sock := CLOSED]> (readyState s)) s in
  scheduleReconnect (set_ws None s0).

(** The callback of the reconnect timer *)
Definition on_reconnect_timer (constructs : bool) (s : State) : State :=
  connect constructs
    (set_reconnectDelay (Z.min (reconnectDelay s * 2) RECONNECT_MAX_MS) s).

Definition timer_fire (t : nat) (constructs : bool) (s : State) : State :=
  match timers s !! t with
  | Some due =>
      if (due <=? now s)%Z then on_reconnect_timer constructs (clearTimeout t s)
      else s
  | None => s
  end.

(** [ws.onmessage], up to its [await] *)
Definition onmessage (env : Chrome.Env) (raw : Frame) (s : State) : State :=
  match Executor.onmessage env raw with
  | Executor.SendNow data => send data s
  | Executor.SendLater _ data => set_jobs (<[nextJob s := data]> (jobs s)) (S (nextJob s)) s
  | Executor.Dies => s
  end.

(** [handleCommand] has settled for job [j]: the handler resumes and sends. *)
Definition resume (j : nat) (s : State) : State :=
  match jobs s !! j with
  | Some data => send data (set_jobs (base.delete j (jobs s)) (nextJob s) s)
  | None => s
  end.

(** The [setInterval] callback, every 25 s *)
Definition keepalive (s : State) : State :=
  if ws_open s then send [("type", Js.Str "ping")] s else s.

(** The events of one life of the service worker; [terminate] below is its
    end. *)
Inductive Event : Type :=
| Connect (constructs : bool)       (* startup, [onStartup], [onInstalled] *)
| Open (sock : nat) (version : Js.value)
| Close (sock : nat)
| ReadyStateChange (sock : nat) (rs : ReadyState)
| Message (env : Chrome.Env) (raw : Frame)
| Resume (j : nat)
| TimerFire (t : nat) (constructs : bool)
| KeepAlive
| Elapse (dt : N).

Definition step (s : State) (e : Event) : State :=
  match e with
  | Connect c => connect c s
  | Open sock v => onopen sock v s
  | Close sock => onclose sock s
  | ReadyStateChange sock rs => set_readyState (<[sock := rs]> (readyState s)) s
  | Message env raw => onmessage env raw s
  | Resume j => resume j s
  | TimerFire t c => timer_fire t c s
  | KeepAlive => keepalive s
  | Elapse dt => set_now (now s + Z.of_N dt) s
  end.

Definition run (s : State) (tr : list Event) : State := fold_left step tr s.

(** One failed connection attempt and the retry that follows it: the
    socket being connected closes without having opened, the delay that
    [scheduleReconnect] asked for elapses, and the timer fires. *)
Definition fail_and_retry (s : State) : State :=
  match ws s with
  | Some sock =>
      let s1 := step s (Close sock) in
      match reconnectTimer s1, last (scheduled s1) with
      | Some t, Some delay =>
          step (step s1 (Elapse (Z.to_N delay))) (TimerFire t true)
      | _, _ => s1
      end
  | None => s
  end.

(** The worker starts and its first [k] connection attempts all fail. *)
Definition after_failures (k : nat) : State :=
  Nat.iter k fail_and_retry (step init (Connect true)).

(** The wait before attempt [k + 1], after [k >= 1] failures in a row. *)
Definition wait_after_failures (k : nat) : option Z :=
  match k with
  | O => None
  | S _ => nth_error (scheduled (after_failures k)) (k - 1)
  end.

(** The connection of [s0] is lost and the next [k] reconnection attempts
    fail: the wait before reconnection attempt [k + 1]. *)
Definition wait_before_reconnect (s0 : State) (k : nat) : option Z :=
  nth_error (scheduled (Nat.iter (S k) fail_and_retry s0))
            (length (scheduled s0) + k).

(** The frames that the handlers run between two states have sent *)
Definition frames_since (before after : State) : list Js.value :=
  List.map snd (List.skipn (List.length (sent before)) (sent after)).

(** The worker holds a socket, or the timer that [reconnectTimer] names is
    armed and will call [connect]. *)
Definition awake (s : State) : Prop :=
  is_Some (ws s) ∨ ∃ t, reconnectTimer s = Some t ∧ is_Some (timers s !! t).

(** The browser terminates the service worker.  The events above are those
    of one life of the worker; at its end the variables of the script and
    its timers are gone, its sockets are closed without their handlers
    being run, and the handlers suspended in an [await] never resume.  The
    script starts again from its first line when the browser next has an
    event for it. *)
Definition terminate (s : State) : State :=
  {| ws := None; readyState := (fun _ => CLOSED) <$> readyState s;
     nextSocket := nextSocket s; reconnectDelay := RECONNECT_BASE_MS;
     reconnectTimer := None; timers := ∅; nextTimer := nextTimer s;
     scheduled := scheduled s; jobs := ∅; nextJob := nextJob s; sent := sent s;
     now := now s |}.

End Background.

(* ===================================================================== *)
(** ** The service worker's connection management, [chrome.alarms] variant *)
(* ===================================================================== *)

Module BackgroundAlarm.

Definition RECONNECT_ALARM : string := "zeroclaw-reconnect".
Definition KEEPALIVE_ALARM : string := "zeroclaw-keepalive".

(** The [alarmInfo] argument of [chrome.alarms.create] *)
Record AlarmInfo : Type :=
  { delayInMinutes : option Q; periodInMinutes : option Q }.

Record State : Type := {
  ws : option nat;
  readyState : gmap nat ReadyState;
  nextSocket : nat;
  alarms : gmap string AlarmInfo;
  created : list (string * AlarmInfo);     (* [chrome.alarms.create] calls, oldest first *)
  jobs : gmap nat Js.object;
  nextJob : nat;
  sent : list (nat * Js.value)
}.

Definition init : State :=
  {| ws := None; readyState := ∅; nextSocket := 0; alarms := ∅; created := [];
     jobs := ∅; nextJob := 0; sent := [] |}.

Definition set_ws (x : option nat) (s : State) : State :=
  {| ws := x; readyState := readyState s; nextSocket := nextSocket s;
     alarms := alarms s; created := created s; jobs := jobs s;
     nextJob := nextJob s; sent := sent s |}.

Definition set_readyState (x : gmap nat ReadyState) (s : State) : State :=
  {| ws := ws s; readyState := x; nextSocket := nextSocket s;
     alarms := alarms s; created := created s; jobs := jobs s;
     nextJob := nextJob s; sent := sent s |}.

Definition set_nextSocket (x : nat) (s : State) : State :=
  {| ws := ws s; readyState := readyState s; nextSocket := x;
     alarms := alarms s; created := created s; jobs := jobs s;
     nextJob := nextJob s; sent := sent s |}.

(** [chrome.alarms.create(name, info)] *)
Definition alarms_create (name : string) (info : AlarmInfo) (s : State) : State :=
  {| ws := ws s; readyState := readyState s; nextSocket := nextSocket s;
     alarms := <[name := info]> (alarms s);
     created := created s ++ [(name, info)]; jobs := jobs s;
     nextJob := nextJob s; sent := sent s |}.

(** [chrome.alarms.clear(name)] *)
Definition alarms_clear (name : string) (s : State) : State :=
  {| ws := ws s; readyState := readyState s; nextSocket := nextSocket s;
     alarms := base.delete name (alarms s); created := created s; jobs := jobs s;
     nextJob := nextJob s; sent := sent s |}.

Definition set_jobs (x : gmap nat Js.object) (n : nat) (s : State) : State :=
  {| ws := ws s; readyState := readyState s; nextSocket := nextSocket s;
     alarms := alarms s; created := created s; jobs := x; nextJob := n;
     sent := sent s |}.

Definition set_sent (x : list (nat * Js.value)) (s : State) : State :=
  {| ws := ws s; readyState := readyState s; nextSocket := nextSocket s;
     alarms := alarms s; created := created s; jobs := jobs s;
     nextJob := nextJob s; sent := x |}.

Definition ws_open (s : State) : bool :=
  match ws s with
  | Some sock => match readyState s !! sock with Some OPEN => true | _ => false end
  | None => false
  end.

Definition send (data : Js.object) (s : State) : State :=
  match ws s with
  | Some sock =>
      if ws_open s then set_sent (sent s ++ [(sock, Js.Obj data)]) s else s
  | None => s
  end.

(** Poll every 0.08 min to reconnect, unless the alarm is there already. *)
Definition reconnect_info : AlarmInfo :=
  {| delayInMinutes := Some (8 # 100)%Q; periodInMinutes := Some (8 # 100)%Q |}.

Definition ensureReconnectAlarm (s : State) : State :=
  match alarms s !! RECONNECT_ALARM with
  | Some _ => s
  | None => alarms_create RECONNECT_ALARM reconnect_info s
  end.

Definition connect (constructs : bool) (s : State) : State :=
  let busy := match ws s with
              | Some sock =>
                  match readyState s !! sock with
                  | Some OPEN | Some CONNECTING => true
                  | _ => false
                  end
              | None => false
              end in
  if busy then s
  else if constructs then
    set_nextSocket (S (nextSocket s))
      (set_readyState (<[nextSocket s := CONNECTING]> (readyState s))
         (set_ws (Some (nextSocket s)) s))
  else ensureReconnectAlarm s.

Definition onopen (sock : nat) (version : Js.value) (s : State) : State :=
  let s0 := set_readyState (<[sock := OPEN]> (readyState s)) s in
  let s1 := alarms_clear RECONNECT_ALARM s0 in
  let s2 := alarms_create KEEPALIVE_ALARM
              {| delayInMinutes := None; periodInMinutes := Some (4 # 10)%Q |} s1 in
  send [("type", Js.Str "extension_ready"); ("version", version)] s2.

Definition onclose (sock : nat) (s : State) : State :=
  let s0 := set_readyState (<[sock := CLOSED]> (readyState s)) s in
  ensureReconnectAlarm (alarms_clear KEEPALIVE_ALARM (set_ws None s0)).

(** [chrome.alarms.onAlarm] listener *)
Definition onAlarm (name : string) (constructs : bool) (s : State) : State :=
  let s1 := if String.eqb name RECONNECT_ALARM then connect constructs s else s in
  if String.eqb name KEEPALIVE_ALARM then
    if ws_open s1 then send [("type", Js.Str "ping")] s1
    else ensureReconnectAlarm (alarms_clear KEEPALIVE_ALARM s1)
  else s1.

Definition onmessage (env : Chrome.Env) (raw : Frame) (s : State) : State :=
  match Executor.onmessage env raw with
  | Executor.SendNow data => send data s
  | Executor.SendLater _ data => set_jobs (<[nextJob s := data]> (jobs s)) (S (nextJob s)) s
  | Executor.Dies => s
  end.

Definition resume (j : nat) (s : State) : State :=
  match jobs s !! j with
  | Some data => send data (set_jobs (base.delete j (jobs s)) (nextJob s) s)
  | None => s
  end.

(** One failed attempt and the retry after it: the socket closes without
    having opened, and the reconnect alarm goes off. *)
Definition fail_and_retry (s : State) : State :=
  match ws s with
  | Some sock => onAlarm RECONNECT_ALARM true (onclose sock s)
  | None => s
  end.

Definition after_failures (k : nat) : State :=
  Nat.iter k fail_and_retry (connect true init).

(** The keep-alive alarm that [ws.onopen] creates *)
Definition keepalive_info : AlarmInfo :=
  {| delayInMinutes := None; periodInMinutes := Some (4 # 10)%Q |}.

Inductive Event : Type :=
| Connect (constructs : bool)       (* startup, [onStartup], [onInstalled] *)
| Open (sock : nat) (version : Js.value)
| Close (sock : nat)
| ReadyStateChange (sock : nat) (rs : ReadyState)
| Message (env : Chrome.Env) (raw : Frame)
| Resume (j : nat)
| Alarm (name : string) (constructs : bool).

Definition step (s : State) (e : Event) : State :=
  match e with
  | Connect c => connect c s
  | Open sock v => onopen sock v s
  | Close sock => onclose sock s
  | ReadyStateChange sock rs => set_readyState (<[sock := rs]> (readyState s)) s
  | Message env raw => onmessage env raw s
  | Resume j => resume j s
  | Alarm name c => onAlarm name c s
  end.

Definition run (s : State) (tr : list Event) : State := fold_left step tr s.

Definition frames_since (before after : State) : list Js.value :=
  List.map snd (List.skipn (List.length (sent before)) (sent after)).

(** One of the two alarms is armed: the reconnect alarm calls [connect],
    the keep-alive alarm arms the reconnect alarm when it finds no open
    socket. *)
Definition armed (s : State) : Prop :=
  is_Some (alarms s !! RECONNECT_ALARM) ∨ is_Some (alarms s !! KEEPALIVE_ALARM).

(** The browser terminates the service worker: the variables of the script
    are gone, its sockets are closed without their handlers being run, and
    the handlers suspended in an [await] never resume.  The alarms are the
    browser's and stay. *)
Definition terminate (s : State) : State :=
  {| ws := None; readyState := (fun _ => CLOSED) <$> readyState s;
     nextSocket := nextSocket s; alarms := alarms s; created := created s;
     jobs := ∅; nextJob := nextJob s; sent := sent s |}.

(** What happens to the worker over its lives: a handler runs, the browser
    terminates the worker, or the script starts again from its first line,
    with the [connect()] of its start-up, because the browser has an event
    for it, an alarm for one. *)
Inductive Life : Type :=
| Handle (e : Event)
| Terminate
| Start (constructs : bool).

Definition life_step (s : State) (l : Life) : State :=
  match l with
  | Handle e => step s e
  | Terminate => terminate s
  | Start c => connect c s
  end.

Definition life_run (s : State) (lives : list Life) : State :=
  fold_left life_step lives s.

End BackgroundAlarm.

(* ===================================================================== *)
(** ** The content script's selector resolution *)
(* ===================================================================== *)

Module Content.

(** A DOM node of the tree below [body], an element or a text node, with
    the handle that identifies it.  (What else an XPath can select, the
    document for one, is added where the actions of the content script use
    the node: [ContentScript.Found].) *)
Inductive Node : Type :=
| Element (handle : nat) (tagName : string) (childNodes : list Node)
| Text (handle : nat) (data : string).

Definition is_element (n : Node) : bool :=
  match n with Element _ _ _ => true | Text _ _ => false end.

(** [node.textContent]: the text of all descendants, in document order *)
Fixpoint textContent (n : Node) : string :=
  match n with
  | Element _ _ kids =>
      (fix concat (l : list Node) : string :=
         match l with
         | [] => ""
         | k :: rest => textContent k ++ concat rest
         end) kids
  | Text _ data => data
  end.

(** A node followed by its descendants, in document order *)
Fixpoint subtree (n : Node) : list Node :=
  n :: match n with
       | Element _ _ kids =>
           (fix each (l : list Node) : list Node :=
              match l with
              | [] => []
              | k :: rest => (subtree k ++ each rest)%list
              end) kids
       | Text _ _ => []
       end.

(** The page as the script sees it.  The selector and XPath engines are the
    browser's; the document has a [body]. *)
Record Document : Type := {
  body : Node;
  (* [document.querySelector(s)]: throws on a syntax error *)
  querySelector : string -> Js.completion (option Node);
  (* [document.evaluate(s, document, null, FIRST_ORDERED_NODE_TYPE, null)
     .singleNodeValue]: throws on a syntax error *)
  evaluate : string -> Js.completion (option Node)
}.

(** [document.createTreeWalker(root, NodeFilter.SHOW_ELEMENT)]: the nodes
    that successive [nextNode()] calls return, the root not among them. *)
Definition createTreeWalker (root : Node) : list Node :=
  List.filter is_element (List.tl (subtree root)).

(** [while ((node = walk.nextNode())) { if (...) return node; }] *)
Fixpoint walk_loop (selector : string) (walk : list Node) : option Node :=
  match walk with
  | [] => None
  | node :: rest =>
      if String.eqb (Js.trim (textContent node)) (Js.trim selector)
      then Some node
      else walk_loop selector rest
  end.

Definition resolveElement (document : Document) (selector : string)
    : Js.completion (option Node) :=
  if negb (Js.truthy (Js.Str selector)) then Js.Normal None else
  Js.bind (Js.try_catch (querySelector document selector)
                        (fun _ => Js.Normal None)) (fun el =>
  match el with
  | Some e => Js.Normal (Some e)
  | None =>
      Js.bind (Js.try_catch (evaluate document selector)
                            (fun _ => Js.Normal None)) (fun singleNodeValue =>
      match singleNodeValue with
      | Some n => Js.Normal (Some n)
      | None => Js.Normal (walk_loop selector (createTreeWalker (body document)))
      end)
  end).

End Content.

(* ===================================================================== *)
(** ** The content script's actions and message handler *)
(* ===================================================================== *)

Module ContentScript.
Import Content.

(** What [resolveElement] can return.  The selector engine and the tree
    walk give elements.  An XPath can select any node: an element or a
    text node of the tree, or a node of another kind, namely the document
    itself or a doctype, whose [textContent] is [null], or an attribute, a
    comment or a processing instruction, whose [textContent] is its text.
    Only elements have [scrollIntoView] and [tagName]. *)
Inductive Found : Type :=
| InTree (n : Node)
| Outside (textContent : option string).

(** [node.textContent], [None] for [null] *)
Definition text_of (f : Found) : option string :=
  match f with
  | InTree n => Some (textContent n)
  | Outside t => t
  end.

(** The DOM methods that the script calls, oldest first, with the handle
    of the element they are called on.  The log records the calls of the
    script and not what the page does in answer to them: the listeners a
    dispatched event runs, or the activation behaviour that a dispatched
    [click] sets off on its target, such as following a link or
    submitting the form of a submit button. *)
Inductive Effect : Type :=
| scrollIntoView (el : nat)
| dispatchEvent (el : nat) (type : string)
| focus (el : nat)
| nativeInputValueSetter_call (el : nat) (value : Js.value)
| form_submit (form : nat)
| scrolled (direction amount : Js.value) (target : option Found).

(** The page around the script.  Its elements are HTML elements, which
    have [scrollIntoView] and [focus]. *)
Record Page : Type := {
  body : Node;                        (* [document.body] *)
  (* [document.querySelector(s)]: throws on a syntax error *)
  querySelector : string -> Js.completion (option Node);
  (* [document.evaluate(s, document, null, FIRST_ORDERED_NODE_TYPE, null)
     .singleNodeValue]: throws on a syntax error *)
  evaluate : string -> Js.completion (option Found);
  title : Js.value;                   (* [document.title] *)
  href : Js.value;                    (* [location.href] *)
  (* the [value] setter of [HTMLInputElement.prototype], which every page
     has, called on an element: it throws on one that is no input *)
  inputValueSetter : nat -> Js.value -> Js.completion unit;
  (* [el.closest("form")] *)
  closest_form : nat -> option nat;
  (* [scrape(params)]: it reads the page and calls nothing that changes
     it; what it finds is the browser's *)
  scrape : Js.value -> Js.completion Js.value;
  (* [scroll] from its [switch] on, the target being what the selector
     resolved to or, as [None], the window *)
  scrolling : Js.value -> Js.value -> option Found -> Js.completion Js.value
}.

(** An XPath result of a document whose XPath engine only selects nodes of
    the tree. *)
Definition in_tree (r : Js.completion (option Node)) : Js.completion (option Found) :=
  match r with
  | Js.Normal (Some n) => Js.Normal (Some (InTree n))
  | Js.Normal None => Js.Normal None
  | Js.Throw m => Js.Throw m
  end.

(** A synchronous computation on the page: the calls it makes and how it
    ends. *)
Definition M (A : Type) : Type := list Effect * Js.completion A.

Definition ret {A} (a : A) : M A := ([], Js.Normal a).
Definition throw {A} (message : string) : M A := ([], Js.Throw message).
Definition lift {A} (c : Js.completion A) : M A := ([], c).
Definition effect (e : Effect) : M unit := ([e], Js.Normal tt).
Definition call {A} (e : Effect) (answer : Js.completion A) : M A := ([e], answer).
Definition bind {A B} (m : M A) (k : A -> M B) : M B :=
  match m with
  | (fx, Js.Normal a) => let '(fx', r) := k a in ((fx ++ fx')%list, r)
  | (fx, Js.Throw e) => (fx, Js.Throw e)
  end.

Notation "x <- m ;; k" := (bind m (fun x => k))
  (at level 100, m at next level, right associativity).

(** [v.k] *)
Definition member (k : string) (v : Js.value) : Js.completion Js.value :=
  match v with
  | Js.Obj o => Js.Normal (Js.get k o)
  | Js.Null =>
      Js.Throw ("Cannot read properties of null (reading '" ++ k ++ "')")
  | Js.Undefined =>
      Js.Throw ("Cannot read properties of undefined (reading '" ++ k ++ "')")
  | _ => Js.Normal Js.Undefined
  end.

(** [s.toLowerCase()] on code units below 256 *)
Definition lower (c : ascii) : ascii :=
  let n := nat_of_ascii c in
  if (Nat.leb 65 n && Nat.leb n 90)
     || (Nat.leb 192 n && Nat.leb n 222 && negb (Nat.eqb n 215))
  then ascii_of_nat (n + 32) else c.

Fixpoint toLowerCase (s : string) : string :=
  match s with
  | EmptyString => EmptyString
  | String c rest => String (lower c) (toLowerCase rest)
  end.

Fixpoint take (n : nat) (s : string) : string :=
  match n, s with
  | S n', String c rest => String c (take n' rest)
  | _, _ => EmptyString
  end.

(** [s.slice(0, n)] *)
Definition slice0 (n : N) (s : string) : string := take (N.to_nat n) s.

(** [resolveElement(selector)] for any value of [params.selector].  The two
    engines convert a selector that is not a string; the text match calls
    its [trim], which only a string has. *)
Definition resolveElement (page : Page) (selector : Js.value)
    : Js.completion (option Found) :=
  if negb (Js.truthy selector) then Js.Normal None else
  let s := Js.to_string selector in
  Js.bind (Js.try_catch (querySelector page s)
                        (fun _ => Js.Normal None)) (fun el =>
  match el with
  | Some e => Js.Normal (Some (InTree e))
  | None =>
      Js.bind (Js.try_catch (evaluate page s)
                            (fun _ => Js.Normal None)) (fun singleNodeValue =>
      match singleNodeValue with
      | Some n => Js.Normal (Some n)
      | None =>
          match selector with
          | Js.Str _ =>
              Js.Normal (option_map InTree
                           (walk_loop s (createTreeWalker (body page))))
          | _ =>
              match createTreeWalker (body page) with
              | [] => Js.Normal None
              | _ :: _ => Js.Throw "selector.trim is not a function"
              end
          end
      end)
  end).

Definition click (page : Page) (params : Js.value) : M Js.value :=
  selector <- lift (member "selector" params) ;;
  el <- lift (resolveElement page selector) ;;
  match el with
  | None => throw ("Element not found: " ++ Js.to_string selector)
  | Some (InTree (Element el tagName _)) =>
      _ <- effect (scrollIntoView el) ;;
      _ <- effect (dispatchEvent el "mouseover") ;;
      _ <- effect (dispatchEvent el "mousedown") ;;
      _ <- effect (dispatchEvent el "mouseup") ;;
      _ <- effect (dispatchEvent el "click") ;;
      ret (Js.Obj [("clicked", selector); ("tag", Js.Str (toLowerCase tagName))])
  | Some _ => throw "el.scrollIntoView is not a function"
  end.

Definition fill (page : Page) (params : Js.value) : M Js.value :=
  selector <- lift (member "selector" params) ;;
  el <- lift (resolveElement page selector) ;;
  match el with
  | None => throw ("Element not found: " ++ Js.to_string selector)
  | Some (InTree (Element el _ _)) =>
      _ <- effect (scrollIntoView el) ;;
      _ <- effect (focus el) ;;
      value <- lift (member "value" params) ;;
      _ <- call (nativeInputValueSetter_call el value) (inputValueSetter page el value) ;;
      _ <- effect (dispatchEvent el "input") ;;
      _ <- effect (dispatchEvent el "change") ;;
      submit <- lift (member "submit" params) ;;
      _ <- (if Js.truthy submit then
              match closest_form page el with
              | Some form => effect (form_submit form)
              | None => ret tt
              end
            else ret tt) ;;
      ret (Js.Obj [("filled", selector); ("value", value)])
  | Some _ => throw "el.scrollIntoView is not a function"
  end.

Definition scroll (page : Page) (params : Js.value) : M Js.value :=
  match params with
  | Js.Null => throw "Cannot read properties of null (reading 'direction')"
  | Js.Undefined => throw "Cannot read properties of undefined (reading 'direction')"
  | _ =>
      let o := Js.fields params in
      let direction := match Js.get "direction" o with
                       | Js.Undefined => Js.Str "down"
                       | v => v
                       end in
      let amount := match Js.get "amount" o with
                    | Js.Undefined => Js.Num 500
                    | v => v
                    end in
      let selector := Js.get "selector" o in
      target <- (if Js.truthy selector
                 then lift (resolveElement page selector)
                 else ret None) ;;
      match target with
      | None =>
          if Js.truthy selector
          then throw ("Element not found: " ++ Js.to_string selector)
          else call (scrolled direction amount None)
                    (scrolling page direction amount None)
      | Some n =>
          call (scrolled direction amount (Some n))
               (scrolling page direction amount (Some n))
      end
  end.

Definition hover (page : Page) (params : Js.value) : M Js.value :=
  selector <- lift (member "selector" params) ;;
  el <- lift (resolveElement page selector) ;;
  match el with
  | None => throw ("Element not found: " ++ Js.to_string selector)
  | Some (InTree (Element el tagName _)) =>
      _ <- effect (scrollIntoView el) ;;
      _ <- effect (dispatchEvent el "mouseover") ;;
      _ <- effect (dispatchEvent el "mouseenter") ;;
      ret (Js.Obj [("hovered", selector); ("tag", Js.Str (toLowerCase tagName))])
  | Some _ => throw "el.scrollIntoView is not a function"
  end.

Definition getText (page : Page) (params : Js.value) : M Js.value :=
  selector <- lift (member "selector" params) ;;
  el <- lift (resolveElement page selector) ;;
  match el with
  | None => throw ("Element not found: " ++ Js.to_string selector)
  | Some n =>
      match text_of n with
      | Some text => ret (Js.Obj [("text", Js.Str (slice0 10000 (Js.trim text)))])
      | None => throw "Cannot read properties of null (reading 'trim')"
      end
  end.

Definition getTitle (page : Page) : M Js.value :=
  ret (Js.Obj [("title", title page); ("url", href page)]).

(** The [switch (action)] of the message handler: the function of a known
    action. *)
Definition route (page : Page) (action : Js.value) : option (Js.value -> M Js.value) :=
  if Js.is_string "scrape" action then Some (fun params => lift (scrape page params))
  else if Js.is_string "click" action then Some (click page)
  else if Js.is_string "fill" action then Some (fill page)
  else if Js.is_string "scroll" action then Some (scroll page)
  else if Js.is_string "hover" action then Some (hover page)
  else if Js.is_string "get_text" action then Some (getText page)
  else if Js.is_string "get_title" action then Some (fun _ => getTitle page)
  else None.

(** What the handler passes to [sendResponse] for the outcome of an action *)
Definition response (r : Js.completion Js.value) : Js.object :=
  match r with
  | Js.Normal result => [("success", Js.Bool true); ("data", result)]
  | Js.Throw message => [("success", Js.Bool false); ("error", Js.Str message)]
  end.

(** What the listener did: the calls it made on the page, its call of
    [sendResponse] if any, and the value it returns. *)
Record Handled : Type :=
  { effects : list Effect; sendResponse : option Js.object; returned : bool }.

(** The listener of [chrome.runtime.onMessage] *)
Definition onMessage (page : Page) (message : Js.object) : Handled :=
  if negb (Js.is_string "zeroclaw" (Js.get "source" message))
  then {| effects := []; sendResponse := None; returned := false |}
  else
    let action := Js.get "action" message in
    let params := match Js.get "params" message with
                  | Js.Undefined => Js.Obj []
                  | v => v
                  end in
    match route page action with
    | Some f =>
        let '(fx, r) := f params in
        {| effects := fx; sendResponse := Some (response r); returned := true |}
    | None =>
        {| effects := [];
           sendResponse :=
             Some [("success", Js.Bool false);
                   ("error", Js.Str ("Unknown content action: " ++ Js.to_string action))];
           returned := true |}
    end.

(** The message [forwardToContentScript] sends for a command *)
Definition command_message (action : Js.value) (params : Js.object) : Js.object :=
  [("source", Js.Str "zeroclaw"); ("action", action); ("params", Js.Obj params)].


(** The page that the script sees around a document whose XPath engine
    only selects nodes of the tree. *)
Definition around (document : Document) (page : Page) : Prop :=
  body page = Content.body document
  /\ (forall s, querySelector page s = Content.querySelector document s)
  /\ (forall s, evaluate page s = in_tree (Content.evaluate document s)).

End ContentScript.

(* ===================================================================== *)
(** ** The command-line wrapper [zc-browser.sh] *)
(* ===================================================================== *)

Module Cli.

Definition quote : ascii := "034"%char.
Definition backslash : ascii := "\"%char.

(** [${param%%=*}]: what stands before the first [=]; the whole word when
    it has none. *)
Fixpoint key_of (param : string) : string :=
  match param with
  | EmptyString => EmptyString
  | String c rest => if Ascii.eqb c "=" then EmptyString else String c (key_of rest)
  end.

(** [${param#*=}]: what stands after the first [=]; the whole word when it
    has none. *)
Fixpoint after_equals (param : string) : option string :=
  match param with
  | EmptyString => None
  | String c rest => if Ascii.eqb c "=" then Some rest else after_equals rest
  end.

Definition value_of (param : string) : string :=
  match after_equals param with
  | Some value => value
  | None => param
  end.

(** [[[ "$value" =~ ^[0-9]+$ ]]] *)
Definition is_digit (c : ascii) : bool :=
  let n := nat_of_ascii c in Nat.leb 48 n && Nat.leb n 57.

Fixpoint digits (s : string) : bool :=
  match s with
  | EmptyString => true
  | String c rest => is_digit c && digits rest
  end.

Definition is_number (value : string) : bool :=
  match value with
  | EmptyString => false
  | _ => digits value
  end.

(** [${s//c/by}] for a one-character pattern *)
Fixpoint replace_all (c : ascii) (by_ : string) (s : string) : string :=
  match s with
  | EmptyString => EmptyString
  | String d rest =>
      if Ascii.eqb d c then by_ ++ replace_all c by_ rest
      else String d (replace_all c by_ rest)
  end.

(** The two substitutions on a string value: every backslash is doubled,
    then every quote gets a backslash. *)
Definition escape (value : string) : string :=
  replace_all quote (String backslash (String quote EmptyString))
    (replace_all backslash (String backslash (String backslash EmptyString)) value).

Definition quoted (s : string) : string :=
  String quote (s ++ String quote EmptyString).

(** What one [key=value] word adds to [json_body]. *)
Definition member (param : string) : string :=
  let key := key_of param in
  let value := value_of param in
  if String.eqb value "true" || String.eqb value "false" then
    "," ++ quoted key ++ ":" ++ value
  else if is_number value then
    "," ++ quoted key ++ ":" ++ value
  else
    "," ++ quoted key ++ ":" ++ quoted (escape value).

(** The body posted to [/command]. *)
Definition json_body (ACTION : string) (params : list string) : string :=
  "{" ++ quoted "action" ++ ":" ++ quoted ACTION
  ++ String.concat "" (List.map member params) ++ "}".

(** How a JSON parser reads the characters between the quotes of a string
    literal (RFC 8259, section 7), [\u] escapes left aside: [None] when
    they are no string body, because of a bare quote, a control character
    or a bad escape. *)
Fixpoint json_string_body (s : string) : option string :=
  match s with
  | EmptyString => Some EmptyString
  | String c rest =>
      if Ascii.eqb c backslash then
        match rest with
        | EmptyString => None
        | String d rest' =>
            match (if Ascii.eqb d quote then Some quote
                   else if Ascii.eqb d backslash then Some backslash
                   else if Ascii.eqb d "/" then Some "/"%char
                   else if Ascii.eqb d "b" then Some "008"%char
                   else if Ascii.eqb d "f" then Some "012"%char
                   else if Ascii.eqb d "n" then Some "010"%char
                   else if Ascii.eqb d "r" then Some "013"%char
                   else if Ascii.eqb d "t" then Some "009"%char
                   else None),
                  json_string_body rest' with
            | Some x, Some tail => Some (String x tail)
            | _, _ => None
            end
        end
      else if Ascii.eqb c quote || Nat.ltb (nat_of_ascii c) 32 then None
      else match json_string_body rest with
           | Some tail => Some (String c tail)
           | None => None
           end
  end.

(** No character of [s] is a control character. *)
Definition printable (s : string) : bool :=
  forallb (fun c => Nat.leb 32 (nat_of_ascii c)) (list_ascii_of_string s).

End Cli.

(* ===================================================================== *)
(** ** What the specification words say, for comparison with the code *)
(* ===================================================================== *)

Module Claimed.

(** The wait before attempt [k + 1] after [k] failed attempts:
    [min(floor * 2^k, ceiling)]. *)
Definition backoff_wait (floor ceiling : Z) (k : nat) : Z :=
  Z.min (floor * 2 ^ Z.of_nat k) ceiling.

(** A URL carries a scheme when it begins with a letter followed by
    letters, digits, [+], [-] or [.], and then a colon. *)
Definition is_alpha (c : ascii) : bool :=
  let n := nat_of_ascii c in
  (Nat.leb 65 n && Nat.leb n 90) || (Nat.leb 97 n && Nat.leb n 122).

Definition is_scheme_char (c : ascii) : bool :=
  let n := nat_of_ascii c in
  is_alpha c || (Nat.leb 48 n && Nat.leb n 57)
  || Nat.eqb n 43 || Nat.eqb n 45 || Nat.eqb n 46.

Fixpoint scheme_ends (s : string) : bool :=
  match s with
  | EmptyString => false
  | String c rest =>
      if Ascii.eqb c ":" then true
      else if is_scheme_char c then scheme_ends rest else false
  end.

Definition has_scheme (url : string) : bool :=
  match url with
  | EmptyString => false
  | String c rest => is_alpha c && scheme_ends rest
  end.

(** Scheme-less inputs default to https, the others are left unchanged. *)
Definition normalize_url (url : string) : string :=
  if has_scheme url then url else "https://" ++ url.


(** The ordered first-match-wins strategy for a locator: the selector match
    if there is one, else the path match, else the first element in
    document order whose trimmed text is the trimmed locator; an engine's
    syntax error counts as no match. *)
Definition matched (r : Js.completion (option Content.Node)) : option Content.Node :=
  match r with
  | Js.Normal (Some n) => Some n
  | _ => None
  end.

Definition text_matches (locator : string) (n : Content.Node) : bool :=
  String.eqb (Js.trim (Content.textContent n)) (Js.trim locator).

Definition resolve (document : Content.Document) (locator : string)
    : option Content.Node :=
  match matched (Content.querySelector document locator) with
  | Some n => Some n
  | None =>
      match matched (Content.evaluate document locator) with
      | Some n => Some n
      | None =>
          List.find (text_matches locator)
            (List.filter Content.is_element
               (List.tl (Content.subtree (Content.body document))))
      end
  end.

End Claimed.

(* ===================================================================== *)
(** ** Sample inputs *)
(* ===================================================================== *)

Module Sample.

Definition hello : Content.Node :=
  Content.Element 1 "div" [Content.Text 2 " Hello "].
Definition br : Content.Node := Content.Element 3 "br" [].

(** [<body><div id="x"> Hello </div><br></body>], with engines that know
    the selector [#x] and the path [//div[@id='x']] and reject the empty
    string. *)
Definition page : Content.Document :=
  {| Content.body := Content.Element 0 "body" [hello; br];
     Content.querySelector := fun s =>
       if String.eqb s "" then Js.Throw "SyntaxError: The provided selector is empty"
       else if String.eqb s "#x" then Js.Normal (Some hello)
       else if String.eqb s "br" then Js.Normal (Some br)
       else if Js.startsWith "//" s then Js.Throw "SyntaxError: not a valid selector"
       else Js.Normal None;
     Content.evaluate := fun s =>
       if String.eqb s "" then Js.Throw "SyntaxError: The string is not a valid XPath"
       else if String.eqb s "//div[@id='x']" then Js.Normal (Some hello)
       else if Js.startsWith "#" s then Js.Throw "SyntaxError: not a valid XPath"
       else Js.Normal None |}.

Definition tab : Chrome.Tab :=
  {| Chrome.id := Js.Num 42; Chrome.url := Js.Str "about:blank";
     Chrome.title := Js.Str "" |}.

(** A browser with one active tab in which everything succeeds. *)
Definition browser : Chrome.Env :=
  {| Chrome.update := fun tabId props =>
       Js.Normal {| Chrome.id := tabId; Chrome.url := Js.get "url" props;
                    Chrome.title := Js.Str "" |};
     Chrome.query := fun _ => Js.Normal [tab];
     Chrome.create := fun props =>
       Js.Normal {| Chrome.id := Js.Num 43; Chrome.url := Js.get "url" props;
                    Chrome.title := Js.Str "" |};
     Chrome.get := fun tabId =>
       Js.Normal {| Chrome.id := tabId; Chrome.url := Js.Str "https://example.com/";
                    Chrome.title := Js.Str "Example Domain" |};
     Chrome.captureVisibleTab := fun _ => Js.Normal (Js.Str "data:image/png;base64,");
     Chrome.executeScript := fun _ _ => Js.Normal tt;
     Chrome.sendMessage := fun _ _ =>
       Chrome.Response (Js.Obj [("success", Js.Bool true); ("data", Js.Null)]);
     Chrome.navigationCompletes := fun _ => true |}.

(** The sample document in a page whose elements are no inputs and stand
    in no form, with a browser whose tab 42 runs the content script there.
    The path [/] selects the document. *)
Definition content_page : ContentScript.Page :=
  {| ContentScript.body := Content.body page;
     ContentScript.querySelector := Content.querySelector page;
     ContentScript.evaluate := fun s =>
       if String.eqb s "/" then Js.Normal (Some (ContentScript.Outside None))
       else ContentScript.in_tree (Content.evaluate page s);
     ContentScript.title := Js.Str "Example Domain";
     ContentScript.href := Js.Str "https://example.com/";
     ContentScript.inputValueSetter := fun _ _ => Js.Throw "Illegal invocation";
     ContentScript.closest_form := fun _ => None;
     ContentScript.scrape := fun _ => Js.Normal (Js.Arr []);
     ContentScript.scrolling := fun direction _ _ =>
       Js.Normal (Js.Obj [("scrolled", direction)]) |}.

Definition content_browser : Chrome.Env :=
  {| Chrome.update := Chrome.update browser;
     Chrome.query := Chrome.query browser;
     Chrome.create := Chrome.create browser;
     Chrome.get := Chrome.get browser;
     Chrome.captureVisibleTab := Chrome.captureVisibleTab browser;
     Chrome.executeScript := Chrome.executeScript browser;
     Chrome.sendMessage := fun _ message =>
       match ContentScript.sendResponse (ContentScript.onMessage content_page message) with
       | Some r => Chrome.Response (Js.json_roundtrip (Js.Obj r))
       | None => Chrome.NoCallback
       end;
     Chrome.navigationCompletes := Chrome.navigationCompletes browser |}.

(** [<body><form><input id="q"></form></body>] *)
Definition input : Content.Node := Content.Element 5 "INPUT" [].

Definition form_page : ContentScript.Page :=
  {| ContentScript.body :=
       Content.Element 0 "BODY" [Content.Element 4 "FORM" [input]];
     ContentScript.querySelector := fun s =>
       if String.eqb s "#q" then Js.Normal (Some input) else Js.Normal None;
     ContentScript.evaluate := fun _ => Js.Normal None;
     ContentScript.title := Js.Str "Search";
     ContentScript.href := Js.Str "https://example.com/search";
     ContentScript.inputValueSetter := fun el _ =>
       if Nat.eqb el 5 then Js.Normal tt else Js.Throw "Illegal invocation";
     ContentScript.closest_form := fun el =>
       if Nat.eqb el 5 || Nat.eqb el 4 then Some 4%nat else None;
     ContentScript.scrape := fun _ => Js.Normal (Js.Arr []);
     ContentScript.scrolling := fun direction _ _ =>
       Js.Normal (Js.Obj [("scrolled", direction)]) |}.

End Sample.

(* ===================================================================== *)
(** * Properties *)
(* ===================================================================== *)

(** ** Objects *)

Module JsFacts.

Lemma get_set (k k' : string) (v : Js.value) (o : Js.object) :
  Js.get k (Js.set k' v o) = if String.eqb k k' then v else Js.get k o.
Proof.
  induction o as [|[k0 v0] o IH]; simpl; [done |].
  destruct (String.eqb_spec k' k0) as [->|Hne]; simpl.
  - by destruct (String.eqb_spec k k0).
  - destruct (String.eqb_spec k k0) as [->|Hk]; [| exact IH].
    destruct (String.eqb_spec k0 k'); [congruence | done].
Qed.



Lemma get_spread_absent (k : string) (base extra : Js.object) :
  existsb (String.eqb k) (List.map fst extra) = false →
  Js.get k (Js.spread base extra) = Js.get k base.
Proof.
  unfold Js.spread. revert base.
  induction extra as [|[k0 v0] extra IH]; intros base; simpl; [done |].
  rewrite orb_false_iff. intros [Hk Hrest].
  rewrite IH by done. by rewrite get_set, Hk.
Qed.





Lemma keys_without_inv (k k' : string) (o : Js.object) :
  k ∈ List.map fst (Js.without k' o) → k ∈ List.map fst o.
Proof.
  unfold Js.without. induction o as [|[k0 v0] o IH]; simpl; [done |].
  destruct (String.eqb k0 k'); simpl; rewrite ?elem_of_cons; tauto.
Qed.

Lemma keys_without_ne (k k' : string) (o : Js.object) :
  k ≠ k' → k ∈ List.map fst o → k ∈ List.map fst (Js.without k' o).
Proof.
  intros Hne. unfold Js.without. induction o as [|[k0 v0] o IH]; simpl; [done |].
  rewrite elem_of_cons. destruct (String.eqb_spec k0 k') as [->|Hk]; simpl.
  - intros [H|H]; [done | by apply IH].
  - rewrite elem_of_cons. tauto.
Qed.

Lemma NoDup_without (k : string) (o : Js.object) :
  NoDup (List.map fst o) → NoDup (List.map fst (Js.without k o)).
Proof.
  induction o as [|[k0 v0] o IH]; [done |].
  simpl List.map. rewrite NoDup_cons. intros [Hk0 Hnd].
  unfold Js.without in *. simpl. destruct (String.eqb k0 k); simpl; [by apply IH |].
  apply NoDup_cons. split; [| by apply IH].
  intros Hin. apply Hk0. by apply (keys_without_inv k0 k).
Qed.

Lemma get_without_ne (k k' : string) (o : Js.object) :
  k ≠ k' → Js.get k (Js.without k' o) = Js.get k o.
Proof.
  intros Hne. unfold Js.without. induction o as [|[k0 v0] o IH]; simpl; [done |].
  destruct (String.eqb_spec k0 k') as [->|Hk]; simpl.
  - destruct (String.eqb_spec k k'); [done | exact IH].
  - by rewrite IH.
Qed.

Lemma get_spread_present (k : string) (base extra : Js.object) :
  NoDup (List.map fst extra) → k ∈ List.map fst extra →
  Js.get k (Js.spread base extra) = Js.get k extra.
Proof.
  unfold Js.spread. revert base.
  induction extra as [|[k0 v0] extra IH]; intros base; simpl.
  - intros _ H. by apply elem_of_nil in H.
  - rewrite NoDup_cons, elem_of_cons. intros [Hk0 Hnd] Hin.
    destruct (String.eqb_spec k k0) as [->|Hne].
    + assert (existsb (String.eqb k0) (List.map fst extra) = false) as Habs.
      { apply not_true_is_false. intros H. apply existsb_exists in H as (x & Hx & Hxe).
        apply String.eqb_eq in Hxe as <-. by apply list_elem_of_In in Hx. }
      pose proof (get_spread_absent k0 (Js.set k0 v0 base) extra Habs) as Hg.
      unfold Js.spread in Hg. rewrite Hg, get_set. by rewrite String.eqb_refl.
    + destruct Hin as [Hin|Hin]; [done |]. by apply IH.
Qed.

(** [JSON.parse(JSON.stringify(v))] gives back a value that came out of
    [JSON.parse]. *)
Lemma json_roundtrip_id (v : Js.value) :
  Js.is_json v = true → Js.json_roundtrip v = v.
Proof.
  revert v. fix IH 1. intros [| | b | n | s | items | fs]; try done.
  - intros H. cbn [Js.json_roundtrip]. f_equal.
    induction items as [|x items IHitems]; [done |].
    cbn [Js.is_json forallb] in H. apply andb_true_iff in H as [Hx Hitems].
    cbn [List.map]. f_equal; [| by apply IHitems].
    rewrite (IH x Hx). by destruct x.
  - intros H. cbn [Js.json_roundtrip]. f_equal.
    induction fs as [|[k x] fs IHfs]; [done |].
    cbn [Js.is_json] in H. apply andb_true_iff in H as [Hx Hfs].
    pose proof (IH x Hx) as Ex. specialize (IHfs Hfs).
    destruct x; try done; try (by rewrite IHfs); by rewrite IHfs, Ex.
Qed.

Lemma is_json_cons (k : string) (x : Js.value) (o : Js.object) :
  Js.is_json (Js.Obj ((k, x) :: o)) = Js.is_json x && Js.is_json (Js.Obj o).
Proof. done. Qed.

Lemma is_json_get (k : string) (o : Js.object) :
  Js.is_json (Js.Obj o) = true → Js.truthy (Js.get k o) = true →
  Js.is_json (Js.get k o) = true.
Proof.
  induction o as [|[k0 x] o IHo]; [done |].
  rewrite is_json_cons, andb_true_iff. intros [Hx Ho]. simpl.
  destruct (String.eqb k k0); [done | by apply IHo].
Qed.

Lemma is_json_without (k : string) (o : Js.object) :
  Js.is_json (Js.Obj o) = true → Js.is_json (Js.Obj (Js.without k o)) = true.
Proof.
  induction o as [|[k0 x] o IHo]; [done |].
  rewrite is_json_cons, andb_true_iff. intros [Hx Ho].
  unfold Js.without in *. cbn [List.filter fst].
  destruct (negb (String.eqb k0 k)); [| by apply IHo].
  by rewrite is_json_cons, Hx, IHo.
Qed.

End JsFacts.

(** ** The [Map] operations *)

Module JsMapFacts.
Section Facts.
Context {V : Type}.
Implicit Types (m : JsMap.t V) (k : string) (v : V).

Lemma get_set_eq m k v : JsMap.get k (JsMap.set k v m) = Some v.
Proof.
  induction m as [|[k' v'] m IH]; simpl.
  - by rewrite String.eqb_refl.
  - destruct (String.eqb_spec k k') as [->|Hne]; simpl.
    + by rewrite String.eqb_refl.
    + destruct (String.eqb_spec k k'); [done | exact IH].
Qed.

Lemma get_set_ne m k k' v : k ≠ k' → JsMap.get k' (JsMap.set k v m) = JsMap.get k' m.
Proof.
  intros Hne. induction m as [|[k0 v0] m IH]; simpl.
  - destruct (String.eqb_spec k' k); [congruence | done].
  - destruct (String.eqb_spec k k0) as [->|Hk]; simpl.
    + destruct (String.eqb_spec k' k0); [congruence | done].
    + destruct (String.eqb_spec k' k0); [done | exact IH].
Qed.

Lemma get_delete_eq m k : JsMap.get k (JsMap.delete k m) = None.
Proof.
  induction m as [|[k' v'] m IH]; simpl; [done |].
  destruct (String.eqb_spec k k') as [->|Hne]; [exact IH |].
  simpl. destruct (String.eqb_spec k k'); [done | exact IH].
Qed.

Lemma get_delete_ne m k k' : k ≠ k' → JsMap.get k' (JsMap.delete k m) = JsMap.get k' m.
Proof.
  intros Hne. induction m as [|[k0 v0] m IH]; simpl; [done |].
  destruct (String.eqb_spec k k0) as [->|Hk]; simpl.
  - destruct (String.eqb_spec k' k0); [congruence | exact IH].
  - destruct (String.eqb_spec k' k0); [done | exact IH].
Qed.

Lemma get_delete_Some m k k' v :
  JsMap.get k' (JsMap.delete k m) = Some v → k ≠ k' ∧ JsMap.get k' m = Some v.
Proof.
  intros H. destruct (decide (k = k')) as [->|Hne].
  - by rewrite get_delete_eq in H.
  - by rewrite get_delete_ne in H.
Qed.

Lemma has_delete m k : JsMap.has k (JsMap.delete k m) = false.
Proof. unfold JsMap.has. by rewrite get_delete_eq. Qed.

Lemma get_None_keys m k : JsMap.get k m = None ↔ k ∉ JsMap.keys m.
Proof.
  induction m as [|[k' v'] m IH]; simpl.
  - split; [intros _ | done]. apply not_elem_of_nil.
  - rewrite not_elem_of_cons.
    destruct (String.eqb_spec k k') as [->|Hne].
    + split; [done | by intros [? _]].
    + rewrite IH. tauto.
Qed.

Lemma delete_absent m k : k ∉ JsMap.keys m → JsMap.delete k m = m.
Proof.
  induction m as [|[k' v'] m IH]; simpl; [done |].
  rewrite not_elem_of_cons. intros [Hne Hm].
  destruct (String.eqb_spec k k'); [done |]. by rewrite IH.
Qed.

Lemma delete_head m k v :
  NoDup (JsMap.keys ((k, v) :: m)) → JsMap.delete k ((k, v) :: m) = m.
Proof.
  simpl. rewrite NoDup_cons, String.eqb_refl. intros [Hk _].
  by apply delete_absent.
Qed.

Lemma keys_delete m k k' : k' ∈ JsMap.keys (JsMap.delete k m) → k' ∈ JsMap.keys m.
Proof.
  induction m as [|[k0 v0] m IH]; simpl; [done |].
  destruct (String.eqb_spec k k0); simpl; rewrite ?elem_of_cons.
  - intros H. right. by apply IH.
  - intros [H|H]; [by left | right; by apply IH].
Qed.

Lemma NoDup_delete m k : NoDup (JsMap.keys m) → NoDup (JsMap.keys (JsMap.delete k m)).
Proof.
  induction m as [|[k0 v0] m IH]; simpl; [done |].
  rewrite NoDup_cons. intros [Hk Hm].
  destruct (String.eqb_spec k k0); simpl; [by apply IH |].
  apply NoDup_cons. split; [| by apply IH].
  intros Hin. apply Hk. by apply keys_delete in Hin.
Qed.

Lemma keys_set m k v k' : k' ∈ JsMap.keys (JsMap.set k v m) → k' = k ∨ k' ∈ JsMap.keys m.
Proof.
  induction m as [|[k0 v0] m IH]; simpl.
  - rewrite list_elem_of_singleton. by left.
  - destruct (String.eqb_spec k k0) as [->|Hne]; simpl; rewrite !elem_of_cons.
    + tauto.
    + intros [H|H]; [tauto | apply IH in H; tauto].
Qed.

Lemma NoDup_set m k v : NoDup (JsMap.keys m) → NoDup (JsMap.keys (JsMap.set k v m)).
Proof.
  induction m as [|[k0 v0] m IH]; simpl.
  - intros _. apply NoDup_singleton.
  - rewrite NoDup_cons. intros [Hk Hm].
    destruct (String.eqb_spec k k0) as [->|Hne]; simpl.
    + by apply NoDup_cons.
    + apply NoDup_cons. split; [| by apply IH].
      intros Hin. apply keys_set in Hin as [->|Hin]; [done | by apply Hk].
Qed.

Lemma size_delete_present m k :
  NoDup (JsMap.keys m) → JsMap.has k m = true →
  S (JsMap.size (JsMap.delete k m)) = JsMap.size m.
Proof.
  unfold JsMap.has, JsMap.size.
  induction m as [|[k0 v0] m IH]; simpl; [done |].
  rewrite NoDup_cons. intros [Hk Hm].
  destruct (String.eqb_spec k k0) as [->|Hne]; simpl.
  - intros _. by rewrite delete_absent.
  - intros H. by rewrite IH.
Qed.

Lemma size_set_absent m k v :
  JsMap.has k m = false → JsMap.size (JsMap.set k v m) = S (JsMap.size m).
Proof.
  unfold JsMap.has, JsMap.size.
  induction m as [|[k0 v0] m IH]; simpl; [done |].
  destruct (String.eqb_spec k k0) as [->|Hne]; simpl; [done |].
  intros H. by rewrite IH.
Qed.

End Facts.
End JsMapFacts.

(** ** The bridge server: promises, timers and the pending table *)

Module BridgeFacts.
Import Bridge.

(** [sendCommand] tests the socket after it has created the promise, which
    does not change what the test reads. *)
Ltac unfold_sendCommand s :=
  unfold sendCommand;
  change (socket_open (set_nextPromise (S (nextPromise s)) s)) with (socket_open s).

Lemma calls_on_settle_eq p o s : calls_on p (settle p o s) = (calls_on p s ++ [o])%list.
Proof.
  unfold calls_on, settle. simpl.
  rewrite List.filter_app, List.map_app. simpl. by rewrite Nat.eqb_refl.
Qed.

Lemma calls_on_settle_ne p q o s : p ≠ q → calls_on q (settle p o s) = calls_on q s.
Proof.
  intros Hne. unfold calls_on, settle. simpl.
  rewrite List.filter_app, List.map_app. simpl.
  destruct (Nat.eqb_spec p q); [done |]. by rewrite app_nil_r.
Qed.

Lemma calls_on_settle_prefix p q o s :
  ∃ more, calls_on q (settle p o s) = (calls_on q s ++ more)%list.
Proof.
  destruct (decide (p = q)) as [->|Hne].
  - exists [o]. apply calls_on_settle_eq.
  - exists []. rewrite app_nil_r. by apply calls_on_settle_ne.
Qed.

Lemma wf_retire s t c o : wf s → timers s !! t = Some c → wf (retire t c o s).
Proof.
  intros W Ht. split.
  - simpl. apply JsMapFacts.NoDup_delete, W.
  - simpl. intros id e He.
    apply JsMapFacts.get_delete_Some in He as [Hne He].
    destruct (wf_entry s W id e He) as (c' & Hc' & Hid & Hp).
    exists c'. split; [| done].
    rewrite lookup_delete_ne; [done |]. intros ->. congruence.
  - simpl. intros t' c' Hc'.
    apply lookup_delete_Some in Hc' as [Hne Hc'].
    destruct (wf_timer s W t' c' Hc') as (Hlt & Hp & Hcalls).
    split; [done |]. split; [done |].
    unfold retire. rewrite calls_on_settle_ne; [exact Hcalls |].
    intros Heq. apply Hne. by eapply (wf_timer_inj s W).
  - simpl. intros t1 t2 c1 c2 H1 H2.
    apply lookup_delete_Some in H1 as [_ H1].
    apply lookup_delete_Some in H2 as [_ H2].
    by eapply (wf_timer_inj s W).
  - intros p. unfold retire. destruct (decide (t_promise c = p)) as [<-|Hne].
    + rewrite calls_on_settle_eq.
      destruct (wf_timer s W t c Ht) as (_ & _ & Hcalls).
      change (calls_on (t_promise c) (set_pendingCommands _ (clearTimeout t s)))
        with (calls_on (t_promise c) s).
      by rewrite Hcalls.
    + rewrite calls_on_settle_ne by done. apply (wf_once s W).
  - intros p Hp. unfold retire. simpl in Hp.
    destruct (wf_timer s W t c Ht) as (_ & Hlt & _).
    rewrite calls_on_settle_ne by lia. by apply (wf_unborn s W).
Qed.

Lemma wf_init : wf init.
Proof. split; simpl; try done; [apply NoDup_nil_2 | intros; lia]. Qed.

(** Fields the invariant does not read *)
Lemma wf_set_readyState x s : wf s → wf (set_readyState x s).
Proof. intros []. by split. Qed.
Lemma wf_set_extensionSocket x s : wf s → wf (set_extensionSocket x s).
Proof. intros []. by split. Qed.
Lemma wf_set_now x s : wf s → wf (set_now x s).
Proof. intros []. by split. Qed.
Lemma wf_set_sent x s : wf s → wf (set_sent x s).
Proof. intros []. by split. Qed.
Lemma wf_set_crashed x s : wf s → wf (set_crashed x s).
Proof. intros []. by split. Qed.

Create HintDb bridge_wf.
#[local] Hint Resolve wf_set_readyState wf_set_extensionSocket wf_set_now
  wf_set_sent wf_set_crashed : bridge_wf.

Lemma on_response_retire msg s id e c :
  Js.get "id" msg = Js.Str id → id ≠ "" →
  JsMap.get id (pendingCommands s) = Some e →
  timers s !! timer e = Some c → t_id c = id → t_promise c = promise e →
  on_response msg s =
  retire (timer e) c
    (if Js.truthy (Js.get "success" msg) then Resolved (Js.get "data" msg)
     else Rejected (Js.to_string
                      (if Js.truthy (Js.get "error" msg) then Js.get "error" msg
                       else Js.Str "Extension command failed"))) s.
Proof.
  intros Hid Hne He Hc <- Hp. unfold on_response, retire.
  rewrite Hid. simpl. destruct (String.eqb_spec (t_id c) ""); [done |]. simpl.
  rewrite He, Hp. by destruct (Js.truthy (Js.get "success" msg)).
Qed.

Lemma wf_on_response msg s : wf s → wf (on_response msg s).
Proof.
  intros W. unfold on_response.
  destruct (Js.get "id" msg) as [| | | |id| |] eqn:Hid; try done.
  destruct (Js.truthy (Js.Str id)) eqn:Htr; [| done].
  destruct (JsMap.get id (pendingCommands s)) as [e|] eqn:He; [| done].
  destruct (wf_entry s W id e He) as (c & Hc & Hcid & Hp).
  assert (id ≠ "") as Hne.
  { intros ->. simpl in Htr. done. }
  pose proof (on_response_retire msg s id e c Hid Hne He Hc Hcid Hp) as Heq.
  unfold on_response in Heq. rewrite Hid, Htr, He in Heq. rewrite Heq.
  by apply wf_retire.
Qed.

Lemma wf_on_message raw s : wf s → wf (on_message raw s).
Proof.
  intros W. destruct raw as [|msg]; [done |].
  assert (∀ o, wf (on_object o s)) as Hobj.
  { intros o. unfold on_object.
    destruct (Js.is_string "ping" _); [done |].
    destruct (Js.is_string "extension_ready" _); [done |].
    by apply wf_on_response. }
  destruct msg; simpl; auto with bridge_wf.
Qed.

(** One turn of the close loop is a [retire]. *)
Lemma reject_each_cons message id e rest s c :
  timers s !! timer e = Some c → t_id c = id → t_promise c = promise e →
  reject_each message ((id, e) :: rest) s =
  reject_each message rest (retire (timer e) c (Rejected message) s).
Proof. intros _ <- Hp. unfold retire. rewrite Hp. reflexivity. Qed.

Lemma wf_reject_each message entries s :
  wf s → pendingCommands s = entries →
  wf (reject_each message entries s)
  ∧ pendingCommands (reject_each message entries s) = [].
Proof.
  revert s. induction entries as [|[id e] rest IH]; intros s W Hs; [done |].
  destruct (wf_entry s W id e) as (c & Hc & Hid & Hp).
  { rewrite Hs. simpl. by rewrite String.eqb_refl. }
  rewrite (reject_each_cons message id e rest s c Hc Hid Hp).
  apply IH; [by apply wf_retire |].
  simpl. rewrite Hs, Hid. apply JsMapFacts.delete_head.
  rewrite <- Hs. apply W.
Qed.

Lemma wf_on_close sock s : wf s → wf (on_close sock s).
Proof.
  intros W. unfold on_close.
  set (s1 := match extensionSocket _ with Some _ => _ | None => _ end).
  assert (wf s1) as W1.
  { subst s1. simpl. destruct (extensionSocket s) as [cur|]; simpl.
    - destruct (Nat.eqb cur sock); auto with bridge_wf.
    - auto with bridge_wf. }
  by apply wf_reject_each.
Qed.

Lemma wf_sendCommand id action params s : wf s → wf (fst (sendCommand id action params s)).
Proof.
  intros W. unfold_sendCommand s.
  destruct (socket_open s) eqn:Hopen; simpl.
  - assert (∃ sock, extensionSocket s = Some sock) as [sock Hsock].
    { unfold socket_open in Hopen. destruct (extensionSocket s); [eauto | done]. }
    rewrite Hsock. simpl. apply wf_set_sent. split; simpl.
    + apply JsMapFacts.NoDup_set, W.
    + intros id' e He. destruct (decide (id = id')) as [<-|Hne].
      * rewrite JsMapFacts.get_set_eq in He. injection He as <-. simpl.
        rewrite lookup_insert_eq. eauto.
      * rewrite JsMapFacts.get_set_ne in He by done.
        destruct (wf_entry s W id' e He) as (c & Hc & ?).
        exists c. split; [| done].
        rewrite lookup_insert_ne; [done |].
        destruct (wf_timer s W _ _ Hc) as (Hlt & _). lia.
    + intros t c Hc. apply lookup_insert_Some in Hc as [[<- <-]|[Hne Hc]]; simpl.
      * split; [lia |]. split; [lia |]. apply (wf_unborn s W). lia.
      * destruct (wf_timer s W t c Hc) as (? & ? & ?).
        split; [lia |]. split; [lia | done].
    + intros t1 t2 c1 c2 H1 H2 Heq.
      apply lookup_insert_Some in H1 as [[<- <-]|[Hne1 H1]];
        apply lookup_insert_Some in H2 as [[<- <-]|[Hne2 H2]]; simpl in *.
      * done.
      * destruct (wf_timer s W _ _ H2) as (_ & ? & _). lia.
      * destruct (wf_timer s W _ _ H1) as (_ & ? & _). lia.
      * by eapply (wf_timer_inj s W).
    + apply (wf_once s W).
    + intros p Hp. apply (wf_unborn s W). lia.
  - split; simpl.
    + apply W.
    + apply (wf_entry s W).
    + intros t c Hc. destruct (wf_timer s W t c Hc) as (? & ? & Hcalls).
      split; [done |]. split; [lia |].
      rewrite calls_on_settle_ne by lia. exact Hcalls.
    + apply (wf_timer_inj s W).
    + intros p. destruct (decide (nextPromise s = p)) as [<-|Hne].
      * rewrite calls_on_settle_eq.
        change (calls_on (nextPromise s) (set_nextPromise _ s))
          with (calls_on (nextPromise s) s).
        rewrite (wf_unborn s W) by lia. simpl. lia.
      * rewrite calls_on_settle_ne by done. apply (wf_once s W).
    + intros p Hp. rewrite calls_on_settle_ne by lia. apply (wf_unborn s W). lia.
Qed.

Lemma timer_fire_retire t c s :
  timers s !! t = Some c → (t_due c <= now s)%Z →
  timer_fire t s =
  retire t c (Rejected ("Command timed out after "
                        ++ Js.string_of_Z (COMMAND_TIMEOUT_MS / 1000) ++ "s: "
                        ++ Js.to_string (t_action c))) s.
Proof.
  intros Hc Hdue. unfold timer_fire. rewrite Hc.
  destruct (Z.leb_spec (t_due c) (now s)); [reflexivity | lia].
Qed.

Lemma wf_timer_fire t s : wf s → wf (timer_fire t s).
Proof.
  intros W. unfold timer_fire.
  destruct (timers s !! t) as [c|] eqn:Hc; [| done].
  destruct (Z.leb_spec (t_due c) (now s)) as [Hdue|]; [| done].
  pose proof (timer_fire_retire t c s Hc Hdue) as Heq.
  unfold timer_fire in Heq. rewrite Hc in Heq.
  destruct (Z.leb_spec (t_due c) (now s)); [| lia].
  rewrite Heq. by apply wf_retire.
Qed.

Lemma wf_step s e : wf s → wf (step s e).
Proof.
  intros W. unfold step. destruct (crashed s); [done |].
  destruct e; simpl.
  - unfold on_connection. by apply wf_set_extensionSocket, wf_set_readyState.
  - by apply wf_on_message.
  - by apply wf_on_close.
  - done.
  - by apply wf_set_readyState.
  - by apply wf_sendCommand.
  - by apply wf_timer_fire.
  - by apply wf_set_now.
Qed.

Lemma wf_run tr s : wf s → wf (run s tr).
Proof.
  revert s. induction tr as [|e tr IH]; intros s W; [done |].
  simpl. apply IH. by apply wf_step.
Qed.

Lemma wf_reachable s : reachable s → wf s.
Proof. intros [tr <-]. apply wf_run, wf_init. Qed.


(** *** A command that is waiting stays so until something concerns it *)

Lemma fresh_spec id s :
  fresh id s = true →
  JsMap.get id (pendingCommands s) = None
  ∧ ∀ t c, timers s !! t = Some c → t_id c ≠ id.
Proof.
  unfold fresh, JsMap.has. rewrite andb_true_iff, forallb_forall.
  intros [Hhas Hall]. split.
  - by destruct (JsMap.get id (pendingCommands s)).
  - intros t c Hc Heq.
    specialize (Hall (t, c)). simpl in Hall.
    rewrite <- list_elem_of_In, elem_of_map_to_list in Hall.
    specialize (Hall Hc). rewrite Heq, String.eqb_refl in Hall. done.
Qed.

Lemma crashed_run tr s : crashed s = true → run s tr = s.
Proof.
  intros Hc. induction tr as [|e tr IH]; [done |].
  simpl. assert (step s e = s) as -> by (unfold step; by rewrite Hc). exact IH.
Qed.

Lemma running_before tr s : crashed (run s tr) = false → crashed s = false.
Proof.
  intros H. destruct (crashed s) eqn:Hc; [| done].
  by rewrite crashed_run, Hc in H.
Qed.

Lemma now_reject_each message entries s :
  now (reject_each message entries s) = now s.
Proof.
  revert s. induction entries as [|[id e] rest IH]; intros s; [done |].
  simpl. by rewrite IH.
Qed.

Lemma now_on_message raw s : now (on_message raw s) = now s.
Proof.
  assert (∀ o, now (on_response o s) = now s) as Hresp.
  { intros o. unfold on_response.
    destruct (Js.get "id" o); try done.
    destruct (Js.truthy _); [| done].
    destruct (JsMap.get _ _); [| done].
    by destruct (Js.truthy _). }
  assert (∀ o, now (on_object o s) = now s) as Hobj.
  { intros o. unfold on_object. by repeat destruct (Js.is_string _ _). }
  destruct raw as [|[]]; simpl; auto.
Qed.

Lemma now_step s e : (now s <= now (step s e))%Z.
Proof.
  unfold step, on_error. destruct (crashed s); [lia |].
  destruct e; simpl; try lia.
  - rewrite now_on_message. lia.
  - unfold on_close. rewrite now_reject_each. simpl.
    destruct (extensionSocket s) as [cur|]; simpl; [| lia].
    destruct (Nat.eqb cur sock); simpl; lia.
  - unfold_sendCommand s.
    destruct (socket_open s); simpl; [| lia].
    destruct (extensionSocket s); simpl; lia.
  - unfold timer_fire. destruct (timers s !! t); [| lia].
    destruct (Z.leb _ _); simpl; lia.
Qed.

Lemma now_run tr s : (now s <= now (run s tr))%Z.
Proof.
  revert s. induction tr as [|e tr IH]; intros s; simpl; [lia |].
  pose proof (now_step s e). pose proof (IH (step s e)). lia.
Qed.

Lemma awaiting_retire id p t due t' c' o s :
  wf s → awaiting id p t due s →
  timers s !! t' = Some c' → t_id c' ≠ id →
  awaiting id p t due (retire t' c' o s).
Proof.
  intros W (Hrun & He & (c & Hc & Hid & Hp & Hdue) & Huniq & Hcalls) Hc' Hne.
  assert (t' ≠ t) as Htt by (intros ->; congruence).
  split; [done |]. split; [| split; [| split]].
  - simpl. by rewrite JsMapFacts.get_delete_ne.
  - exists c. simpl. by rewrite lookup_delete_ne.
  - simpl. intros t0 c0 H0. apply lookup_delete_Some in H0 as [_ H0]. eauto.
  - unfold retire. rewrite calls_on_settle_ne; [done |].
    intros Heq. apply Htt. eapply (wf_timer_inj s W); eauto. congruence.
Qed.

Lemma awaiting_step id p t due s e :
  wf s → awaiting id p t due s →
  touches id e = false → crashed (step s e) = false → (now s < due)%Z →
  awaiting id p t due (step s e).
Proof.
  intros W A Hq Hrun Hnow.
  pose proof A as (Hrun0 & He & (c & Hc & Hid & Hp & Hdue) & Huniq & Hcalls).
  unfold step in *. rewrite Hrun0 in *.
  destruct e as [sock|sock raw|sock|sock|sock rs|id' action params|t'|dt];
    simpl in Hq; try done.
  - (* a frame *)
    assert (∀ o, Js.is_string id (Js.get "id" o) = false →
                 awaiting id p t due (on_object o s)) as Hobj.
    { intros o Ho. unfold on_object.
      destruct (Js.is_string "ping" _); [done |].
      destruct (Js.is_string "extension_ready" _); [done |].
      unfold on_response.
      destruct (Js.get "id" o) as [| | | |id'| |] eqn:Hid'; try done.
      destruct (Js.truthy (Js.Str id')) eqn:Htr; [| done].
      destruct (JsMap.get id' (pendingCommands s)) as [e'|] eqn:He'; [| done].
      destruct (wf_entry s W id' e' He') as (c' & Hc' & Hcid & Hcp).
      assert (id' ≠ "") as Hne by (intros ->; done).
      pose proof (on_response_retire o s id' e' c' Hid' Hne He' Hc' Hcid Hcp) as Heq.
      unfold on_response in Heq. rewrite Hid', Htr, He' in Heq. rewrite Heq.
      apply awaiting_retire; try done.
      rewrite Hcid. intros ->. simpl in Ho. by rewrite String.eqb_refl in Ho. }
    destruct raw as [|[]]; simpl in *; try done; by apply Hobj.
  - (* another command is sent *)
    apply String.eqb_neq in Hq.
    unfold_sendCommand s.
    destruct (wf_timer s W t c Hc) as (Hlt & Hplt & _).
    destruct (socket_open s) eqn:Hopen; simpl.
    + assert (∃ sock, extensionSocket s = Some sock) as [sock Hsock].
      { unfold socket_open in Hopen. destruct (extensionSocket s); [eauto | done]. }
      rewrite Hsock. simpl.
      split; [done |]. split; [| split; [| split]]; simpl.
      * by rewrite JsMapFacts.get_set_ne.
      * exists c. rewrite lookup_insert_ne by lia. done.
      * intros t0 c0 H0. apply lookup_insert_Some in H0 as [[<- <-]|[_ H0]]; [done |].
        eauto.
      * done.
    + split; [done |]. split; [done |]. split; [eauto |]. split; [done |].
      rewrite calls_on_settle_ne by lia. done.
  - (* a timer fires *)
    unfold timer_fire. destruct (timers s !! t') as [c'|] eqn:Hc'; [| done].
    destruct (Z.leb_spec (t_due c') (now s)) as [Hd|]; [| done].
    pose proof (timer_fire_retire t' c' s Hc' Hd) as Heq.
    unfold timer_fire in Heq. rewrite Hc' in Heq.
    destruct (Z.leb_spec (t_due c') (now s)); [| lia].
    rewrite Heq. apply awaiting_retire; try done.
    intros Hcid. assert (t' = t) as -> by eauto.
    assert (c' = c) as -> by congruence. lia.
Qed.

Lemma awaiting_run id p t due tr s :
  wf s → awaiting id p t due s →
  forallb (fun e => negb (touches id e)) tr = true →
  crashed (run s tr) = false → (now (run s tr) < due)%Z →
  awaiting id p t due (run s tr).
Proof.
  revert s. induction tr as [|e tr IH]; intros s W A Hq Hrun Hnow; [done |].
  simpl in *. apply andb_true_iff in Hq as [Hq Hqs].
  apply negb_true_iff in Hq.
  pose proof (now_run tr (step s e)).
  apply IH; try done.
  - by apply wf_step.
  - apply awaiting_step; try done.
    + by apply running_before in Hrun.
    + pose proof (now_step s e). lia.
Qed.

(** [sendCommand] on an open socket parks the caller. *)
Lemma sendCommand_awaiting id action params s :
  wf s → socket_open s = true → crashed s = false → fresh id s = true →
  awaiting id (nextPromise s) (nextTimer s) (now s + COMMAND_TIMEOUT_MS)
    (fst (sendCommand id action params s))
  ∧ snd (sendCommand id action params s) = nextPromise s.
Proof.
  intros W Hopen Hrun Hfresh.
  apply fresh_spec in Hfresh as [Hnone Hothers].
  unfold_sendCommand s.
  rewrite Hopen. simpl.
  assert (∃ sock, extensionSocket s = Some sock) as [sock Hsock].
  { unfold socket_open in Hopen. destruct (extensionSocket s); [eauto | done]. }
  rewrite Hsock. simpl. split; [| done].
  split; [done |]. split; [| split; [| split]]; simpl.
  - by rewrite JsMapFacts.get_set_eq.
  - eexists. rewrite lookup_insert_eq. done.
  - intros t0 c0 H0. apply lookup_insert_Some in H0 as [[<- <-]|[_ H0]]; [done |].
    intros Heq. by apply Hothers in H0.
  - apply (wf_unborn s W). lia.
Qed.

(** A reply for a waiting command settles its promise, once. *)
Lemma awaiting_reply id p t due msg s :
  wf s → awaiting id p t due s → id ≠ "" → reply_to id msg = true →
  let o := if Js.truthy (Js.get "success" msg) then Resolved (Js.get "data" msg)
           else Rejected (Js.to_string
                            (if Js.truthy (Js.get "error" msg) then Js.get "error" msg
                             else Js.Str "Extension command failed")) in
  let s' := on_message (Parsed (Js.Obj msg)) s in
  calls_on p s' = [o]
  ∧ JsMap.has id (pendingCommands s') = false
  ∧ (∀ t' c', timers s' !! t' = Some c' → t_id c' ≠ id)
  ∧ S (JsMap.size (pendingCommands s')) = JsMap.size (pendingCommands s).
Proof.
  intros W (Hrun & He & (c & Hc & Hid & Hp & Hdue) & Huniq & Hcalls) Hne Hr o s'.
  unfold reply_to in Hr. rewrite !andb_true_iff, !negb_true_iff in Hr.
  destruct Hr as [[Hmid Hping] Hready].
  assert (Js.get "id" msg = Js.Str id) as Hmid'.
  { unfold Js.is_string in Hmid. destruct (Js.get "id" msg); try done.
    by apply String.eqb_eq in Hmid as ->. }
  assert (s' = retire t c o s) as ->.
  { subst s'. simpl. unfold on_object. rewrite Hping, Hready.
    by rewrite (on_response_retire msg s id _ c Hmid' Hne He Hc Hid Hp). }
  split; [| split; [| split]].
  - unfold retire. rewrite <- Hp, calls_on_settle_eq.
    change (calls_on (t_promise c) (set_pendingCommands _ (clearTimeout t s)))
      with (calls_on (t_promise c) s).
    by rewrite Hp, Hcalls.
  - simpl. rewrite Hid. apply JsMapFacts.has_delete.
  - simpl. intros t' c' Hc' Heq.
    apply lookup_delete_Some in Hc' as [Hne' Hc']. apply Hne'. symmetry. eauto.
  - simpl. rewrite Hid. apply JsMapFacts.size_delete_present; [apply W |].
    unfold JsMap.has. by rewrite He.
Qed.


(** *** The log of settlements only grows *)

Lemma settlements_reject_each message entries s :
  settlements (reject_each message entries s)
  = (settlements s ++ List.map (fun ie => (promise (snd ie), Rejected message)) entries)%list.
Proof.
  revert s. induction entries as [|[id e] rest IH]; intros s; simpl.
  - by rewrite app_nil_r.
  - rewrite IH. simpl. by rewrite <- app_assoc.
Qed.

Lemma settlements_step s e : ∃ more, settlements (step s e) = (settlements s ++ more)%list.
Proof.
  assert (∃ more, settlements s = (settlements s ++ more)%list) as Hsame.
  { exists []. by rewrite app_nil_r. }
  unfold step. destruct (crashed s); [done |].
  destruct e as [sock|sock raw|sock|sock|sock rs|id action params|t|dt]; simpl; try done.
  - assert (∀ o, ∃ more, settlements (on_object o s) = (settlements s ++ more)%list) as Hobj.
    { intros o. unfold on_object. repeat (destruct (Js.is_string _ _); [done |]).
      unfold on_response. destruct (Js.get "id" o); try done.
      destruct (Js.truthy _); [| done].
      destruct (JsMap.get _ _); [| done].
      destruct (Js.truthy _); simpl; eauto. }
    destruct raw as [|[]]; simpl; auto.
  - unfold on_close. rewrite settlements_reject_each. simpl.
    destruct (extensionSocket s) as [cur|]; simpl; [| eauto].
    destruct (Nat.eqb cur sock); simpl; eauto.
  - unfold_sendCommand s.
    destruct (socket_open s); simpl; [| eauto].
    destruct (extensionSocket s); simpl; done.
  - unfold timer_fire. destruct (timers s !! t); [| done].
    destruct (Z.leb _ _); simpl; eauto.
Qed.

Lemma calls_on_step p s e : ∃ more, calls_on p (step s e) = (calls_on p s ++ more)%list.
Proof.
  destruct (settlements_step s e) as [more Hmore].
  unfold calls_on. rewrite Hmore, List.filter_app, List.map_app. eauto.
Qed.

Lemma calls_on_run p tr s : ∃ more, calls_on p (run s tr) = (calls_on p s ++ more)%list.
Proof.
  revert s. induction tr as [|e tr IH]; intros s; simpl.
  - exists []. by rewrite app_nil_r.
  - destruct (IH (step s e)) as [m1 H1]. destruct (calls_on_step p s e) as [m2 H2].
    exists (m2 ++ m1)%list. by rewrite H1, H2, <- app_assoc.
Qed.

(** Once a promise of a reachable state is settled, no later event calls
    it again. *)
Lemma settled_forever p o tr s :
  wf s → calls_on p s = [o] → calls_on p (run s tr) = [o].
Proof.
  intros W Hp. destruct (calls_on_run p tr s) as [more Hmore].
  pose proof (wf_once _ (wf_run tr s W) p) as Hlen.
  rewrite Hmore, Hp in Hlen |- *. destruct more; [done |]. simpl in Hlen. lia.
Qed.

(** *** The close loop *)

Lemma timers_reject_each_None message entries s t :
  timers s !! t = None → timers (reject_each message entries s) !! t = None.
Proof.
  revert s. induction entries as [|[id e] rest IH]; intros s Ht; [done |].
  simpl. apply IH. simpl. apply lookup_delete_None. by right.
Qed.

Lemma reject_each_settles message entries s :
  wf s → pendingCommands s = entries →
  ∀ id e, JsMap.get id entries = Some e →
    calls_on (promise e) (reject_each message entries s) = [Rejected message]
    ∧ timers (reject_each message entries s) !! timer e = None.
Proof.
  revert s. induction entries as [|[id0 e0] rest IH]; intros s W Hs id e He; [done |].
  destruct (wf_entry s W id0 e0) as (c & Hc & Hid & Hp).
  { rewrite Hs. simpl. by rewrite String.eqb_refl. }
  rewrite (reject_each_cons message id0 e0 rest s c Hc Hid Hp).
  assert (wf (retire (timer e0) c (Rejected message) s)) as W' by by apply wf_retire.
  assert (pendingCommands (retire (timer e0) c (Rejected message) s) = rest) as Hs'.
  { simpl. rewrite Hs, Hid. apply JsMapFacts.delete_head. rewrite <- Hs. apply W. }
  simpl in He. destruct (String.eqb_spec id id0) as [->|Hne].
  - injection He as <-.
    destruct (wf_timer s W _ _ Hc) as (_ & _ & Hcalls).
    assert (calls_on (promise e0) (retire (timer e0) c (Rejected message) s)
            = [Rejected message]) as Hnow.
    { unfold retire. rewrite <- Hp, calls_on_settle_eq.
      change (calls_on (t_promise c) (set_pendingCommands _ (clearTimeout (timer e0) s)))
        with (calls_on (t_promise c) s).
      by rewrite Hcalls. }
    split.
    + destruct (wf_reject_each message rest _ W' Hs') as [Wend _].
      pose proof (wf_once _ Wend (promise e0)) as Hlen.
      assert (∃ more, calls_on (promise e0)
                        (reject_each message rest (retire (timer e0) c (Rejected message) s))
                      = (calls_on (promise e0) (retire (timer e0) c (Rejected message) s)
                         ++ more)%list) as [more Hmore].
      { unfold calls_on. rewrite settlements_reject_each, List.filter_app, List.map_app.
        eauto. }
      rewrite Hmore, Hnow in Hlen |- *. destruct more; [done |]. simpl in Hlen. lia.
    + apply timers_reject_each_None. simpl. apply lookup_delete_None. by left.
  - exact (IH _ W' Hs' id e He).
Qed.

End BridgeFacts.

(** ** The relay: what callers of [sendCommand] observe *)

Module BridgeSpec.
Import Bridge BridgeFacts.

(** C1 as stated fails.  The close handler rejects every pending command,
    whichever socket closes: the test [extensionSocket === socket] guards
    only the nulling of the variable.  The extension has connected twice,
    so that socket 2 has replaced socket 1; a command is sent over socket
    2, the replaced socket 1 closes, and the reply of the command arrives
    over socket 2, half a second after the command was sent.  The peer was
    connected and open all along, and yet the caller is rejected with
    [Extension disconnected] instead of being resolved with the data of
    the reply. *)
Lemma close_of_replaced_socket_rejects_replied_command :
  let s := run init [Connection 1%nat; Connection 2%nat] in
  let r := sendCommand "u-1" (Js.Str "get_title") [] s in
  let data := Js.Obj [("title", Js.Str "Example Domain")] in
  let msg := [("id", Js.Str "u-1"); ("success", Js.Bool true); ("data", data)] in
  let s2 := run (fst r) [Elapse 500%N; Close 1%nat] in
  let s3 := step s2 (Message 2%nat (Parsed (Js.Obj msg))) in
  sent (fst r) = [(2%nat, Js.Obj [("id", Js.Str "u-1"); ("action", Js.Str "get_title")])]
  ∧ extensionSocket s2 = Some 2%nat
  ∧ socket_open s2 = true
  ∧ reply_to "u-1" msg = true
  ∧ (now s3 < now s + COMMAND_TIMEOUT_MS)%Z
  ∧ outcome (snd r) s3 = Some (Rejected "Extension disconnected")
  ∧ outcome (snd r) s3 ≠ Some (Resolved data).
Proof. vm_compute. repeat split; congruence. Qed.

(** C1, amended.  A command is submitted while the peer is connected; its
    reply frame (the command's correlation id, a true [success]) arrives
    before the deadline, and between the submission and the reply no
    connection of the extension has closed, current or replaced, and no
    other frame or submission has carried that id.  Then the promise of
    [sendCommand] is resolved with exactly the [data] field of the reply,
    by the only call ever made on it, and afterwards the table has no entry
    for the id (it has one entry less) and no timer for the id is armed. *)
Theorem sendCommand_resolves_with_reply_data
    (s : State) (id : string) (action : Js.value) (params : Js.object)
    (tr : list Event) (sock : nat) (msg : Js.object) :
  reachable s →
  socket_open s = true →
  Js.truthy (Js.Str id) = true →
  fresh id s = true →
  forallb (fun e => negb (touches id e)) tr = true →
  crashed (run (fst (sendCommand id action params s)) tr) = false →
  (now (run (fst (sendCommand id action params s)) tr)
   < now s + COMMAND_TIMEOUT_MS)%Z →
  reply_to id msg = true →
  Js.get "success" msg = Js.Bool true →
  let p := snd (sendCommand id action params s) in
  let s2 := run (fst (sendCommand id action params s)) tr in
  let s3 := step s2 (Message sock (Parsed (Js.Obj msg))) in
  outcome p s3 = Some (Resolved (Js.get "data" msg))
  ∧ calls_on p s3 = [Resolved (Js.get "data" msg)]
  ∧ JsMap.has id (pendingCommands s3) = false
  ∧ S (JsMap.size (pendingCommands s3)) = JsMap.size (pendingCommands s2)
  ∧ (∀ t c, timers s3 !! t = Some c → t_id c ≠ id).
Proof.
  intros Hreach Hopen Hid Hfresh Hquiet Hrun Hnow Hreply Hsucc p s2 s3.
  pose proof (wf_reachable s Hreach) as W.
  assert (crashed s = false) as Hrun0.
  { apply running_before in Hrun. revert Hrun. unfold_sendCommand s.
    rewrite Hopen. simpl. by destruct (extensionSocket s). }
  destruct (sendCommand_awaiting id action params s W Hopen Hrun0 Hfresh) as [A Hp].
  assert (awaiting id p (nextTimer s) (now s + COMMAND_TIMEOUT_MS) s2) as A2.
  { subst p s2. rewrite Hp. apply awaiting_run; try done. by apply wf_sendCommand. }
  assert (wf s2) as W2 by (apply wf_run; by apply wf_sendCommand).
  assert (id ≠ "") as Hne by (intros ->; done).
  destruct (awaiting_reply id p _ _ msg s2 W2 A2 Hne Hreply) as (Hcalls & Hhas & Htm & Hsz).
  rewrite Hsucc in Hcalls. cbn [Js.truthy] in Hcalls.
  assert (s3 = on_message (Parsed (Js.Obj msg)) s2) as ->.
  { subst s3. unfold step. fold s2 in Hrun. by rewrite Hrun. }
  unfold outcome. rewrite Hcalls. done.
Qed.

Lemma sendCommand_resolves_with_reply_data_witness :
  let s := run init [Connection 7%nat] in
  let tr := [Elapse 1200%N;
             SendCommand "u-2" (Js.Str "get_title") [];
             Message 7%nat (Parsed (Js.Obj [("type", Js.Str "ping")]));
             Elapse 800%N] in
  let msg := [("id", Js.Str "u-1"); ("success", Js.Bool true);
              ("data", Js.Obj [("clicked", Js.Str "#go")])] in
  let s3 := step (run (fst (sendCommand "u-1" (Js.Str "click")
                              [("selector", Js.Str "#go")] s)) tr)
              (Message 7%nat (Parsed (Js.Obj msg))) in
  outcome 0%nat s3 = Some (Resolved (Js.Obj [("clicked", Js.Str "#go")]))
  ∧ JsMap.has "u-1" (pendingCommands s3) = false.
Proof.
  intros s tr msg s3.
  pose proof (sendCommand_resolves_with_reply_data s "u-1" (Js.Str "click")
                [("selector", Js.Str "#go")] tr 7%nat msg
                (ex_intro _ [Connection 7%nat] eq_refl)
                eq_refl eq_refl eq_refl eq_refl eq_refl eq_refl eq_refl eq_refl)
    as (Hout & _ & Hhas & _).
  split; [exact Hout | exact Hhas].
Defined.

(** C2.  When the peer connection closes, every pending command is
    rejected with the error [Extension disconnected] (the only call ever
    made on its promise), its timer is disarmed, and the table is empty
    right afterwards; the handler settles as many promises as there were
    entries. *)
Theorem close_rejects_every_pending_command (s : State) (sock : nat) :
  reachable s →
  let s' := on_close sock s in
  pendingCommands s' = []
  ∧ (∀ id e, JsMap.get id (pendingCommands s) = Some e →
       outcome (promise e) s' = Some (Rejected "Extension disconnected")
       ∧ calls_on (promise e) s' = [Rejected "Extension disconnected"]
       ∧ timers s' !! timer e = None)
  ∧ length (settlements s')
    = (length (settlements s) + JsMap.size (pendingCommands s))%nat.
Proof.
  intros Hreach s'. pose proof (wf_reachable s Hreach) as W.
  subst s'. unfold on_close.
  set (s1 := match extensionSocket _ with Some _ => _ | None => _ end).
  assert (wf s1 ∧ pendingCommands s1 = pendingCommands s
          ∧ settlements s1 = settlements s) as (W1 & Hpend & Hsett).
  { subst s1. simpl. destruct (extensionSocket s) as [cur|]; simpl.
    - destruct (Nat.eqb cur sock); simpl;
        auto using wf_set_extensionSocket, wf_set_readyState.
    - auto using wf_set_readyState. }
  split; [| split].
  - by apply wf_reject_each.
  - intros id e He. rewrite <- Hpend in He.
    destruct (reject_each_settles "Extension disconnected" _ s1 W1 eq_refl id e He)
      as [Hcalls Htimer].
    unfold outcome. by rewrite Hcalls.
  - rewrite settlements_reject_each, length_app, length_map, Hsett, Hpend. done.
Qed.

Lemma close_rejects_every_pending_command_witness :
  let s := run init [Connection 1%nat;
                     SendCommand "a" (Js.Str "click") [("selector", Js.Str "#x")];
                     Elapse 5%N;
                     SendCommand "b" (Js.Str "get_title") []] in
  pendingCommands (on_close 1%nat s) = []
  ∧ outcome 0%nat (on_close 1%nat s) = Some (Rejected "Extension disconnected")
  ∧ outcome 1%nat (on_close 1%nat s) = Some (Rejected "Extension disconnected").
Proof.
  intros s.
  pose proof (close_rejects_every_pending_command s 1%nat (ex_intro _ _ eq_refl))
    as (Hempty & Hall & _).
  split; [exact Hempty |]. split.
  - exact (proj1 (Hall "a" {| promise := 0; timer := 0 |} eq_refl)).
  - exact (proj1 (Hall "b" {| promise := 1; timer := 1 |} eq_refl)).
Defined.

(** C3.  A submission made while there is no open peer connection
    ([extensionSocket] is [null] or its state is not [OPEN]) is rejected
    within the call, with the error [Chrome extension is not connected]; no
    timer is created, the table is unchanged and nothing is sent. *)
Theorem sendCommand_without_peer_rejects
    (s : State) (id : string) (action : Js.value) (params : Js.object) :
  reachable s →
  socket_open s = false →
  let s' := fst (sendCommand id action params s) in
  let p := snd (sendCommand id action params s) in
  outcome p s' = Some (Rejected "Chrome extension is not connected")
  ∧ calls_on p s' = [Rejected "Chrome extension is not connected"]
  ∧ timers s' = timers s
  ∧ nextTimer s' = nextTimer s
  ∧ pendingCommands s' = pendingCommands s
  ∧ sent s' = sent s.
Proof.
  intros Hreach Hclosed s' p. pose proof (wf_reachable s Hreach) as W.
  subst s' p. unfold_sendCommand s.
  rewrite Hclosed. simpl.
  assert (calls_on (nextPromise s)
            (settle (nextPromise s) (Rejected "Chrome extension is not connected")
               (set_nextPromise (S (nextPromise s)) s))
          = [Rejected "Chrome extension is not connected"]) as Hcalls.
  { rewrite calls_on_settle_eq.
    change (calls_on (nextPromise s) (set_nextPromise _ s))
      with (calls_on (nextPromise s) s).
    by rewrite (wf_unborn s W). }
  unfold outcome. rewrite Hcalls. done.
Qed.

Lemma sendCommand_without_peer_rejects_witness :
  let s := run init [Connection 1%nat; ReadyStateChange 1%nat CLOSING] in
  let r := sendCommand "u-1" (Js.Str "scrape") [] s in
  outcome (snd r) (fst r) = Some (Rejected "Chrome extension is not connected")
  ∧ timers (fst r) = timers s
  ∧ pendingCommands (fst r) = pendingCommands s.
Proof.
  intros s r.
  pose proof (sendCommand_without_peer_rejects s "u-1" (Js.Str "scrape") []
                (ex_intro _ _ eq_refl) eq_refl)
    as (Hout & _ & Htimers & _ & Hpend & _).
  split; [exact Hout |]. split; [exact Htimers | exact Hpend].
Defined.

(** A frame without a matching id leaves the whole state as it is. *)
Lemma unmatched_frame_ignored (s : State) (sock : nat) (msg : Js.object) :
  unmatched msg s = true → step s (Message sock (Parsed (Js.Obj msg))) = s.
Proof.
  intros Hun. unfold step. destruct (crashed s); [done |].
  simpl. unfold on_object.
  destruct (Js.is_string "ping" _); [done |].
  destruct (Js.is_string "extension_ready" _); [done |].
  unfold on_response, unmatched, JsMap.has in *.
  destruct (Js.get "id" msg); try done.
  destruct (Js.truthy _); [| done].
  by destruct (JsMap.get _ _).
Qed.

(** C4.  A frame whose id matches no entry of the table is dropped: the
    state after it is the state before it.  In particular, once the
    deadline timer of a command has fired (the caller has the timeout
    error, the entry is removed), a late reply carrying that id changes
    nothing, and whatever happens later the timeout stays the only call
    ever made on that promise.  In no state the server can reach has a
    promise of [sendCommand] been settled twice. *)
Theorem unmatched_reply_dropped_single_resolution
    (s s' : State) (t : nat) (c : Timeout) (sock : nat) (stray late : Js.object)
    (tr : list Event) :
  reachable s →
  reachable s' →
  crashed s = false →
  timers s !! t = Some c →
  (t_due c <= now s)%Z →
  unmatched stray s = true →
  Js.get "id" late = Js.Str (t_id c) →
  let s1 := step s (TimerFire t) in
  step s (Message sock (Parsed (Js.Obj stray))) = s
  ∧ outcome (t_promise c) s1 = Some (timed_out (t_action c))
  ∧ JsMap.has (t_id c) (pendingCommands s1) = false
  ∧ step s1 (Message sock (Parsed (Js.Obj late))) = s1
  ∧ calls_on (t_promise c) (run s1 tr) = [timed_out (t_action c)]
  ∧ (∀ p, (length (calls_on p s') ≤ 1)%nat).
Proof.
  intros Hreach Hreach' Hrun Hc Hdue Hstray Hlate s1.
  pose proof (wf_reachable s Hreach) as W.
  assert (s1 = retire t c (timed_out (t_action c)) s) as Hs1.
  { subst s1. unfold step. rewrite Hrun. by apply timer_fire_retire. }
  assert (wf s1) as W1 by (rewrite Hs1; by apply wf_retire).
  assert (calls_on (t_promise c) s1 = [timed_out (t_action c)]) as Hcalls.
  { rewrite Hs1. unfold retire. rewrite calls_on_settle_eq.
    change (calls_on (t_promise c) (set_pendingCommands _ (clearTimeout t s)))
      with (calls_on (t_promise c) s).
    destruct (wf_timer s W t c Hc) as (_ & _ & ->). done. }
  assert (JsMap.has (t_id c) (pendingCommands s1) = false) as Hhas.
  { rewrite Hs1. simpl. apply JsMapFacts.has_delete. }
  split; [by apply unmatched_frame_ignored |].
  split; [unfold outcome; by rewrite Hcalls |].
  split; [done |].
  split; [| split].
  - apply unmatched_frame_ignored. unfold unmatched. by rewrite Hlate, Hhas.
  - by apply settled_forever.
  - intros p. by apply wf_once, wf_reachable.
Qed.

Lemma unmatched_reply_dropped_single_resolution_witness :
  let s := run init [Connection 1%nat;
                     SendCommand "a" (Js.Str "click") [("selector", Js.Str "#x")];
                     Elapse 30000%N] in
  let late := [("id", Js.Str "a"); ("success", Js.Bool true); ("data", Js.Num 1)] in
  let s1 := step s (TimerFire 0%nat) in
  outcome 0%nat s1 = Some (Rejected "Command timed out after 30s: click")
  ∧ step s1 (Message 1%nat (Parsed (Js.Obj late))) = s1
  ∧ outcome 0%nat (run s1 [Message 1%nat (Parsed (Js.Obj late)); Close 1%nat])
    = Some (Rejected "Command timed out after 30s: click").
Proof.
  intros s late s1.
  pose proof (unmatched_reply_dropped_single_resolution s s1 0%nat
                {| t_id := "a"; t_promise := 0; t_action := Js.Str "click";
                   t_due := 30000 |}
                1%nat [("id", Js.Str "zzz")] late
                [Message 1%nat (Parsed (Js.Obj late)); Close 1%nat]
                (ex_intro _ _ eq_refl)
                (ex_intro _ [Connection 1%nat;
                             SendCommand "a" (Js.Str "click") [("selector", Js.Str "#x")];
                             Elapse 30000%N; TimerFire 0%nat] eq_refl)
                eq_refl eq_refl
                ltac:(vm_compute; discriminate) eq_refl eq_refl)
    as (_ & Hout & _ & Hlate & Hcalls & _).
  split; [exact Hout |]. split; [exact Hlate |].
  unfold outcome. fold s s1 in Hcalls. simpl t_promise in Hcalls.
  rewrite Hcalls. reflexivity.
Defined.

(** C9 as stated fails on the names of the fields: the object has no field
    [peerConnected] and no field [pendingCount]. *)
Lemma health_has_other_field_names :
  List.map fst (body (health init))
  = ["status"; "extensionConnected"; "pendingCommands"]
  ∧ Js.get "peerConnected" (body (health init)) = Js.Undefined
  ∧ Js.get "pendingCount" (body (health init)) = Js.Undefined.
Proof. split; [| split]; reflexivity. Qed.

(** C9, amended.  The liveness endpoint always answers an object with
    exactly the fields [status], [extensionConnected] and
    [pendingCommands], where [extensionConnected] is true iff a peer socket
    exists and is in the [OPEN] state, and [pendingCommands] equals the
    current number of pending requests. *)
Theorem health_reports_connection_and_pending (s : State) :
  status (health s) = 200%Z
  ∧ List.map fst (body (health s))
    = ["status"; "extensionConnected"; "pendingCommands"]
  ∧ Js.get "status" (body (health s)) = Js.Str "ok"
  ∧ (∃ b, Js.get "extensionConnected" (body (health s)) = Js.Bool b
          ∧ (b = true ↔ ∃ sock, extensionSocket s = Some sock
                                ∧ readyState s !! sock = Some OPEN))
  ∧ Js.get "pendingCommands" (body (health s))
    = Js.Num (Z.of_nat (length (JsMap.keys (pendingCommands s)))).
Proof.
  split; [done |]. split; [done |]. split; [done |]. split.
  - exists (socket_open s). split; [done |].
    unfold socket_open. destruct (extensionSocket s) as [sock|].
    + destruct (readyState s !! sock) as [[]|] eqn:Hrs; split; try done;
        try (intros (? & [= <-] & ?); congruence).
      intros _. eauto.
    + split; [done |]. by intros (? & ? & ?).
  - simpl. unfold JsMap.size, JsMap.keys. by rewrite length_map.
Qed.

End BridgeSpec.

(** ** Reconnection of the service worker *)

Module ReconnectFacts.

(** [min(min(floor * 2^k, ceiling) * 2, ceiling)] is the next term. *)
Lemma backoff_wait_succ (floor ceiling : Z) (k : nat) :
  (0 <= floor)%Z → (0 <= ceiling)%Z →
  Z.min (Claimed.backoff_wait floor ceiling k * 2) ceiling
  = Claimed.backoff_wait floor ceiling (S k).
Proof.
  intros Hf Hc. unfold Claimed.backoff_wait.
  rewrite Nat2Z.inj_succ, Z.pow_succ_r by lia.
  assert (0 < 2 ^ Z.of_nat k)%Z by (apply Z.pow_pos_nonneg; lia).
  nia.
Qed.

Lemma backoff_wait_nonneg (floor ceiling : Z) (k : nat) :
  (0 <= floor)%Z → (0 <= ceiling)%Z → (0 <= Claimed.backoff_wait floor ceiling k)%Z.
Proof.
  intros Hf Hc. unfold Claimed.backoff_wait.
  assert (0 < 2 ^ Z.of_nat k)%Z by (apply Z.pow_pos_nonneg; lia).
  nia.
Qed.

Section Timer.
Import Background.

(** The retry that [scheduleReconnect] arranges, from a state without
    socket: the delay elapses, the timer fires. *)
Lemma retry_after_schedule (s : State) :
  ws s = None → (0 <= reconnectDelay s)%Z →
  let s1 := scheduleReconnect s in
  let s2 := step (step s1 (Elapse (Z.to_N (reconnectDelay s))))
                 (TimerFire (nextTimer s) true) in
  reconnectTimer s1 = Some (nextTimer s)
  ∧ last (scheduled s1) = Some (reconnectDelay s)
  ∧ ws s2 = Some (nextSocket s)
  ∧ reconnectDelay s2 = Z.min (reconnectDelay s * 2) RECONNECT_MAX_MS
  ∧ scheduled s2 = (scheduled s ++ [reconnectDelay s])%list.
Proof.
  intros Hws Hpos s1 s2.
  assert (∃ s0, s1 = set_reconnectTimer (reconnectDelay s) s0
                ∧ ws s0 = None ∧ nextTimer s0 = nextTimer s
                ∧ scheduled s0 = scheduled s ∧ nextSocket s0 = nextSocket s
                ∧ reconnectDelay s0 = reconnectDelay s)
    as (s0 & Hs1 & Hws0 & Hnt & Hsch & Hns & Hd).
  { subst s1. unfold scheduleReconnect. destruct (reconnectTimer s) as [t|].
    - by exists (clearTimeout t s).
    - by exists s. }
  assert (s2 = connect true
                 (set_reconnectDelay (Z.min (reconnectDelay s * 2) RECONNECT_MAX_MS)
                    (clearTimeout (nextTimer s)
                       (set_now (now s1 + Z.of_N (Z.to_N (reconnectDelay s))) s1))))
    as ->.
  { subst s2. cbn [step]. unfold timer_fire. rewrite Hs1.
    cbn [timers set_now set_reconnectTimer now]. rewrite Hnt, lookup_insert_eq.
    rewrite Z2N.id by done.
    destruct (Z.leb_spec (now s0 + reconnectDelay s) (now s0 + reconnectDelay s));
      [| lia].
    unfold on_reconnect_timer. cbn. by rewrite Hd. }
  rewrite Hs1. cbn [reconnectTimer set_reconnectTimer scheduled].
  rewrite Hnt, Hsch, last_snoc. split; [done |]. split; [done |].
  unfold connect. cbn. rewrite Hws0. cbn.
  by rewrite Hns, Hsch.
Qed.

(** One failure and its retry, from a state that holds a socket. *)
Lemma fail_and_retry_timer (s : State) (sock : nat) :
  ws s = Some sock → (0 <= reconnectDelay s)%Z →
  ws (fail_and_retry s) = Some (nextSocket s)
  ∧ reconnectDelay (fail_and_retry s)
    = Z.min (reconnectDelay s * 2) RECONNECT_MAX_MS
  ∧ scheduled (fail_and_retry s) = (scheduled s ++ [reconnectDelay s])%list.
Proof.
  intros Hws Hdelay. unfold fail_and_retry. rewrite Hws.
  cbn [step]. unfold onclose.
  set (sc := set_ws None (set_readyState (<[sock:=CLOSED]> (readyState s)) s)).
  destruct (retry_after_schedule sc) as (Ht & Hl & Hrest); try done.
  rewrite Ht, Hl. exact Hrest.
Qed.

(** The delay after [k] doublings from [d], each capped at the ceiling. *)
Lemma doubled_delay_succ (d : Z) (k : nat) :
  (0 <= d)%Z →
  Z.min (Z.min (d * 2 ^ Z.of_nat k) RECONNECT_MAX_MS * 2) RECONNECT_MAX_MS
  = Z.min (d * 2 ^ Z.of_nat (S k)) RECONNECT_MAX_MS.
Proof.
  intros Hd. unfold RECONNECT_MAX_MS.
  rewrite Nat2Z.inj_succ, Z.pow_succ_r by lia.
  assert (0 < 2 ^ Z.of_nat k)%Z by (apply Z.pow_pos_nonneg; lia).
  nia.
Qed.

(** [k] failures in a row, from a state that holds a socket while the delay
    is [d]: the delays asked of [setTimeout] are [d], [min(2d, ceiling)],
    [min(4d, ceiling)], ... *)
Lemma failures_from_timer (s0 : State) (sock0 : nat) (k : nat) :
  ws s0 = Some sock0 → (0 <= reconnectDelay s0 <= RECONNECT_MAX_MS)%Z →
  ∃ sock, ws (Nat.iter k fail_and_retry s0) = Some sock
  ∧ reconnectDelay (Nat.iter k fail_and_retry s0)
    = Z.min (reconnectDelay s0 * 2 ^ Z.of_nat k) RECONNECT_MAX_MS
  ∧ scheduled (Nat.iter k fail_and_retry s0)
    = (scheduled s0
       ++ List.map (fun j => Z.min (reconnectDelay s0 * 2 ^ Z.of_nat j) RECONNECT_MAX_MS)
            (seq 0 k))%list.
Proof.
  intros Hws0 Hd0.
  induction k as [|k (sock & Hws & Hdelay & Hsched)].
  - exists sock0. simpl. rewrite app_nil_r. split; [done |]. split; [lia | done].
  - rewrite Nat.iter_succ.
    set (s := Nat.iter k fail_and_retry s0) in *.
    assert (0 <= reconnectDelay s)%Z as Hpos.
    { rewrite Hdelay. unfold RECONNECT_MAX_MS.
      assert (0 < 2 ^ Z.of_nat k)%Z by (apply Z.pow_pos_nonneg; lia). nia. }
    destruct (fail_and_retry_timer s sock Hws Hpos) as (Hws' & Hd' & Hs').
    exists (nextSocket s). split; [done |]. split.
    + rewrite Hd', Hdelay. apply doubled_delay_succ. lia.
    + rewrite Hs', Hsched, Hdelay, seq_S, List.map_app, <- app_assoc. done.
Qed.

(** The wait scheduled by the [k + 1]-th closing in a row *)
Lemma wait_of_closing (s0 : State) (sock0 : nat) (k : nat) :
  ws s0 = Some sock0 → (0 <= reconnectDelay s0 <= RECONNECT_MAX_MS)%Z →
  wait_before_reconnect s0 k
  = Some (Z.min (reconnectDelay s0 * 2 ^ Z.of_nat k) RECONNECT_MAX_MS).
Proof.
  intros Hws0 Hd0. unfold wait_before_reconnect.
  destruct (failures_from_timer s0 sock0 (S k) Hws0 Hd0) as (_ & _ & _ & ->).
  rewrite seq_S, List.map_app, app_assoc. simpl List.map at 2.
  rewrite nth_error_app2; rewrite length_app, length_map, length_seq; [| lia].
  by rewrite Nat.sub_diag.
Qed.

End Timer.

Section Alarm.
Import BackgroundAlarm.

(** One failure and the retry by the reconnect alarm. *)
Lemma fail_and_retry_alarm (s : State) (sock : nat) :
  ws s = Some sock →
  ws (fail_and_retry s) = Some (nextSocket s)
  ∧ alarms (fail_and_retry s) !! RECONNECT_ALARM
    = Some (default reconnect_info (alarms s !! RECONNECT_ALARM))
  ∧ created (fail_and_retry s)
    = match alarms s !! RECONNECT_ALARM with
      | Some _ => created s
      | None => (created s ++ [(RECONNECT_ALARM, reconnect_info)])%list
      end.
Proof.
  intros Hws. unfold fail_and_retry. rewrite Hws.
  unfold onAlarm, onclose, ensureReconnectAlarm.
  cbn [alarms alarms_clear set_ws set_readyState].
  assert (RECONNECT_ALARM ≠ KEEPALIVE_ALARM) as Hne by done.
  rewrite lookup_delete_ne by done.
  rewrite String.eqb_refl.
  replace (String.eqb RECONNECT_ALARM KEEPALIVE_ALARM) with false by done.
  destruct (alarms s !! RECONNECT_ALARM) as [a|] eqn:Ha; unfold connect; cbn.
  - rewrite lookup_delete_ne by done. done.
  - rewrite lookup_insert_eq. done.
Qed.

Lemma after_failures_alarm (k : nat) :
  ∃ sock, ws (after_failures k) = Some sock
  ∧ match k with
    | O => alarms (after_failures k) !! RECONNECT_ALARM = None
           ∧ created (after_failures k) = []
    | S _ => alarms (after_failures k) !! RECONNECT_ALARM = Some reconnect_info
             ∧ created (after_failures k) = [(RECONNECT_ALARM, reconnect_info)]
    end.
Proof.
  induction k as [|k (sock & Hws & IH)].
  - exists 0%nat. done.
  - unfold after_failures in *. rewrite Nat.iter_succ.
    set (s := Nat.iter k fail_and_retry _) in *.
    destruct (fail_and_retry_alarm s sock Hws) as (Hws' & Ha' & Hc').
    exists (nextSocket s). split; [done |].
    rewrite Ha', Hc'. destruct k; destruct IH as [-> ->]; done.
Qed.

End Alarm.

End ReconnectFacts.

Module ReconnectSpec.
Import ReconnectFacts.

(** C5 as stated fails.  The [chrome.alarms] worker retries on a fixed
    alarm: after one failed attempt the wait before the second is the
    0.08 min of the alarm, where [min(1000 * 2^1, 30000)] ms is 2000 ms,
    that is 1/30 min.  The [setTimeout] worker, started while the server is
    down, waits the floor of 1000 ms after its first failed attempt, not
    2000 ms. *)
Lemma retry_wait_is_not_the_claimed_backoff :
  BackgroundAlarm.alarms (BackgroundAlarm.after_failures 1)
    !! BackgroundAlarm.RECONNECT_ALARM
  = Some {| BackgroundAlarm.delayInMinutes := Some (8 # 100)%Q;
            BackgroundAlarm.periodInMinutes := Some (8 # 100)%Q |}
  ∧ ¬ ((8 # 100) * 60000
       == inject_Z (Claimed.backoff_wait Background.RECONNECT_BASE_MS
                      Background.RECONNECT_MAX_MS 1))%Q
  ∧ Background.wait_after_failures 1 = Some 1000%Z
  ∧ Background.wait_after_failures 1
    ≠ Some (Claimed.backoff_wait Background.RECONNECT_BASE_MS
              Background.RECONNECT_MAX_MS 1).
Proof.
  split; [by vm_compute |]. split; [by vm_compute |].
  split; [by vm_compute |]. vm_compute. congruence.
Qed.

(** No term of the claimed sequence is the 4800 ms of the alarm, whichever
    way the attempts are counted. *)
Lemma alarm_period_is_no_backoff_term (k : nat) :
  ¬ ((8 # 100) * 60000
     == inject_Z (Claimed.backoff_wait Background.RECONNECT_BASE_MS
                    Background.RECONNECT_MAX_MS k))%Q.
Proof.
  unfold Qeq. cbn [Qnum Qden Qmult inject_Z].
  unfold Claimed.backoff_wait, Background.RECONNECT_BASE_MS, Background.RECONNECT_MAX_MS.
  destruct k as [|[|[|k]]]; [by vm_compute | by vm_compute | by vm_compute |].
  assert (8 <= 2 ^ Z.of_nat (S (S (S k))))%Z.
  { change 8%Z with (2 ^ 3)%Z. apply Z.pow_le_mono_r; lia. }
  lia.
Qed.

(** A reconnect timer that is still armed when a connection opens is not
    cleared by [onopen]; when it fires, it doubles the delay that [onopen]
    has just reset, and [connect] returns at once.  The worker then holds
    an open connection with a delay of twice the floor. *)
Lemma stale_timer_doubles_delay_while_open :
  let s := Background.run Background.init
             [Background.Connect true; Background.Close 0; Background.Connect true;
              Background.Open 1 (Js.Str "1.0.0"); Background.Elapse 1000%N;
              Background.TimerFire 1 true] in
  Background.ws s = Some 1%nat
  ∧ Background.ws_open s = true
  ∧ Background.reconnectDelay s = 2000%Z
  ∧ Background.wait_before_reconnect s 0 = Some 2000%Z
  ∧ Background.wait_before_reconnect s 1 = Some 4000%Z.
Proof. by vm_compute. Qed.

(** C5, amended.  In the [setTimeout] worker, when the socket the worker
    holds closes while [reconnectDelay] is [d], and the next [k]
    reconnection attempts fail in a row, the wait before reconnection
    attempt [k + 1] is [min(d * 2^k, ceiling)], with ceiling 30000 ms, for
    every [k].  The delay [d] is the floor of 1000 ms when the connection
    is lost right after it has opened, [onopen] having reset it, and the
    wait is then [min(floor * 2^k, ceiling)]; so it is counted from the
    start of the worker, whose first attempt is made at once: the wait
    after [k + 1] failed attempts is [min(floor * 2^k, ceiling)].  The
    [chrome.alarms] worker has no backoff: its only reconnect alarm is the
    one created at the first failure, with delay and period 0.08 min. *)
Theorem reconnect_wait_after_failures
    (s : Background.State) (sock : nat) (version : Js.value) (k : nat) :
  Background.ws s = Some sock →
  (0 <= Background.reconnectDelay s <= 30000)%Z →
  Background.wait_before_reconnect s k
  = Some (Z.min (Background.reconnectDelay s * 2 ^ Z.of_nat k) 30000)
  ∧ Background.wait_before_reconnect (Background.onopen sock version s) k
    = Some (Claimed.backoff_wait 1000 30000 k)
  ∧ Background.wait_after_failures (S k)
    = Some (Claimed.backoff_wait 1000 30000 k)
  ∧ BackgroundAlarm.alarms (BackgroundAlarm.after_failures (S k))
      !! BackgroundAlarm.RECONNECT_ALARM
    = Some {| BackgroundAlarm.delayInMinutes := Some (8 # 100)%Q;
              BackgroundAlarm.periodInMinutes := Some (8 # 100)%Q |}
  ∧ List.length (BackgroundAlarm.created (BackgroundAlarm.after_failures (S k)))
    = 1%nat.
Proof.
  intros Hws Hdelay. split; [| split; [| split]].
  - by apply (wait_of_closing s sock).
  - rewrite (wait_of_closing _ sock).
    + unfold Background.onopen, Background.send. cbn. rewrite Hws.
      by destruct (Background.ws_open _).
    + unfold Background.onopen, Background.send. cbn. rewrite Hws.
      by destruct (Background.ws_open _).
    + unfold Background.onopen, Background.send. cbn. rewrite Hws.
      by destruct (Background.ws_open _).
  - unfold Background.wait_after_failures, Background.after_failures.
    replace (S k - 1)%nat
      with (length (Background.scheduled
                      (Background.step Background.init (Background.Connect true))) + k)%nat
      by (simpl; lia).
    change (Background.wait_before_reconnect
              (Background.step Background.init (Background.Connect true)) k
            = Some (Claimed.backoff_wait 1000 30000 k)).
    by rewrite (wait_of_closing _ 0%nat).
  - destruct (after_failures_alarm (S k)) as (_ & _ & -> & ->). done.
Qed.

Lemma reconnect_wait_after_failures_witness :
  let s := Background.run Background.init
             [Background.Connect true; Background.Close 0; Background.Connect true;
              Background.Open 1 (Js.Str "1.0.0"); Background.Elapse 1000%N;
              Background.TimerFire 1 true] in
  Background.wait_before_reconnect s 3 = Some 16000%Z
  ∧ Background.wait_before_reconnect
      (Background.onopen 1%nat (Js.Str "1.0.0") s) 3 = Some 8000%Z
  ∧ Background.wait_after_failures 4 = Some 8000%Z.
Proof.
  intros s.
  pose proof (reconnect_wait_after_failures s 1%nat (Js.Str "1.0.0") 3 eq_refl
                ltac:(vm_compute; split; discriminate))
    as (H0 & H1 & H2 & _).
  split; [exact H0 | split; [exact H1 | exact H2]].
Defined.

End ReconnectSpec.

(** ** Selector resolution *)

Module ContentSpec.
Import Content.

Lemma walk_loop_find (selector : string) (walk : list Node) :
  walk_loop selector walk = List.find (Claimed.text_matches selector) walk.
Proof. induction walk as [|n rest IH]; simpl; [done |]. by rewrite IH. Qed.

(** [List.find] returns the first element that passes the test. *)
Lemma find_first {A} (f : A → bool) (l : list A) :
  match List.find f l with
  | Some x => ∃ before after, l = (before ++ x :: after)%list ∧ f x = true
                              ∧ Forall (fun y => f y = false) before
  | None => Forall (fun y => f y = false) l
  end.
Proof.
  induction l as [|a l IH]; simpl; [by constructor |].
  destruct (f a) eqn:Hfa.
  - exists [], l. by repeat split.
  - destruct (List.find f l) as [x|].
    + destruct IH as (before & after & -> & Hx & Hb).
      exists (a :: before), after. repeat split; [done |]. by constructor.
    + by constructor.
Qed.

(** C6 as stated fails for the empty locator: the code answers [null]
    before trying anything, where the stated strategy reaches the text
    traversal and finds the first element without text. *)
Lemma empty_locator_is_not_resolved :
  resolveElement Sample.page "" = Js.Normal None
  ∧ Claimed.resolve Sample.page "" = Some Sample.br.
Proof. split; reflexivity. Qed.

(** C6, amended.  For every non-empty locator string [resolveElement]
    applies the ordered first-match-wins strategy and never throws: the
    selector match if the selector engine finds one, a syntax error of the
    engine counting as no match; else the first ordered node of the path
    query, a syntax error again counting as no match; else the first
    element below [body], in document order, whose trimmed text is equal to
    the trimmed locator (equality of the whole strings); else [null].  For
    the empty locator the result is [null] at once. *)
Theorem resolveElement_first_match (document : Document) (selector : string) :
  Js.truthy (Js.Str selector) = true →
  resolveElement document selector = Js.Normal (Claimed.resolve document selector)
  ∧ (∀ e, querySelector document selector = Js.Normal (Some e) →
          resolveElement document selector = Js.Normal (Some e))
  ∧ (∀ n, Claimed.matched (querySelector document selector) = None →
          evaluate document selector = Js.Normal (Some n) →
          resolveElement document selector = Js.Normal (Some n))
  ∧ (Claimed.matched (querySelector document selector) = None →
     Claimed.matched (evaluate document selector) = None →
     match resolveElement document selector with
     | Js.Normal (Some e) =>
         ∃ before after,
           List.filter is_element (List.tl (subtree (body document)))
           = (before ++ e :: after)%list
           ∧ Js.trim (textContent e) = Js.trim selector
           ∧ Forall (fun x => Js.trim (textContent x) ≠ Js.trim selector) before
     | Js.Normal None =>
         Forall (fun x => Js.trim (textContent x) ≠ Js.trim selector)
           (List.filter is_element (List.tl (subtree (body document))))
     | Js.Throw _ => False
     end)
  ∧ resolveElement document "" = Js.Normal None.
Proof.
  intros Hsel.
  assert (resolveElement document selector
          = Js.Normal (Claimed.resolve document selector)) as Heq.
  { unfold resolveElement, Claimed.resolve. rewrite Hsel. simpl.
    destruct (querySelector document selector) as [[e|]|m]; simpl; try done;
      (destruct (evaluate document selector) as [[n|]|m']; simpl; try done;
       unfold createTreeWalker; by rewrite walk_loop_find). }
  split; [exact Heq |]. split; [| split; [| split]].
  - intros e He. rewrite Heq. unfold Claimed.resolve. by rewrite He.
  - intros n Hq He. rewrite Heq. unfold Claimed.resolve. by rewrite Hq, He.
  - intros Hq He. rewrite Heq. unfold Claimed.resolve. rewrite Hq, He.
    pose proof (find_first (Claimed.text_matches selector)
                  (List.filter is_element (List.tl (subtree (body document))))) as Hfind.
    destruct (List.find _ _) as [e|].
    + destruct Hfind as (before & after & Hsplit & Hm & Hb).
      exists before, after. split; [done |]. split.
      * by apply String.eqb_eq in Hm.
      * eapply Forall_impl; [exact Hb |]. intros x Hx. by apply String.eqb_neq in Hx.
    + eapply Forall_impl; [exact Hfind |]. intros x Hx. by apply String.eqb_neq in Hx.
  - done.
Qed.

Lemma resolveElement_first_match_witness :
  resolveElement Sample.page "#x" = Js.Normal (Some Sample.hello)
  ∧ resolveElement Sample.page "//div[@id='x']" = Js.Normal (Some Sample.hello)
  ∧ resolveElement Sample.page "Hello" = Js.Normal (Some Sample.hello)
  ∧ resolveElement Sample.page "hello" = Js.Normal None
  ∧ resolveElement Sample.page "Hell" = Js.Normal None
  ∧ resolveElement Sample.page "#missing" = Js.Normal None.
Proof.
  refine (conj _ (conj _ (conj _ (conj _ (conj _ _))))).
  - exact (proj1 (resolveElement_first_match Sample.page "#x" eq_refl)).
  - exact (proj1 (resolveElement_first_match Sample.page "//div[@id='x']" eq_refl)).
  - exact (proj1 (resolveElement_first_match Sample.page "Hello" eq_refl)).
  - exact (proj1 (resolveElement_first_match Sample.page "hello" eq_refl)).
  - exact (proj1 (resolveElement_first_match Sample.page "Hell" eq_refl)).
  - exact (proj1 (resolveElement_first_match Sample.page "#missing" eq_refl)).
Defined.

End ContentSpec.

(** ** The executor: navigation, routing and replies *)

Module ExecutorSpec.
Import Chrome Executor.

(** C7.  The code is evaluated where it departs from the claim.  [navigate]
    takes [url.startsWith("http")] for the test of a scheme, so the
    scheme-less [httpbin.org/get] is delivered to the browser as it is, not
    as [https://httpbin.org/get], and [ftp://example.com/pub], which
    carries a scheme, is delivered with [https://] put in front, not
    unchanged.  (For [example.com] the result is [https://example.com], see
    [navigate_delivers_target_url].) *)
Lemma scheme_test_is_a_prefix_test :
  Claimed.has_scheme "httpbin.org/get" = false
  ∧ delivered_urls (fst (navigate Sample.browser [("url", Js.Str "httpbin.org/get")]))
    = [Js.Str "httpbin.org/get"]
  ∧ Claimed.normalize_url "httpbin.org/get" = "https://httpbin.org/get"
  ∧ Claimed.has_scheme "ftp://example.com/pub" = true
  ∧ delivered_urls (fst (navigate Sample.browser [("url", Js.Str "ftp://example.com/pub")]))
    = [Js.Str "https://ftp://example.com/pub"]
  ∧ Claimed.normalize_url "ftp://example.com/pub" = "ftp://example.com/pub".
Proof. repeat split. Qed.

(** What [navigate] delivers, for every non-empty string [url]: the URL
    handed to the browser (by [chrome.tabs.update] on the given or the
    active tab, else by [chrome.tabs.create]) is [url] itself when [url]
    begins with [http], and [https://] followed by [url] otherwise; so
    [example.com] is delivered as [https://example.com].  This is the
    normalization of the specification exactly for the URLs on which
    beginning with [http] and carrying a scheme agree. *)
Theorem navigate_delivers_target_url (env : Env) (params : Js.object) (u : string) :
  Js.get "url" params = Js.Str u →
  Js.truthy (Js.Str u) = true →
  delivered_urls (fst (navigate env params))
  = (if Js.truthy (Js.get "tabId" params) then [Js.Str (targetUrl u)]
     else match query env active_query with
          | Js.Normal _ => [Js.Str (targetUrl u)]
          | Js.Throw _ => []
          end)
  ∧ targetUrl u = (if Js.startsWith "http" u then u else "https://" ++ u)
  ∧ (Js.startsWith "http" u = Claimed.has_scheme u →
     targetUrl u = Claimed.normalize_url u)
  ∧ targetUrl "example.com" = "https://example.com".
Proof.
  intros Hurl Htruthy. split; [| split; [done | split; [| done]]].
  - unfold navigate. rewrite Hurl, Htruthy. cbn [negb].
    unfold waitForTabLoad, call, ret, throw.
    destruct (Js.truthy (Js.get "tabId" params)).
    + cbn. destruct (update env _ _); cbn; [| done].
      by destruct (navigationCompletes env _).
    + cbn. destruct (query env active_query) as [[|activeTab tabs]|]; cbn; [| | done].
      * destruct (create env _); cbn; [| done].
        destruct (navigationCompletes env _); cbn; [| done].
        by destruct (get env _).
      * destruct (update env _ _); cbn; [| done].
        destruct (navigationCompletes env _); cbn; [| done].
        by destruct (get env _).
  - intros Hagree. unfold targetUrl, Claimed.normalize_url. by rewrite Hagree.
Qed.

Lemma navigate_delivers_target_url_witness :
  delivered_urls (fst (navigate Sample.browser [("url", Js.Str "example.com")]))
  = [Js.Str "https://example.com"].
Proof.
  exact (proj1 (navigate_delivers_target_url Sample.browser
                  [("url", Js.Str "example.com")] "example.com" eq_refl eq_refl)).
Defined.

(** What [ws.onmessage] does with a command object. *)
Lemma onmessage_object (env : Env) (o : Js.object) :
  Executor.onmessage env (Parsed (Js.Obj o))
  = SendLater (fst (handleCommand env (Js.get "action" o)
                      (Js.without "action" (Js.without "id" o))))
              (answer env o).
Proof.
  unfold Executor.onmessage, answer. simpl.
  by destruct (handleCommand env _ _).
Qed.

(** A resumed handler sends at most its reply and is finished. *)
Lemma resume_sent_timer (s : Background.State) (j : nat) (data : Js.object) :
  Background.jobs s !! j = Some data →
  Background.sent (Background.resume j s)
  = (Background.sent s
     ++ match Background.ws s with
        | Some sock => if Background.ws_open s then [(sock, Js.Obj data)] else []
        | None => []
        end)%list.
Proof.
  intros Hj. unfold Background.resume. rewrite Hj.
  unfold Background.send, Background.ws_open. cbn.
  destruct (Background.ws s) as [sock|]; cbn; [| by rewrite app_nil_r].
  destruct (Background.readyState s !! sock) as [[]|]; cbn; by rewrite ?app_nil_r.
Qed.

Lemma resume_again_timer (s : Background.State) (j : nat) :
  Background.resume j (Background.resume j s) = Background.resume j s.
Proof.
  assert (Background.jobs (Background.resume j s) !! j = None) as Hgone.
  { unfold Background.resume. destruct (Background.jobs s !! j) eqn:Hj; [| done].
    unfold Background.send. cbn.
    destruct (Background.ws s); [destruct (Background.ws_open _) |]; cbn;
      apply lookup_delete_eq. }
  unfold Background.resume at 1. by rewrite Hgone.
Qed.

Lemma resume_sent_alarm (s : BackgroundAlarm.State) (j : nat) (data : Js.object) :
  BackgroundAlarm.jobs s !! j = Some data →
  BackgroundAlarm.sent (BackgroundAlarm.resume j s)
  = (BackgroundAlarm.sent s
     ++ match BackgroundAlarm.ws s with
        | Some sock => if BackgroundAlarm.ws_open s then [(sock, Js.Obj data)] else []
        | None => []
        end)%list.
Proof.
  intros Hj. unfold BackgroundAlarm.resume. rewrite Hj.
  unfold BackgroundAlarm.send, BackgroundAlarm.ws_open. cbn.
  destruct (BackgroundAlarm.ws s) as [sock|]; cbn; [| by rewrite app_nil_r].
  destruct (BackgroundAlarm.readyState s !! sock) as [[]|]; cbn; by rewrite ?app_nil_r.
Qed.

Lemma resume_again_alarm (s : BackgroundAlarm.State) (j : nat) :
  BackgroundAlarm.resume j (BackgroundAlarm.resume j s) = BackgroundAlarm.resume j s.
Proof.
  assert (BackgroundAlarm.jobs (BackgroundAlarm.resume j s) !! j = None) as Hgone.
  { unfold BackgroundAlarm.resume.
    destruct (BackgroundAlarm.jobs s !! j) eqn:Hj; [| done].
    unfold BackgroundAlarm.send. cbn.
    destruct (BackgroundAlarm.ws s); [destruct (BackgroundAlarm.ws_open _) |]; cbn;
      apply lookup_delete_eq. }
  unfold BackgroundAlarm.resume at 1. by rewrite Hgone.
Qed.

(** C10 as stated fails when the connection is no longer open at the
    moment the command completes: [send] then drops the reply, in both
    variants of the worker.  Here the command arrives, the socket closes,
    the command completes: the only frame ever sent is the announcement
    made on opening. *)
Lemma reply_is_dropped_after_close :
  let cmd := Parsed (Js.Obj [("id", Js.Str "u-1"); ("action", Js.Str "get_title")]) in
  Background.sent
    (Background.run Background.init
       [Background.Connect true; Background.Open 0 (Js.Str "1.0.0");
        Background.Message Sample.browser cmd; Background.Close 0;
        Background.Resume 0])
  = [(0%nat, Js.Obj [("type", Js.Str "extension_ready"); ("version", Js.Str "1.0.0")])]
  ∧ BackgroundAlarm.sent
      (BackgroundAlarm.resume 0
         (BackgroundAlarm.onclose 0
            (BackgroundAlarm.onmessage Sample.browser cmd
               (BackgroundAlarm.onopen 0 (Js.Str "1.0.0")
                  (BackgroundAlarm.connect true BackgroundAlarm.init)))))
    = [(0%nat, Js.Obj [("type", Js.Str "extension_ready"); ("version", Js.Str "1.0.0")])].
Proof. split; reflexivity. Qed.

(** C10, amended.  For every command object the worker receives, the
    reply it prepares carries the [id] of the command, with
    [success: true] and [data] or with [success: false] and [error];
    nothing is sent before the command completes.  When it completes, the
    worker sends exactly that one frame if its socket is open, and no frame
    at all if it is not; either way the handler is finished, so a command
    never gets a second reply. *)
Theorem reply_echoes_command_id
    (env : Env) (o : Js.object)
    (s s2 : Background.State) (j : nat)
    (a a2 : BackgroundAlarm.State) (j' : nat) :
  Background.jobs s2 !! j = Some (answer env o) →
  BackgroundAlarm.jobs a2 !! j' = Some (answer env o) →
  (Js.get "id" (answer env o) = Js.get "id" o
   ∧ ((∃ data, answer env o
               = [("id", Js.get "id" o); ("success", Js.Bool true); ("data", data)])
      ∨ (∃ message, answer env o
                    = [("id", Js.get "id" o); ("success", Js.Bool false);
                       ("error", Js.Str message)])))
  ∧ (Background.sent (Background.onmessage env (Parsed (Js.Obj o)) s)
     = Background.sent s
     ∧ Background.jobs (Background.onmessage env (Parsed (Js.Obj o)) s)
         !! Background.nextJob s = Some (answer env o)
     ∧ Background.sent (Background.resume j s2)
       = (Background.sent s2
          ++ match Background.ws s2 with
             | Some sock =>
                 if Background.ws_open s2 then [(sock, Js.Obj (answer env o))] else []
             | None => []
             end)%list
     ∧ Background.resume j (Background.resume j s2) = Background.resume j s2)
  ∧ (BackgroundAlarm.sent (BackgroundAlarm.onmessage env (Parsed (Js.Obj o)) a)
     = BackgroundAlarm.sent a
     ∧ BackgroundAlarm.jobs (BackgroundAlarm.onmessage env (Parsed (Js.Obj o)) a)
         !! BackgroundAlarm.nextJob a = Some (answer env o)
     ∧ BackgroundAlarm.sent (BackgroundAlarm.resume j' a2)
       = (BackgroundAlarm.sent a2
          ++ match BackgroundAlarm.ws a2 with
             | Some sock =>
                 if BackgroundAlarm.ws_open a2
                 then [(sock, Js.Obj (answer env o))] else []
             | None => []
             end)%list
     ∧ BackgroundAlarm.resume j' (BackgroundAlarm.resume j' a2)
       = BackgroundAlarm.resume j' a2).
Proof.
  intros Hj Hj'. split; [| split].
  - unfold answer, reply.
    destruct (snd (handleCommand env _ _)) as [data|message]; simpl.
    + split; [done |]. left. by exists data.
    + split; [done |]. right. by exists message.
  - unfold Background.onmessage. rewrite onmessage_object.
    split; [done |]. split; [cbn; by rewrite lookup_insert_eq |].
    split; [by apply resume_sent_timer | apply resume_again_timer].
  - unfold BackgroundAlarm.onmessage. rewrite onmessage_object.
    split; [done |]. split; [cbn; by rewrite lookup_insert_eq |].
    split; [by apply resume_sent_alarm | apply resume_again_alarm].
Qed.

Lemma reply_echoes_command_id_witness :
  let o := [("id", Js.Str "u-1"); ("action", Js.Str "get_title")] in
  let s2 := Background.run Background.init
              [Background.Connect true; Background.Open 0 (Js.Str "1.0.0");
               Background.Message Sample.browser (Parsed (Js.Obj o))] in
  Background.sent (Background.resume 0 s2)
  = (Background.sent s2
     ++ [(0%nat, Js.Obj [("id", Js.Str "u-1"); ("success", Js.Bool true);
                         ("data", Js.Obj [("title", Js.Str ""); ("url", Js.Str "about:blank");
                                          ("tabId", Js.Num 42)])])])%list.
Proof.
  intros o s2.
  pose proof (reply_echoes_command_id Sample.browser o Background.init s2 0%nat
                BackgroundAlarm.init
                (BackgroundAlarm.onmessage Sample.browser (Parsed (Js.Obj o))
                   BackgroundAlarm.init) 0%nat eq_refl eq_refl)
    as (_ & (_ & _ & Hsent & _) & _).
  exact Hsent.
Defined.

End ExecutorSpec.

(** ** Unknown actions, from the REST route to the executor and back *)

Module RoutingSpec.
Import Bridge BridgeFacts.





End RoutingSpec.

(** ** More on the relay: deadlines, shutdown, stale sockets, routes *)

Module BridgeExtra.
Import Bridge BridgeFacts.

Lemma timers_reject_each_Some message entries s t c :
  timers (reject_each message entries s) !! t = Some c → timers s !! t = Some c.
Proof.
  revert s. induction entries as [|[id e] rest IH]; intros s Ht; [done |].
  simpl in Ht. apply IH in Ht. simpl in Ht.
  by apply lookup_delete_Some in Ht as [_ Ht].
Qed.

(** A handler arms at most one timer, the one of the command it sends, and
    never changes the closure of an armed one. *)
Lemma timers_step_origin s e t c :
  timers (step s e) !! t = Some c →
  timers s !! t = Some c
  ∨ (t = nextTimer s
     ∧ ∃ id action params,
         e = SendCommand id action params
         ∧ c = {| t_id := id; t_promise := nextPromise s; t_action := action;
                  t_due := now s + COMMAND_TIMEOUT_MS |}).
Proof.
  unfold step. destruct (crashed s); [by left |].
  destruct e as [sock|sock raw|sock|sock|sock rs|id action params|t'|dt]; simpl;
    try (by left).
  - assert (∀ o, timers (on_object o s) !! t = Some c → timers s !! t = Some c) as Hobj.
    { intros o. unfold on_object. repeat (destruct (Js.is_string _ _); [done |]).
      unfold on_response. destruct (Js.get "id" o); try done.
      destruct (Js.truthy _); [| done].
      destruct (JsMap.get _ _); [| done].
      destruct (Js.truthy _); simpl; intros H;
        by apply lookup_delete_Some in H as [_ H]. }
    destruct raw as [|[]]; simpl; try (by left); intros H; left; by eapply Hobj.
  - unfold on_close. intros H. apply timers_reject_each_Some in H. left.
    revert H. simpl. destruct (extensionSocket s) as [cur|]; simpl; [| done].
    by destruct (Nat.eqb cur sock).
  - unfold_sendCommand s. destruct (socket_open s); simpl; [| by left].
    destruct (extensionSocket s); simpl; intros H;
      apply lookup_insert_Some in H as [[<- <-]|[_ H]]; eauto 10.
  - unfold timer_fire. destruct (timers s !! t') eqn:Ht'; [| by left].
    destruct (Z.leb _ _); [| by left]. simpl. intros H.
    apply lookup_delete_Some in H as [_ H]. by left.
Qed.





(** Every armed timer is due within the timeout. *)
Lemma due_bound_step s e :
  (∀ t c, timers s !! t = Some c → (t_due c <= now s + COMMAND_TIMEOUT_MS)%Z) →
  ∀ t c, timers (step s e) !! t = Some c →
         (t_due c <= now (step s e) + COMMAND_TIMEOUT_MS)%Z.
Proof.
  intros Hs t c Ht. pose proof (now_step s e) as Hnow.
  apply timers_step_origin in Ht as [Ht|(_ & id & action & params & _ & ->)].
  - specialize (Hs t c Ht). lia.
  - simpl. lia.
Qed.

Lemma due_bound_run tr s :
  (∀ t c, timers s !! t = Some c → (t_due c <= now s + COMMAND_TIMEOUT_MS)%Z) →
  ∀ t c, timers (run s tr) !! t = Some c →
         (t_due c <= now (run s tr) + COMMAND_TIMEOUT_MS)%Z.
Proof.
  revert s. induction tr as [|e tr IH]; intros s Hs; [done |].
  simpl. apply IH. by apply due_bound_step.
Qed.

(** X2.  In every state the server can reach, each entry of the table has
    its timer armed, carrying the entry's id and promise; nothing has been
    called on that promise yet, and the timer is due at most
    [COMMAND_TIMEOUT_MS] from now: no pending caller is without a
    deadline. *)
Theorem pending_entry_has_deadline (s : State) (id : string) (e : Pending) :
  reachable s →
  JsMap.get id (pendingCommands s) = Some e →
  ∃ c, timers s !! timer e = Some c
       ∧ t_id c = id
       ∧ t_promise c = promise e
       ∧ outcome (promise e) s = None
       ∧ (t_due c <= now s + COMMAND_TIMEOUT_MS)%Z.
Proof.
  intros Hreach He. pose proof (wf_reachable s Hreach) as W.
  destruct (wf_entry s W id e He) as (c & Hc & Hid & Hp).
  exists c. split; [done |]. split; [done |]. split; [done |]. split.
  - destruct (wf_timer s W _ _ Hc) as (_ & _ & Hcalls).
    unfold outcome. by rewrite <- Hp, Hcalls.
  - destruct Hreach as [tr <-]. eapply due_bound_run; [| exact Hc].
    intros t c0 H0. simpl in H0. by rewrite lookup_empty in H0.
Qed.

Lemma pending_entry_has_deadline_witness :
  let s := run init [Connection 1%nat; Elapse 250%N;
                     SendCommand "a" (Js.Str "hover") [("selector", Js.Str "#m")];
                     Elapse 29000%N] in
  ∃ c, timers s !! 0%nat = Some c ∧ t_id c = "a" ∧ t_promise c = 0%nat
       ∧ outcome 0%nat s = None ∧ (t_due c <= now s + COMMAND_TIMEOUT_MS)%Z.
Proof.
  intros s.
  exact (pending_entry_has_deadline s "a" {| promise := 0; timer := 0 |}
           (ex_intro _ _ eq_refl) eq_refl).
Defined.



(** The loop over the table touches neither the socket nor the frames
    sent. *)
Lemma reject_each_keeps_socket message entries s :
  extensionSocket (reject_each message entries s) = extensionSocket s
  ∧ readyState (reject_each message entries s) = readyState s
  ∧ sent (reject_each message entries s) = sent s.
Proof.
  revert s. induction entries as [|[id e] rest IH]; intros s; [done |].
  cbn [reject_each].
  match goal with
  | |- context [reject_each _ rest ?x] => destruct (IH x) as (-> & -> & ->)
  end.
  done.
Qed.

(** X3.  [shutdown] rejects every pending command with
    [Server shutting down] (the only call ever made on its promise),
    disarms its timer, and leaves the table empty. *)
Theorem shutdown_rejects_every_pending_command (s : State) :
  reachable s →
  pendingCommands (shutdown s) = []
  ∧ (∀ id e, JsMap.get id (pendingCommands s) = Some e →
       outcome (promise e) (shutdown s) = Some (Rejected "Server shutting down")
       ∧ calls_on (promise e) (shutdown s) = [Rejected "Server shutting down"]
       ∧ timers (shutdown s) !! timer e = None)
  ∧ length (settlements (shutdown s))
    = (length (settlements s) + JsMap.size (pendingCommands s))%nat.
Proof.
  intros Hreach. pose proof (wf_reachable s Hreach) as W. unfold shutdown.
  split; [by apply wf_reject_each | split].
  - intros id e He.
    destruct (reject_each_settles "Server shutting down" _ s W eq_refl id e He)
      as [Hcalls Htimer].
    unfold outcome. by rewrite Hcalls.
  - by rewrite settlements_reject_each, length_app, length_map.
Qed.

Lemma shutdown_rejects_every_pending_command_witness :
  let s := run init [Connection 1%nat;
                     SendCommand "a" (Js.Str "scrape") [];
                     SendCommand "b" (Js.Str "get_title") []] in
  pendingCommands (shutdown s) = []
  ∧ outcome 1%nat (shutdown s) = Some (Rejected "Server shutting down").
Proof.
  intros s.
  pose proof (shutdown_rejects_every_pending_command s (ex_intro _ _ eq_refl))
    as (Hempty & Hall & _).
  split; [exact Hempty |].
  exact (proj1 (Hall "b" {| promise := 1; timer := 1 |} eq_refl)).
Defined.

(** X4.  The close handler of a socket that is no longer the current one
    still rejects every pending command.  When a second connection has
    replaced the first and a command has been sent over the second, the
    closing of the first leaves the server connected (the socket variable
    and its state are untouched) and yet rejects that command with
    [Extension disconnected] and empties the table. *)
Theorem stale_close_rejects_commands_of_the_new_socket
    (s : State) (old new : nat) (id : string) (action : Js.value)
    (params : Js.object) :
  reachable s →
  crashed s = false →
  old ≠ new →
  let s' := run s [Connection new; SendCommand id action params; Close old] in
  extensionSocket s' = Some new
  ∧ socket_open s' = true
  ∧ (∃ payload, sent s' = (sent s ++ [(new, payload)])%list)
  ∧ pendingCommands s' = []
  ∧ outcome (nextPromise s) s' = Some (Rejected "Extension disconnected").
Proof.
  intros Hreach Hrun Hne s'.
  pose proof (wf_reachable s Hreach) as W.
  set (s1 := on_connection new s).
  assert (wf s1) as W1
    by (subst s1; unfold on_connection; by apply wf_set_extensionSocket, wf_set_readyState).
  assert (socket_open s1 = true) as Hopen.
  { subst s1. unfold socket_open. simpl. by rewrite lookup_insert_eq. }
  set (s2 := fst (sendCommand id action params s1)).
  assert (wf s2) as W2 by by apply wf_sendCommand.
  assert (extensionSocket s2 = Some new
          ∧ readyState s2 = <[new := OPEN]> (readyState s)
          ∧ (∃ payload, sent s2 = (sent s ++ [(new, payload)])%list)
          ∧ JsMap.get id (pendingCommands s2)
            = Some {| promise := nextPromise s; timer := nextTimer s |}
          ∧ crashed s2 = false) as (Hsock2 & Hrs2 & Hsent2 & He2 & Hrun2).
  { subst s2. unfold_sendCommand s1. rewrite Hopen. subst s1. simpl.
    rewrite JsMapFacts.get_set_eq. eauto 10. }
  assert (s' = on_close old s2) as ->.
  { subst s'. simpl. unfold step at 3. rewrite Hrun. fold s1.
    unfold step at 2. replace (crashed s1) with false by done. simpl. fold s2.
    unfold step. by rewrite Hrun2. }
  unfold on_close.
  set (s3 := match extensionSocket _ with Some _ => _ | None => _ end).
  assert (s3 = set_readyState (<[old := CLOSED]> (readyState s2)) s2) as Hs3.
  { subst s3. simpl. rewrite Hsock2. destruct (Nat.eqb_spec new old); [congruence | done]. }
  assert (wf s3) as W3 by (rewrite Hs3; by apply wf_set_readyState).
  destruct (reject_each_keeps_socket "Extension disconnected" (pendingCommands s3) s3)
    as (Hk1 & Hk2 & Hk3).
  split; [by rewrite Hk1, Hs3 |]. split; [| split; [| split]].
  - unfold socket_open. rewrite Hk1, Hk2, Hs3. simpl. rewrite Hsock2, Hrs2.
    rewrite lookup_insert_ne by done. by rewrite lookup_insert_eq.
  - rewrite Hk3, Hs3. exact Hsent2.
  - by apply wf_reject_each.
  - assert (JsMap.get id (pendingCommands s3)
            = Some {| promise := nextPromise s; timer := nextTimer s |}) as He3
      by by rewrite Hs3.
    destruct (reject_each_settles "Extension disconnected" _ s3 W3 eq_refl id _ He3)
      as [Hcalls _].
    simpl in Hcalls. unfold outcome. by rewrite Hcalls.
Qed.

Lemma stale_close_rejects_commands_of_the_new_socket_witness :
  let s' := run (run init [Connection 1%nat])
              [Connection 2%nat; SendCommand "u-3" (Js.Str "click") [];
               Close 1%nat] in
  socket_open s' = true
  ∧ outcome 0%nat s' = Some (Rejected "Extension disconnected").
Proof.
  intros s'.
  pose proof (stale_close_rejects_commands_of_the_new_socket
                (run init [Connection 1%nat]) 1%nat 2%nat "u-3" (Js.Str "click") []
                (ex_intro _ _ eq_refl) eq_refl ltac:(discriminate))
    as (_ & Hopen & _ & _ & Hout).
  split; [exact Hopen | exact Hout].
Defined.

(** X5.  While the extension is not connected, [POST /command] never
    touches the table, the timers or the socket: a request without a truthy
    [action] is answered 400 [Missing 'action' field] with the state as it
    was; any other request is rejected by [sendCommand] within the call and
    answered 503 with [Chrome extension is not connected]. *)
Theorem post_command_without_peer
    (s : State) (id : string) (req_body : Js.object) :
  reachable s →
  socket_open s = false →
  let r := post_command id req_body s in
  pendingCommands (fst r) = pendingCommands s
  ∧ timers (fst r) = timers s
  ∧ sent (fst r) = sent s
  ∧ match snd r with
    | inl response =>
        Js.truthy (Js.get "action" req_body) = false
        ∧ fst r = s
        ∧ response = {| status := 400;
                        body := [("success", Js.Bool false);
                                 ("error", Js.Str "Missing 'action' field")] |}
    | inr p =>
        Js.truthy (Js.get "action" req_body) = true
        ∧ outcome p (fst r) = Some (Rejected "Chrome extension is not connected")
        ∧ respond (Rejected "Chrome extension is not connected")
          = {| status := 503;
               body := [("success", Js.Bool false);
                        ("error", Js.Str "Chrome extension is not connected")] |}
    end.
Proof.
  intros Hreach Hclosed r. pose proof (wf_reachable s Hreach) as W.
  subst r. unfold post_command.
  destruct (Js.truthy (Js.get "action" req_body)) eqn:Haction; simpl; [| done].
  unfold_sendCommand s. rewrite Hclosed. simpl.
  repeat (split; [done |]). split; [| done].
  unfold outcome. rewrite calls_on_settle_eq.
  change (calls_on (nextPromise s) (set_nextPromise _ s))
    with (calls_on (nextPromise s) s).
  by rewrite (wf_unborn s W).
Qed.

Lemma post_command_without_peer_witness :
  let r := post_command "u-1" [("action", Js.Str "navigate");
                               ("url", Js.Str "example.com")] init in
  sent (fst r) = [] ∧ snd r = inr 0%nat
  ∧ outcome 0%nat (fst r) = Some (Rejected "Chrome extension is not connected").
Proof.
  intros r.
  pose proof (post_command_without_peer init "u-1"
                [("action", Js.Str "navigate"); ("url", Js.Str "example.com")]
                (ex_intro _ [] eq_refl) eq_refl) as (_ & _ & Hsent & Hres).
  split; [exact Hsent |]. split; [reflexivity |]. exact (proj1 (proj2 Hres)).
Defined.

(** X6.  The envelope is built as [{ id, action, ...params }], so an [id]
    among the parameters replaces the correlation id in the frame that is
    sent, while the table keeps the command under the correlation id.  A
    reply that echoes the id of the frame is then dropped unless that id
    happens to be a key of the table, and the caller is left to the
    timeout. *)
Theorem body_id_replaces_correlation_id
    (s : State) (sock : nat) (id : string) (req_body reply : Js.object)
    (v : Js.value) :
  extensionSocket s = Some sock →
  readyState s !! sock = Some OPEN →
  crashed s = false →
  Js.truthy (Js.get "action" req_body) = true →
  NoDup (List.map fst req_body) →
  "id" ∈ List.map fst req_body →
  Js.get "id" req_body = v →
  let r := post_command id req_body s in
  unmatched [("id", v)] (fst r) = true →
  Js.get "id" reply = v →
  (∃ payload, sent (fst r) = (sent s ++ [(sock, Js.Obj payload)])%list
              ∧ Js.get "id" payload = v)
  ∧ JsMap.has id (pendingCommands (fst r)) = true
  ∧ step (fst r) (Message sock (Parsed (Js.Obj reply))) = fst r.
Proof.
  intros Hsock Hstate Hrun Haction Hnd Hin Hv r Hun Hreply.
  assert (socket_open s = true) as Hopen.
  { unfold socket_open. by rewrite Hsock, Hstate. }
  assert (NoDup (List.map fst (Js.without "action" req_body))
          ∧ "id" ∈ List.map fst (Js.without "action" req_body)
          ∧ Js.get "id" (Js.without "action" req_body) = v) as (Hnd' & Hin' & Hv').
  { split; [by apply JsFacts.NoDup_without | split].
    - by apply JsFacts.keys_without_ne.
    - by rewrite JsFacts.get_without_ne. }
  assert (fst r = fst (sendCommand id (Js.get "action" req_body)
                         (Js.without "action" req_body) s)) as Hfst.
  { subst r. unfold post_command. rewrite Haction. simpl.
    by destruct (sendCommand _ _ _ _). }
  split; [| split].
  - rewrite Hfst. unfold_sendCommand s. rewrite Hopen. simpl. rewrite Hsock. simpl.
    eexists. split; [done |].
    by rewrite JsFacts.get_spread_present.
  - rewrite Hfst. unfold_sendCommand s. rewrite Hopen. simpl. rewrite Hsock. simpl.
    unfold JsMap.has. by rewrite JsMapFacts.get_set_eq.
  - apply BridgeSpec.unmatched_frame_ignored.
    unfold unmatched in *. simpl in Hun. by rewrite Hreply.
Qed.

Lemma body_id_replaces_correlation_id_witness :
  let s := run init [Connection 1%nat] in
  let r := post_command "u-1" [("action", Js.Str "click"); ("id", Js.Str "submit")] s in
  let reply := [("id", Js.Str "submit"); ("success", Js.Bool true)] in
  sent (fst r) = [(1%nat, Js.Obj [("id", Js.Str "submit"); ("action", Js.Str "click")])]
  ∧ step (fst r) (Message 1%nat (Parsed (Js.Obj reply))) = fst r.
Proof.
  intros s r reply.
  pose proof (body_id_replaces_correlation_id s 1%nat "u-1"
                [("action", Js.Str "click"); ("id", Js.Str "submit")] reply
                (Js.Str "submit") eq_refl eq_refl eq_refl eq_refl
                (bool_decide_eq_true_1 (NoDup ["action"; "id"]) eq_refl)
                (bool_decide_eq_true_1 ("id" ∈ ["action"; "id"]) eq_refl)
                eq_refl eq_refl eq_refl) as (_ & _ & Hdrop).
  split; [reflexivity | exact Hdrop].
Defined.

End BridgeExtra.

(** ** More on the service worker: timers, alarms, spontaneous frames *)

Module WorkerExtra.

Section Timer.
Import Background.

Lemma send_keeps (data : Js.object) (s : State) :
  reconnectDelay (send data s) = reconnectDelay s
  ∧ timers (send data s) = timers s
  ∧ reconnectTimer (send data s) = reconnectTimer s
  ∧ ws (send data s) = ws s
  ∧ readyState (send data s) = readyState s
  ∧ nextSocket (send data s) = nextSocket s.
Proof.
  unfold send. destruct (ws s) eqn:Hws; [destruct (ws_open s) |]; simpl;
    rewrite ?Hws; done.
Qed.

Lemma scheduleReconnect_timers (s : State) :
  reconnectDelay (scheduleReconnect s) = reconnectDelay s
  ∧ reconnectTimer (scheduleReconnect s) = Some (nextTimer s)
  ∧ timers (scheduleReconnect s)
    = <[nextTimer s := now s + reconnectDelay s]>
        (match reconnectTimer s with
         | Some t => base.delete t (timers s)
         | None => timers s
         end).
Proof. unfold scheduleReconnect. by destruct (reconnectTimer s). Qed.

(** The delay stays between the floor and the ceiling. *)
Lemma delay_bounds_step (s : State) (e : Event) :
  (RECONNECT_BASE_MS <= reconnectDelay s <= RECONNECT_MAX_MS)%Z →
  (RECONNECT_BASE_MS <= reconnectDelay (step s e) <= RECONNECT_MAX_MS)%Z.
Proof.
  intros Hb.
  assert (∀ c s0, reconnectDelay (connect c s0) = reconnectDelay s0) as Hconnect.
  { intros c s0. unfold connect.
    destruct (match ws s0 with Some _ => _ | None => _ end); [done |].
    destruct c; [done |]. apply scheduleReconnect_timers. }
  destruct e as [c|sock v|sock|sock rs|env raw|j|t c| |dt]; cbn [step];
    try (by simpl).
  - by rewrite Hconnect.
  - unfold onopen. destruct (send_keeps [("type", Js.Str "extension_ready"); ("version", v)]
      (set_reconnectDelay RECONNECT_BASE_MS
         (set_readyState (<[sock:=OPEN]> (readyState s)) s))) as (-> & _).
    simpl. unfold RECONNECT_BASE_MS, RECONNECT_MAX_MS. lia.
  - unfold onclose. by destruct (scheduleReconnect_timers
      (set_ws None (set_readyState (<[sock:=CLOSED]> (readyState s)) s))) as (-> & _).
  - unfold onmessage. destruct (Executor.onmessage env raw); simpl; try done.
    by destruct (send_keeps data s) as (-> & _).
  - unfold resume. destruct (jobs s !! j); [| done].
    by destruct (send_keeps o (set_jobs (base.delete j (jobs s)) (nextJob s) s))
      as (-> & _).
  - unfold timer_fire. destruct (timers s !! t); [| done].
    destruct (Z.leb _ _); [| done]. unfold on_reconnect_timer. rewrite Hconnect.
    simpl. unfold RECONNECT_BASE_MS, RECONNECT_MAX_MS in *. lia.
  - unfold keepalive. destruct (ws_open s); [| done].
    by destruct (send_keeps [("type", Js.Str "ping")] s) as (-> & _).
Qed.

(** X8.  Whatever happens to the worker, [reconnectDelay] stays between
    [RECONNECT_BASE_MS] and [RECONNECT_MAX_MS], and so does every delay it
    hands to [setTimeout]. *)
Theorem reconnectDelay_stays_within_bounds (tr : list Event) :
  (1000 <= reconnectDelay (run init tr) <= 30000)%Z
  ∧ Forall (fun d => 1000 <= d <= 30000)%Z (scheduled (run init tr)).
Proof.
  assert (∀ s, (RECONNECT_BASE_MS <= reconnectDelay s <= RECONNECT_MAX_MS)%Z →
               Forall (fun d => RECONNECT_BASE_MS <= d <= RECONNECT_MAX_MS)%Z (scheduled s) →
               (RECONNECT_BASE_MS <= reconnectDelay (run s tr) <= RECONNECT_MAX_MS)%Z
               ∧ Forall (fun d => RECONNECT_BASE_MS <= d <= RECONNECT_MAX_MS)%Z
                   (scheduled (run s tr))) as Hrun.
  { induction tr as [|e tr IH]; intros s Hb Hs; [done |].
    simpl. apply IH; [by apply delay_bounds_step |].
    assert (∀ s0, (RECONNECT_BASE_MS <= reconnectDelay s0 <= RECONNECT_MAX_MS)%Z →
                  Forall (fun d => RECONNECT_BASE_MS <= d <= RECONNECT_MAX_MS)%Z (scheduled s0) →
                  Forall (fun d => RECONNECT_BASE_MS <= d <= RECONNECT_MAX_MS)%Z
                    (scheduled (scheduleReconnect s0))) as Hsched.
    { intros s0 Hb0 Hs0. unfold scheduleReconnect.
      destruct (reconnectTimer s0); simpl; apply Forall_app; split; try done;
        by apply Forall_singleton. }
    assert (∀ data s0, scheduled (send data s0) = scheduled s0) as Hsend.
    { intros data s0. unfold send. destruct (ws s0); [| done]. by destruct (ws_open s0). }
    assert (∀ c s0, (RECONNECT_BASE_MS <= reconnectDelay s0 <= RECONNECT_MAX_MS)%Z →
                    Forall (fun d => RECONNECT_BASE_MS <= d <= RECONNECT_MAX_MS)%Z (scheduled s0) →
                    Forall (fun d => RECONNECT_BASE_MS <= d <= RECONNECT_MAX_MS)%Z
                      (scheduled (connect c s0))) as Hconnect.
    { intros c s0 Hb0 Hs0. unfold connect.
      destruct (match ws s0 with Some _ => _ | None => _ end); [done |].
      destruct c; [done |]. by apply Hsched. }
    destruct e as [c|sock v|sock|sock rs|env raw|j|t c| |dt]; cbn [step];
    try (by simpl).
    - by apply Hconnect.
    - unfold onopen. by rewrite Hsend.
    - unfold onclose. by apply Hsched.
    - unfold onmessage. destruct (Executor.onmessage env raw); simpl; try done.
      by rewrite Hsend.
    - unfold resume. destruct (jobs s !! j); [| done]. by rewrite Hsend.
    - unfold timer_fire. destruct (timers s !! t); [| done].
      destruct (Z.leb _ _); [| done]. unfold on_reconnect_timer.
      apply Hconnect; simpl; [| done].
      unfold RECONNECT_BASE_MS, RECONNECT_MAX_MS in *. lia.
    - unfold keepalive. destruct (ws_open s); [| done]. by rewrite Hsend. }
  apply (Hrun init).
  - simpl. unfold RECONNECT_BASE_MS, RECONNECT_MAX_MS. lia.
  - by apply Forall_nil.
Qed.

(** Only the timer that [reconnectTimer] names can be armed. *)
Lemma one_timer_step (s : State) (e : Event) :
  (∀ t due, timers s !! t = Some due → reconnectTimer s = Some t) →
  ∀ t due, timers (step s e) !! t = Some due → reconnectTimer (step s e) = Some t.
Proof.
  intros Hone.
  assert (∀ s0, (∀ t due, timers s0 !! t = Some due → reconnectTimer s0 = Some t) →
                ∀ t due, timers (scheduleReconnect s0) !! t = Some due →
                         reconnectTimer (scheduleReconnect s0) = Some t) as Hsched.
  { intros s0 H0 t due. destruct (scheduleReconnect_timers s0) as (_ & -> & ->).
    intros Ht. apply lookup_insert_Some in Ht as [[<- _]|[Hne Ht]]; [done |].
    destruct (reconnectTimer s0) as [t0|] eqn:Hrt.
    - apply lookup_delete_Some in Ht as [Hne' Ht]. apply H0 in Ht. congruence.
    - apply H0 in Ht. congruence. }
  assert (∀ c s0, (∀ t due, timers s0 !! t = Some due → reconnectTimer s0 = Some t) →
                  ∀ t due, timers (connect c s0) !! t = Some due →
                           reconnectTimer (connect c s0) = Some t) as Hconnect.
  { intros c s0 H0. unfold connect.
    destruct (match ws s0 with Some _ => _ | None => _ end); [done |].
    destruct c; [exact H0 |]. by apply Hsched. }
  assert (∀ data s0, (∀ t due, timers s0 !! t = Some due → reconnectTimer s0 = Some t) →
                     ∀ t due, timers (send data s0) !! t = Some due →
                              reconnectTimer (send data s0) = Some t) as Hsend.
  { intros data s0 H0 t due. destruct (send_keeps data s0) as (_ & -> & -> & _).
    apply H0. }
  destruct e as [c|sock v|sock|sock rs|env raw|j|t' c| |dt]; cbn [step];
    try exact Hone.
  - by apply Hconnect.
  - unfold onopen. by apply Hsend.
  - unfold onclose. by apply Hsched.
  - unfold onmessage. destruct (Executor.onmessage env raw); try exact Hone.
    by apply Hsend.
  - unfold resume. destruct (jobs s !! j); [| exact Hone]. by apply Hsend.
  - unfold timer_fire. destruct (timers s !! t') eqn:Ht'; [| exact Hone].
    destruct (Z.leb _ _); [| exact Hone]. unfold on_reconnect_timer.
    apply Hconnect. simpl. intros t due Ht.
    apply lookup_delete_Some in Ht as [_ Ht]. by apply Hone in Ht.
  - unfold keepalive. destruct (ws_open s); [| exact Hone]. by apply Hsend.
Qed.

(** X9.  [scheduleReconnect] clears the timer it armed before, so at no
    moment are two reconnect timers armed: whatever happens to the worker,
    an armed timer is the one that [reconnectTimer] holds. *)
Theorem at_most_one_reconnect_timer (tr : list Event) (t t' : nat) (due due' : Z) :
  timers (run init tr) !! t = Some due →
  timers (run init tr) !! t' = Some due' →
  t = t' ∧ reconnectTimer (run init tr) = Some t.
Proof.
  assert (∀ s, (∀ t due, timers s !! t = Some due → reconnectTimer s = Some t) →
               ∀ t due, timers (run s tr) !! t = Some due →
                        reconnectTimer (run s tr) = Some t) as Hrun.
  { induction tr as [|e tr IH]; intros s Hs; [done |].
    simpl. apply IH. by apply one_timer_step. }
  assert (∀ t due, timers (run init tr) !! t = Some due →
                   reconnectTimer (run init tr) = Some t) as Hone.
  { apply Hrun. intros t0 due0 H0. simpl in H0. by rewrite lookup_empty in H0. }
  intros Ht Ht'. pose proof (Hone _ _ Ht) as H1. pose proof (Hone _ _ Ht') as H2.
  split; [congruence | done].
Qed.

Lemma at_most_one_reconnect_timer_witness :
  let tr := [Connect true; Close 0; Connect false; Close 0] in
  reconnectTimer (run init tr) = Some 3%nat.
Proof.
  intros tr.
  exact (proj2 (at_most_one_reconnect_timer tr 3 3 1000 1000 eq_refl eq_refl)).
Defined.

(** X10.  A [connect()] that has just created a socket makes the next
    [connect()] a no-op: the start-up call and the [onStartup] and
    [onInstalled] listeners together open one socket, in both variants of
    the worker. *)
Theorem connect_twice_opens_one_socket
    (c : bool) (s : State) (a : BackgroundAlarm.State) :
  connect c (connect true s) = connect true s
  ∧ BackgroundAlarm.connect c (BackgroundAlarm.connect true a)
    = BackgroundAlarm.connect true a
  ∧ (nextSocket (connect c (connect true s)) ≤ S (nextSocket s))%nat.
Proof.
  assert (connect c (connect true s) = connect true s) as H1.
  { unfold connect at 2.
    destruct (match ws s with Some _ => _ | None => _ end) eqn:Hbusy.
    - unfold connect. by rewrite Hbusy.
    - unfold connect. cbn. by rewrite Hbusy, lookup_insert_eq. }
  split; [exact H1 | split].
  - unfold BackgroundAlarm.connect at 2.
    destruct (match BackgroundAlarm.ws a with Some _ => _ | None => _ end) eqn:Hbusy.
    + unfold BackgroundAlarm.connect. by rewrite Hbusy.
    + unfold BackgroundAlarm.connect. cbn. by rewrite Hbusy, lookup_insert_eq.
  - rewrite H1. unfold connect.
    destruct (match ws s with Some _ => _ | None => _ end); simpl; lia.
Qed.

(** [send] writes at most the frame it is given. *)
Lemma frames_since_send (before s : State) (data : Js.object) :
  sent s = sent before →
  frames_since before (send data s) = [Js.Obj data]
  ∨ frames_since before (send data s) = [].
Proof.
  intros Hs. unfold frames_since, send.
  destruct (ws s) as [sock|]; [destruct (ws_open s) |]; simpl;
    rewrite <- Hs, ?skipn_all; auto.
  left. by rewrite skipn_app, skipn_all, Nat.sub_diag.
Qed.

End Timer.

Section Alarm.
Import BackgroundAlarm.

Lemma frames_since_send_alarm (before s : State) (data : Js.object) :
  sent s = sent before →
  frames_since before (send data s) = [Js.Obj data]
  ∨ frames_since before (send data s) = [].
Proof.
  intros Hs. unfold frames_since, send.
  destruct (ws s) as [sock|]; [destruct (ws_open s) |]; simpl;
    rewrite <- Hs, ?skipn_all; auto.
  left. by rewrite skipn_app, skipn_all, Nat.sub_diag.
Qed.

Lemma send_alarms (data : Js.object) (s : State) :
  alarms (send data s) = alarms s ∧ ws (send data s) = ws s.
Proof.
  unfold send. destruct (ws s) eqn:Hws; [destruct (ws_open s) |]; simpl;
    rewrite ?Hws; done.
Qed.

(** The two alarms the worker knows, with their schedules *)
Lemma known_alarms_step (s : State) (e : Event) :
  (∀ name info, alarms s !! name = Some info →
     (name = RECONNECT_ALARM ∧ info = reconnect_info)
     ∨ (name = KEEPALIVE_ALARM ∧ info = keepalive_info)) →
  ∀ name info, alarms (step s e) !! name = Some info →
    (name = RECONNECT_ALARM ∧ info = reconnect_info)
    ∨ (name = KEEPALIVE_ALARM ∧ info = keepalive_info).
Proof.
  intros Hk.
  assert (∀ s0, (∀ name info, alarms s0 !! name = Some info →
                   (name = RECONNECT_ALARM ∧ info = reconnect_info)
                   ∨ (name = KEEPALIVE_ALARM ∧ info = keepalive_info)) →
                ∀ name info, alarms (ensureReconnectAlarm s0) !! name = Some info →
                   (name = RECONNECT_ALARM ∧ info = reconnect_info)
                   ∨ (name = KEEPALIVE_ALARM ∧ info = keepalive_info)) as Hensure.
  { intros s0 H0 name info. unfold ensureReconnectAlarm.
    destruct (alarms s0 !! RECONNECT_ALARM); [apply H0 |]. simpl.
    intros H. apply lookup_insert_Some in H as [[<- <-]|[_ H]]; [by left | by apply H0]. }
  assert (∀ name0 s0, (∀ name info, alarms s0 !! name = Some info →
                   (name = RECONNECT_ALARM ∧ info = reconnect_info)
                   ∨ (name = KEEPALIVE_ALARM ∧ info = keepalive_info)) →
                ∀ name info, alarms (alarms_clear name0 s0) !! name = Some info →
                   (name = RECONNECT_ALARM ∧ info = reconnect_info)
                   ∨ (name = KEEPALIVE_ALARM ∧ info = keepalive_info)) as Hclear.
  { intros name0 s0 H0 name info. simpl. intros H.
    apply lookup_delete_Some in H as [_ H]. by apply H0. }
  assert (∀ c s0, (∀ name info, alarms s0 !! name = Some info →
                   (name = RECONNECT_ALARM ∧ info = reconnect_info)
                   ∨ (name = KEEPALIVE_ALARM ∧ info = keepalive_info)) →
                ∀ name info, alarms (connect c s0) !! name = Some info →
                   (name = RECONNECT_ALARM ∧ info = reconnect_info)
                   ∨ (name = KEEPALIVE_ALARM ∧ info = keepalive_info)) as Hconnect.
  { intros c s0 H0. unfold connect.
    destruct (match ws s0 with Some _ => _ | None => _ end); [done |].
    destruct c; [exact H0 |]. by apply Hensure. }
  destruct e as [c|sock v|sock|sock rs|env raw|j|name0 c]; cbn [step];
    try exact Hk.
  - by apply Hconnect.
  - unfold onopen. intros name info.
    match goal with |- alarms (send ?d ?x) !! _ = _ → _ =>
      destruct (send_alarms d x) as [-> _] end.
    simpl. intros H. apply lookup_insert_Some in H as [[<- <-]|[_ H]]; [by right |].
    apply lookup_delete_Some in H as [_ H]. by apply Hk.
  - unfold onclose. apply Hensure, Hclear. exact Hk.
  - unfold onmessage. destruct (Executor.onmessage env raw); try exact Hk.
    intros name info. destruct (send_alarms data s) as [-> _]. apply Hk.
  - unfold resume. destruct (jobs s !! j); [| exact Hk].
    intros name info.
    match goal with |- alarms (send ?d ?x) !! _ = _ → _ =>
      destruct (send_alarms d x) as [-> _] end.
    apply Hk.
  - unfold onAlarm.
    set (s1 := if String.eqb name0 RECONNECT_ALARM then connect c s else s).
    assert (∀ name info, alarms s1 !! name = Some info →
              (name = RECONNECT_ALARM ∧ info = reconnect_info)
              ∨ (name = KEEPALIVE_ALARM ∧ info = keepalive_info)) as H1.
    { subst s1. destruct (String.eqb name0 RECONNECT_ALARM); [by apply Hconnect | done]. }
    destruct (String.eqb name0 KEEPALIVE_ALARM); [| exact H1].
    destruct (ws_open s1).
    + intros name info. destruct (send_alarms [("type", Js.Str "ping")] s1) as [-> _].
      apply H1.
    + by apply Hensure, Hclear.
Qed.

(** X11.  The worker only ever arms two alarms, each with one schedule:
    [zeroclaw-reconnect] with delay and period 0.08 min and
    [zeroclaw-keepalive] with period 0.4 min.  No sequence of events makes it
    create another alarm or re-create one of these with another schedule. *)
Theorem alarms_are_the_two_known (tr : list Event) (name : string) (info : AlarmInfo) :
  alarms (run init tr) !! name = Some info →
  (name = "zeroclaw-reconnect"
   ∧ info = {| delayInMinutes := Some (8 # 100)%Q; periodInMinutes := Some (8 # 100)%Q |})
  ∨ (name = "zeroclaw-keepalive"
     ∧ info = {| delayInMinutes := None; periodInMinutes := Some (4 # 10)%Q |}).
Proof.
  assert (∀ s, (∀ name info, alarms s !! name = Some info →
                  (name = RECONNECT_ALARM ∧ info = reconnect_info)
                  ∨ (name = KEEPALIVE_ALARM ∧ info = keepalive_info)) →
               ∀ name info, alarms (run s tr) !! name = Some info →
                  (name = RECONNECT_ALARM ∧ info = reconnect_info)
                  ∨ (name = KEEPALIVE_ALARM ∧ info = keepalive_info)) as Hrun.
  { induction tr as [|e tr IH]; intros s Hs; [done |].
    simpl. apply IH. by apply known_alarms_step. }
  apply Hrun. intros name0 info0 H0. simpl in H0. by rewrite lookup_empty in H0.
Qed.

Lemma alarms_are_the_two_known_witness :
  let tr := [Connect true; Open 0 (Js.Str "1.0.0"); Close 0; Alarm "zeroclaw-reconnect" true;
             Open 1 (Js.Str "1.0.0")] in
  alarms (run init tr) !! "zeroclaw-keepalive"
  = Some {| delayInMinutes := None; periodInMinutes := Some (4 # 10)%Q |}.
Proof.
  intros tr.
  destruct (alarms_are_the_two_known tr "zeroclaw-keepalive"
              {| delayInMinutes := None; periodInMinutes := Some (4 # 10)%Q |} eq_refl)
    as [[H _]|[_ H]]; [discriminate H | reflexivity].
Defined.

(** X12.  When the keep-alive alarm goes off and the socket is open, the
    worker sends one ping and leaves the alarms alone.  When the socket is
    not open it sends nothing and switches to reconnect polling: the
    keep-alive alarm is cleared and the reconnect alarm is armed; no
    connection attempt is made at that moment. *)
Theorem keepalive_alarm_pings_or_switches_to_polling (c : bool) (s : State) :
  let s' := onAlarm KEEPALIVE_ALARM c s in
  if ws_open s then
    (∃ sock, ws s = Some sock
             ∧ sent s' = (sent s ++ [(sock, Js.Obj [("type", Js.Str "ping")])])%list)
    ∧ alarms s' = alarms s
  else
    sent s' = sent s
    ∧ alarms s' !! KEEPALIVE_ALARM = None
    ∧ is_Some (alarms s' !! RECONNECT_ALARM)
    ∧ ws s' = ws s
    ∧ nextSocket s' = nextSocket s.
Proof.
  intros s'. subst s'. unfold onAlarm.
  replace (String.eqb KEEPALIVE_ALARM RECONNECT_ALARM) with false by done.
  rewrite String.eqb_refl.
  destruct (ws_open s) eqn:Hopen.
  - unfold send. rewrite Hopen. unfold ws_open in Hopen.
    destruct (ws s) as [sock|]; [| done]. simpl. eauto.
  - unfold ensureReconnectAlarm. cbn [alarms alarms_clear].
    assert (RECONNECT_ALARM ≠ KEEPALIVE_ALARM) as Hne by done.
    rewrite lookup_delete_ne by done.
    destruct (alarms s !! RECONNECT_ALARM) eqn:Ha; cbn.
    + rewrite lookup_delete_eq, lookup_delete_ne, Ha by done. eauto.
    + rewrite lookup_insert_ne, lookup_delete_eq, lookup_insert_eq by done. eauto.
Qed.

End Alarm.

(** X7.  The frames that the worker sends of its own accord -- the
    [extension_ready] announcement on opening, the keep-alive ping, and the
    [{success: false, error}] answer to a frame it cannot parse -- are all
    dropped by the bridge server: they change nothing of its state, whatever
    commands are pending. *)
Theorem worker_control_frames_do_not_settle_commands
    (w : Background.State) (a : BackgroundAlarm.State) (sock : nat)
    (version : Js.value) (env : Chrome.Env) (name : string) (c : bool)
    (s : Bridge.State) (from : nat) (frame : Js.value) :
  In frame
     (Background.frames_since w (Background.onopen sock version w)
      ++ Background.frames_since w (Background.keepalive w)
      ++ Background.frames_since w (Background.onmessage env Invalid w)
      ++ BackgroundAlarm.frames_since a (BackgroundAlarm.onopen sock version a)
      ++ BackgroundAlarm.frames_since a (BackgroundAlarm.onAlarm name c a)
      ++ BackgroundAlarm.frames_since a (BackgroundAlarm.onmessage env Invalid a))%list →
  Bridge.step s (Bridge.Message from (Parsed (Js.json_roundtrip frame))) = s.
Proof.
  assert (∀ f, (f = Js.Obj [("type", Js.Str "extension_ready"); ("version", version)]
                ∨ f = Js.Obj [("type", Js.Str "ping")]
                ∨ f = Js.Obj [("success", Js.Bool false);
                              ("error", Js.Str "Invalid JSON from bridge server")]) →
               Bridge.step s (Bridge.Message from (Parsed (Js.json_roundtrip f))) = s)
    as Hdrop.
  { intros f Hf. unfold Bridge.step. destruct (Bridge.crashed s); [done |].
    destruct Hf as [->|[->| ->]]; [| done | done].
    by destruct version. }
  assert (∀ (l : list Js.value) f other, (l = [f] ∨ l = []) → In other l → other = f)
    as Hone.
  { intros l f other [->| ->] Hin; simpl in Hin; [| done]. by destruct Hin. }
  rewrite !in_app_iff. intros [H|[H|[H|[H|[H|H]]]]]; apply Hdrop.
  - left. eapply Hone; [| exact H]. unfold Background.onopen.
    by apply frames_since_send.
  - right. left. revert H. unfold Background.keepalive.
    destruct (Background.ws_open w).
    + intros H. eapply Hone; [| exact H]. by apply frames_since_send.
    + unfold Background.frames_since. by rewrite skipn_all.
  - right. right. eapply Hone; [| exact H]. unfold Background.onmessage. simpl.
    by apply frames_since_send.
  - left. eapply Hone; [| exact H]. unfold BackgroundAlarm.onopen.
    by apply frames_since_send_alarm.
  - right. left. revert H. unfold BackgroundAlarm.onAlarm.
    set (s1 := if String.eqb name BackgroundAlarm.RECONNECT_ALARM
               then BackgroundAlarm.connect c a else a).
    assert (BackgroundAlarm.sent s1 = BackgroundAlarm.sent a) as Hs1.
    { subst s1. destruct (String.eqb name BackgroundAlarm.RECONNECT_ALARM); [| done].
      unfold BackgroundAlarm.connect.
      destruct (match BackgroundAlarm.ws a with Some _ => _ | None => _ end); [done |].
      destruct c; [done |]. unfold BackgroundAlarm.ensureReconnectAlarm.
      by destruct (BackgroundAlarm.alarms a !! _). }
    assert (∀ x, BackgroundAlarm.sent x = BackgroundAlarm.sent a →
                 In frame (BackgroundAlarm.frames_since a x) → False) as Hnone.
    { intros x Hx. unfold BackgroundAlarm.frames_since. by rewrite Hx, skipn_all. }
    destruct (String.eqb name BackgroundAlarm.KEEPALIVE_ALARM).
    + destruct (BackgroundAlarm.ws_open s1).
      * intros H. eapply Hone; [| exact H]. by apply frames_since_send_alarm.
      * intros H. exfalso. eapply Hnone; [| exact H].
        unfold BackgroundAlarm.ensureReconnectAlarm. cbn.
        by destruct (_ !! _).
    + intros H. exfalso. by eapply Hnone.
  - right. right. eapply Hone; [| exact H]. unfold BackgroundAlarm.onmessage. simpl.
    by apply frames_since_send_alarm.
Qed.

Lemma worker_control_frames_do_not_settle_commands_witness :
  let w := Background.run Background.init
             [Background.Connect true; Background.Open 0 (Js.Str "1.0.0")] in
  let s := Bridge.run Bridge.init
             [Bridge.Connection 1%nat;
              Bridge.SendCommand "u-1" (Js.Str "get_title") []] in
  Bridge.step s (Bridge.Message 1%nat (Parsed (Js.Obj [("type", Js.Str "ping")]))) = s.
Proof.
  intros w s.
  exact (worker_control_frames_do_not_settle_commands w BackgroundAlarm.init 0%nat
           (Js.Str "1.0.0") Sample.browser "zeroclaw-keepalive" true s 1%nat
           (Js.Obj [("type", Js.Str "ping")])
           ltac:(vm_compute; tauto)).
Defined.

End WorkerExtra.

(** ** More on the executor: errors, the missing tab, injection *)

Module ExecutorExtra.
Import Chrome Executor.

(** X13.  A navigate command without a usable [url] (absent, empty, or
    otherwise falsy) is refused before any browser call: the worker's reply
    is [{id, success: false, error: "navigate requires a 'url'
    parameter"}], with the id of the command. *)
Theorem navigate_requires_url (env : Env) (o : Js.object) :
  Js.get "action" o = Js.Str "navigate" →
  Js.truthy (Js.get "url" o) = false →
  Executor.onmessage env (Parsed (Js.Obj o))
  = SendLater [] [("id", Js.get "id" o); ("success", Js.Bool false);
                  ("error", Js.Str "navigate requires a 'url' parameter")].
Proof.
  intros Haction Hurl. rewrite ExecutorSpec.onmessage_object.
  unfold answer, handleCommand. rewrite Haction. simpl.
  unfold navigate. rewrite !JsFacts.get_without_ne by done. by rewrite Hurl.
Qed.

Lemma navigate_requires_url_witness :
  Executor.onmessage Sample.browser
    (Parsed (Js.Obj [("id", Js.Str "u-4"); ("action", Js.Str "navigate");
                     ("url", Js.Str "")]))
  = SendLater [] [("id", Js.Str "u-4"); ("success", Js.Bool false);
                  ("error", Js.Str "navigate requires a 'url' parameter")].
Proof.
  exact (navigate_requires_url Sample.browser
           [("id", Js.Str "u-4"); ("action", Js.Str "navigate"); ("url", Js.Str "")]
           eq_refl eq_refl).
Defined.

(** X14.  With no [tabId] and no active tab in the current window, every
    action other than navigate fails with [No active tab found] after the
    one [chrome.tabs.query]: nothing is injected, captured or sent to a
    page.  Navigate alone goes on, and creates a tab for the target URL. *)
Theorem no_active_tab (env : Env) (a : string) (params : Js.object) :
  Js.truthy (Js.get "tabId" params) = false →
  query env active_query = Js.Normal [] →
  existsb (String.eqb a)
    ["screenshot"; "get_title"; "click"; "fill"; "scrape"; "scroll"; "hover";
     "get_text"] = true →
  handleCommand env (Js.Str a) params
  = ([tabs_query active_query], Js.Throw "No active tab found")
  ∧ ∀ u, Js.get "url" params = Js.Str u → Js.truthy (Js.Str u) = true →
         firstn 2 (fst (handleCommand env (Js.Str "navigate") params))
         = [tabs_query active_query; tabs_create [("url", Js.Str (targetUrl u))]].
Proof.
  intros Htab Hquery Ha. split.
  - simpl in Ha. rewrite !orb_true_iff in Ha.
    unfold handleCommand, Js.is_string.
    destruct Ha as [Ha|[Ha|[Ha|[Ha|[Ha|[Ha|[Ha|[Ha|Ha]]]]]]]]; [| | | | | | | | done];
      apply String.eqb_eq in Ha as ->; simpl;
      unfold screenshot, getTitle, forwardToContentScript, target_tab, call;
      rewrite Htab, Hquery; reflexivity.
  - intros u Hurl Hu.
    unfold handleCommand. simpl. unfold navigate. rewrite Hurl, Hu, Htab. cbn [negb].
    unfold call, waitForTabLoad. rewrite Hquery. cbn.
    destruct (create env _); cbn; [| done].
    destruct (navigationCompletes env _); cbn; [| done].
    by destruct (get env _).
Qed.

Lemma no_active_tab_witness :
  let env := {| update := update Sample.browser; query := fun _ => Js.Normal [];
                create := create Sample.browser; get := get Sample.browser;
                captureVisibleTab := captureVisibleTab Sample.browser;
                executeScript := executeScript Sample.browser;
                sendMessage := sendMessage Sample.browser;
                navigationCompletes := navigationCompletes Sample.browser |} in
  handleCommand env (Js.Str "click") [("selector", Js.Str "#go")]
  = ([tabs_query active_query], Js.Throw "No active tab found").
Proof.
  intros env.
  exact (proj1 (no_active_tab env "click" [("selector", Js.Str "#go")]
                  eq_refl eq_refl eq_refl)).
Defined.

(** X15.  [navigate] never reports success unless the completion of the
    navigation was observed: whenever it returns a result, it has waited on
    some tab whose main frame completed before the 30 s of
    [waitForTabLoad]; when that does not happen the command fails. *)
Theorem navigate_succeeds_only_after_load
    (env : Env) (params : Js.object) (result : Js.value) :
  snd (navigate env params) = Js.Normal result →
  ∃ tabId, In (webNavigation_onCompleted_addListener tabId) (fst (navigate env params))
           ∧ navigationCompletes env tabId = true.
Proof.
  unfold navigate. destruct (Js.truthy (Js.get "url" params)); [| done]. cbn [negb].
  destruct (Js.get "url" params) as [| | | |u| |]; try done.
  unfold waitForTabLoad, call, ret.
  destruct (Js.truthy (Js.get "tabId" params)); cbn.
  - destruct (update env _ _) as [tab|]; cbn; [| done].
    destruct (navigationCompletes env (id tab)) eqn:Hnav; cbn; [| done].
    intros _. exists (id tab). auto.
  - destruct (query env active_query) as [[|activeTab tabs]|]; cbn; [| | done].
    + destruct (create env _) as [tab|]; cbn; [| done].
      destruct (navigationCompletes env (id tab)) eqn:Hnav; cbn; [| done].
      destruct (get env _); cbn; [| done]. intros _. exists (id tab). auto.
    + destruct (update env _ _) as [tab|]; cbn; [| done].
      destruct (navigationCompletes env (id tab)) eqn:Hnav; cbn; [| done].
      destruct (get env _); cbn; [| done]. intros _. exists (id tab). auto.
Qed.

Lemma navigate_succeeds_only_after_load_witness :
  ∃ tabId,
    In (webNavigation_onCompleted_addListener tabId)
       (fst (navigate Sample.browser [("url", Js.Str "example.com")]))
    ∧ navigationCompletes Sample.browser tabId = true.
Proof.
  exact (navigate_succeeds_only_after_load Sample.browser
           [("url", Js.Str "example.com")] _ eq_refl).
Defined.

End ExecutorExtra.

(** ** The trip of a command from the REST route to [handleCommand] *)

Module RelayExtra.
Import Bridge.

Lemma set_absent (k : string) (v : Js.value) (o : Js.object) :
  k ∉ List.map fst o → Js.set k v o = (o ++ [(k, v)])%list.
Proof.
  induction o as [|[k0 v0] o IHo]; [done |].
  cbn [List.map fst]. rewrite not_elem_of_cons. intros [Hne Ho]. simpl.
  destruct (String.eqb_spec k k0); [done |]. by rewrite IHo.
Qed.

(** Spreading properties whose names are new and distinct appends them. *)
Lemma spread_disjoint (base extra : Js.object) :
  NoDup (List.map fst extra) →
  (∀ k, k ∈ List.map fst extra → k ∉ List.map fst base) →
  Js.spread base extra = (base ++ extra)%list.
Proof.
  unfold Js.spread. revert base.
  induction extra as [|[k v] extra IHextra]; intros base; simpl.
  - intros _ _. by rewrite app_nil_r.
  - rewrite NoDup_cons. intros [Hk Hnd] Hdisj.
    rewrite set_absent by (apply Hdisj; left).
    rewrite IHextra, <- app_assoc; [done | done |].
    intros k' Hk'. rewrite map_app, elem_of_app. simpl.
    rewrite list_elem_of_singleton. intros [Hin | ->]; [| done].
    by apply (Hdisj k'); [right |].
Qed.

Lemma without_absent (k : string) (o : Js.object) :
  k ∉ List.map fst o → Js.without k o = o.
Proof.
  unfold Js.without. induction o as [|[k0 v0] o IHo]; [done |].
  cbn [List.map fst]. rewrite not_elem_of_cons. intros [Hne Ho]. simpl.
  destruct (String.eqb_spec k0 k); [done |]. simpl. by rewrite IHo.
Qed.

Lemma without_own_key (k : string) (o : Js.object) :
  k ∉ List.map fst (Js.without k o).
Proof.
  unfold Js.without. induction o as [|[k0 v0] o IHo]; simpl; [apply not_elem_of_nil |].
  destruct (String.eqb_spec k0 k); simpl; [done |].
  rewrite not_elem_of_cons. split; [done | exact IHo].
Qed.

(** X17.  What the caller posts is what the executor runs.  For a JSON body
    with distinct keys, an action, and no [id] of its own, posted to
    [/command] while the extension is connected: the one frame sent, once
    through [JSON.stringify] and [JSON.parse], makes the worker call
    [handleCommand] with the body's action and with exactly the other
    properties of the body as parameters, and prepare a reply that carries
    the correlation id. *)
Theorem command_parameters_reach_the_executor
    (env : Chrome.Env) (s : State) (sock : nat) (id : string) (req_body : Js.object) :
  extensionSocket s = Some sock →
  readyState s !! sock = Some OPEN →
  Js.truthy (Js.get "action" req_body) = true →
  Js.is_json (Js.Obj req_body) = true →
  NoDup (List.map fst req_body) →
  "id" ∉ List.map fst req_body →
  let action := Js.get "action" req_body in
  let params := Js.without "action" req_body in
  ∃ payload,
    sent (fst (post_command id req_body s)) = (sent s ++ [(sock, payload)])%list
    ∧ Executor.onmessage env (Parsed (Js.json_roundtrip payload))
      = Executor.SendLater
          (fst (Executor.handleCommand env action params))
          (Executor.reply (Js.Str id) (snd (Executor.handleCommand env action params))).
Proof.
  intros Hsock Hstate Haction Hjson Hnd Hid action params.
  assert (socket_open s = true) as Hopen.
  { unfold socket_open. by rewrite Hsock, Hstate. }
  assert ("id" ∉ List.map fst params) as Hid'.
  { intros Hin. by apply JsFacts.keys_without_inv in Hin. }
  assert ("action" ∉ List.map fst params) as Hact' by apply without_own_key.
  assert (Js.spread [("id", Js.Str id); ("action", action)] params
          = ("id", Js.Str id) :: ("action", action) :: params) as Hspread.
  { rewrite spread_disjoint; [done | by apply JsFacts.NoDup_without |].
    intros k Hk. simpl. rewrite !not_elem_of_cons.
    split; [| split]; [by intros -> | by intros -> | apply not_elem_of_nil]. }
  exists (Js.Obj (("id", Js.Str id) :: ("action", action) :: params)). split.
  - unfold post_command. rewrite Haction. cbn [negb]. fold action params.
    BridgeFacts.unfold_sendCommand s. rewrite Hopen. simpl. rewrite Hsock. simpl.
    by rewrite Hspread.
  - rewrite JsFacts.json_roundtrip_id.
    2:{ rewrite !JsFacts.is_json_cons. apply andb_true_iff. split; [done |].
        apply andb_true_iff. split; [by apply JsFacts.is_json_get |].
        by apply JsFacts.is_json_without. }
    rewrite ExecutorSpec.onmessage_object. unfold Executor.answer.
    cbn [Js.get String.eqb Ascii.eqb Bool.eqb].
    assert (Js.without "action" (Js.without "id"
              (("id", Js.Str id) :: ("action", action) :: params)) = params) as ->; [| done].
    unfold Js.without at 2. cbn [List.filter fst String.eqb Ascii.eqb Bool.eqb negb].
    fold (Js.without "id" params). rewrite (without_absent "id") by done.
    unfold Js.without at 1. cbn [List.filter fst String.eqb Ascii.eqb Bool.eqb negb].
    fold (Js.without "action" params). by rewrite without_absent.
Qed.

Lemma command_parameters_reach_the_executor_witness :
  let s := run init [Connection 1%nat] in
  let req_body := [("action", Js.Str "fill"); ("selector", Js.Str "#q");
                   ("value", Js.Str "rocq"); ("submit", Js.Bool true)] in
  ∃ payload,
    sent (fst (post_command "u-1" req_body s)) = [(1%nat, payload)]
    ∧ Executor.onmessage Sample.browser (Parsed (Js.json_roundtrip payload))
      = Executor.SendLater
          (fst (Executor.handleCommand Sample.browser (Js.Str "fill")
                  [("selector", Js.Str "#q"); ("value", Js.Str "rocq");
                   ("submit", Js.Bool true)]))
          (Executor.reply (Js.Str "u-1")
             (snd (Executor.handleCommand Sample.browser (Js.Str "fill")
                     [("selector", Js.Str "#q"); ("value", Js.Str "rocq");
                      ("submit", Js.Bool true)]))).
Proof.
  intros s req_body.
  exact (command_parameters_reach_the_executor Sample.browser s 1%nat "u-1" req_body
           eq_refl eq_refl eq_refl eq_refl
           (bool_decide_eq_true_1 (NoDup ["action"; "selector"; "value"; "submit"]) eq_refl)
           (bool_decide_eq_true_1 ("id" ∉ ["action"; "selector"; "value"; "submit"]) eq_refl)).
Defined.

(** X18.  A failure reported by the extension reaches the REST caller
    verbatim.  While a command waits, the reply the worker builds for a
    thrown error [e] rejects the command's promise with [e] (with
    [Extension command failed] when [e] is empty), by the only call made on
    it; the route then answers [{success: false, error}] with status 500,
    or with status 503 whenever the message contains [not connected],
    although the extension is connected and has answered. *)
Theorem executor_failure_reaches_the_caller
    (s : State) (id : string) (action : Js.value) (params : Js.object)
    (tr : list Event) (sock : nat) (e : string) :
  reachable s →
  socket_open s = true →
  Js.truthy (Js.Str id) = true →
  fresh id s = true →
  forallb (fun ev => negb (touches id ev)) tr = true →
  crashed (run (fst (sendCommand id action params s)) tr) = false →
  (now (run (fst (sendCommand id action params s)) tr) < now s + COMMAND_TIMEOUT_MS)%Z →
  let p := snd (sendCommand id action params s) in
  let failure := Executor.reply (Js.Str id) (Js.Throw e) in
  let s3 := step (run (fst (sendCommand id action params s)) tr)
              (Message sock (Parsed (Js.json_roundtrip (Js.Obj failure)))) in
  let message := if String.eqb e "" then "Extension command failed" else e in
  calls_on p s3 = [Rejected message]
  ∧ respond (Rejected message)
    = {| status := if Js.includes "not connected" message then 503 else 500;
         body := [("success", Js.Bool false); ("error", Js.Str message)] |}.
Proof.
  intros Hreach Hopen Hid Hfresh Hquiet Hrun Hnow p failure s3 message.
  split; [| done].
  pose proof (BridgeFacts.wf_reachable s Hreach) as W.
  assert (crashed s = false) as Hrun0.
  { apply BridgeFacts.running_before in Hrun. revert Hrun.
    BridgeFacts.unfold_sendCommand s.
    rewrite Hopen. simpl. by destruct (extensionSocket s). }
  destruct (BridgeFacts.sendCommand_awaiting id action params s W Hopen Hrun0 Hfresh)
    as [A Hp].
  set (s2 := run (fst (sendCommand id action params s)) tr) in *.
  assert (awaiting id p (nextTimer s) (now s + COMMAND_TIMEOUT_MS) s2) as A2.
  { subst p s2. rewrite Hp. apply BridgeFacts.awaiting_run; try done.
    by apply BridgeFacts.wf_sendCommand. }
  assert (wf s2) as W2.
  { apply BridgeFacts.wf_run. by apply BridgeFacts.wf_sendCommand. }
  assert (id ≠ "") as Hne by (intros ->; done).
  assert (reply_to id failure = true) as Hreply.
  { unfold reply_to, failure. simpl. by rewrite String.eqb_refl. }
  destruct (BridgeFacts.awaiting_reply id p _ _ failure s2 W2 A2 Hne Hreply)
    as (Hcalls & _).
  subst s3. unfold step. rewrite Hrun.
  change (Js.json_roundtrip (Js.Obj failure)) with (Js.Obj failure).
  rewrite Hcalls. subst message failure. simpl. by destruct (String.eqb e "").
Qed.

Lemma executor_failure_reaches_the_caller_witness :
  let s := run init [Connection 7%nat] in
  let e := "Element not found: Server not connected" in
  let s3 := step (run (fst (sendCommand "u-1" (Js.Str "click")
                              [("selector", Js.Str "Server not connected")] s))
                    [Elapse 40%N])
              (Message 7%nat
                 (Parsed (Js.Obj [("id", Js.Str "u-1"); ("success", Js.Bool false);
                                  ("error", Js.Str e)]))) in
  calls_on 0%nat s3 = [Rejected e]
  ∧ status (respond (Rejected e)) = 503.
Proof.
  intros s e s3.
  pose proof (executor_failure_reaches_the_caller s "u-1" (Js.Str "click")
                [("selector", Js.Str "Server not connected")] [Elapse 40%N] 7%nat e
                (ex_intro _ [Connection 7%nat] eq_refl)
                eq_refl eq_refl eq_refl eq_refl eq_refl eq_refl) as [Hcalls Hresp].
  split; [exact Hcalls | exact (f_equal status Hresp)].
Defined.

(** X19.  A shortcut route passes the whole body as parameters, and the
    envelope is [{ id, action, ...params }]: an [action] property in the
    body of [POST /<route>] replaces the action of the route in the frame
    that is sent, so the extension runs the body's action. *)
Theorem shortcut_body_action_replaces_route
    (s : State) (sock : nat) (route id : string) (req_body : Js.object) :
  extensionSocket s = Some sock →
  readyState s !! sock = Some OPEN →
  NoDup (List.map fst req_body) →
  "action" ∈ List.map fst req_body →
  ∃ payload,
    sent (fst (post_shortcut route id req_body s)) = (sent s ++ [(sock, Js.Obj payload)])%list
    ∧ Js.get "action" payload = Js.get "action" req_body.
Proof.
  intros Hsock Hstate Hnd Hin.
  assert (socket_open s = true) as Hopen.
  { unfold socket_open. by rewrite Hsock, Hstate. }
  unfold post_shortcut. BridgeFacts.unfold_sendCommand s.
  rewrite Hopen. simpl. rewrite Hsock. simpl.
  eexists. split; [done |]. by rewrite JsFacts.get_spread_present.
Qed.

Lemma shortcut_body_action_replaces_route_witness :
  let s := run init [Connection 1%nat] in
  ∃ payload,
    sent (fst (post_shortcut "get_title" "u-1"
                 [("action", Js.Str "navigate"); ("url", Js.Str "example.com")] s))
    = [(1%nat, Js.Obj payload)]
    ∧ Js.get "action" payload = Js.Str "navigate".
Proof.
  intros s.
  exact (shortcut_body_action_replaces_route s 1%nat "get_title" "u-1"
           [("action", Js.Str "navigate"); ("url", Js.Str "example.com")]
           eq_refl eq_refl
           (bool_decide_eq_true_1 (NoDup ["action"; "url"]) eq_refl)
           (bool_decide_eq_true_1 ("action" ∈ ["action"; "url"]) eq_refl)).
Defined.

End RelayExtra.

(** ** The content script: missing elements, known actions, form submission *)

Module ContentExtra.
Import Content ContentScript.


(** For a document whose XPath engine only selects nodes of the tree, the
    script's [resolveElement] on a string is the one of the selector
    resolution above. *)
Lemma resolveElement_around (document : Document) (page : Page) (s : string) :
  around document page →
  resolveElement page (Js.Str s) = in_tree (Content.resolveElement document s).
Proof.
  intros (Hbody & Hcss & Hxpath).
  unfold resolveElement, Content.resolveElement. cbn [Js.to_string].
  destruct (Js.truthy (Js.Str s)); cbn [negb]; [| done].
  rewrite Hcss, Hxpath, Hbody.
  destruct (Content.querySelector document s) as [[e|]|m]; cbn; try done;
    destruct (Content.evaluate document s) as [[n|]|m']; cbn; try done;
    by destruct (walk_loop s _).
Qed.



Lemma navigate_sends_no_message (env : Chrome.Env) (params : Js.object)
    (tabId : Js.value) (message : Js.object) :
  ¬ In (Chrome.tabs_sendMessage tabId message) (fst (Executor.navigate env params)).
Proof.
  unfold Executor.navigate. destruct (Js.truthy (Js.get "url" params)); [| by intros []].
  cbn [negb]. destruct (Js.get "url" params) as [| | | |u| |]; try (by intros []).
  unfold Executor.waitForTabLoad, Chrome.call, Chrome.ret.
  destruct (Js.truthy (Js.get "tabId" params)); cbn.
  - destruct (Chrome.update env _ _) as [tab|]; cbn; [| intros [|[]]; done].
    destruct (Chrome.navigationCompletes env _); cbn; intros [|[|[]]]; done.
  - destruct (Chrome.query env _) as [[|activeTab tabs]|]; cbn; [| | intros [|[]]; done].
    + destruct (Chrome.create env _) as [tab|]; cbn; [| intros [|[|[]]]; done].
      destruct (Chrome.navigationCompletes env _); cbn; [| intros [|[|[|[]]]]; done].
      destruct (Chrome.get env _); cbn; intros [|[|[|[|[]]]]]; done.
    + destruct (Chrome.update env _ _) as [tab|]; cbn; [| intros [|[|[]]]; done].
      destruct (Chrome.navigationCompletes env _); cbn; [| intros [|[|[|[]]]]; done].
      destruct (Chrome.get env _); cbn; intros [|[|[|[|[]]]]]; done.
Qed.

Lemma screenshot_sends_no_message (env : Chrome.Env) (params : Js.object)
    (tabId : Js.value) (message : Js.object) :
  ¬ In (Chrome.tabs_sendMessage tabId message) (fst (Executor.screenshot env params)).
Proof.
  unfold Executor.screenshot, Executor.target_tab, Chrome.call, Chrome.ret, Chrome.throw.
  destruct (Js.truthy (Js.get "tabId" params)); cbn.
  - destruct (Chrome.update env _ _); cbn; [| intros [|[]]; done].
    destruct (Chrome.captureVisibleTab env _); cbn; intros [|[|[]]]; done.
  - destruct (Chrome.query env _) as [[|activeTab tabs]|]; cbn;
      [intros [|[]]; done | | intros [|[]]; done].
    destruct (Chrome.update env _ _); cbn; [| intros [|[|[]]]; done].
    destruct (Chrome.captureVisibleTab env _); cbn; intros [|[|[|[]]]]; done.
Qed.

Lemma getTitle_sends_no_message (env : Chrome.Env) (params : Js.object)
    (tabId : Js.value) (message : Js.object) :
  ¬ In (Chrome.tabs_sendMessage tabId message) (fst (Executor.getTitle env params)).
Proof.
  unfold Executor.getTitle, Chrome.call, Chrome.ret, Chrome.throw.
  destruct (Js.truthy (Js.get "tabId" params)); cbn.
  - destruct (Chrome.get env _); cbn; intros [|[]]; done.
  - destruct (Chrome.query env _) as [[|activeTab tabs]|]; cbn; intros [|[]]; done.
Qed.

Lemma forward_sends_command_message (env : Chrome.Env) (action : Js.value)
    (params : Js.object) (tabId : Js.value) (message : Js.object) :
  In (Chrome.tabs_sendMessage tabId message)
     (fst (Executor.forwardToContentScript env action params)) →
  message = command_message action params.
Proof.
  unfold Executor.forwardToContentScript, Executor.target_tab, Chrome.call, Chrome.ret,
    Chrome.throw, Chrome.swallow, command_message.
  destruct (Js.truthy (Js.get "tabId" params)); cbn.
  - intros [H|[H|[]]]; [done | by injection H].
  - destruct (Chrome.query env _) as [[|activeTab tabs]|]; cbn.
    + intros [|[]]; done.
    + intros [H|[H|[H|[]]]]; [done | done | by injection H].
    + intros [|[]]; done.
Qed.

(** X21.  The worker and the content script agree on the actions.  Every
    message the worker sends to a tab, whatever the command, is the command
    wrapped as [{source: "zeroclaw", action, params}] with an action for
    which the content script has a case: the listener accepts it, runs that
    action on the parameters and answers, never with [Unknown content
    action].  The [get_title] case of the content script is not among the
    actions that arrive this way. *)
Theorem forwarded_actions_are_known
    (env : Chrome.Env) (page : Page) (action : Js.value) (params : Js.object)
    (tabId : Js.value) (message : Js.object) :
  In (Chrome.tabs_sendMessage tabId message)
     (fst (Executor.handleCommand env action params)) →
  message = command_message action params
  ∧ Js.is_string "get_title" action = false
  ∧ ∃ f, route page action = Some f
         ∧ onMessage page message
           = {| effects := fst (f (Js.Obj params));
                sendResponse := Some (response (snd (f (Js.Obj params))));
                returned := true |}.
Proof.
  unfold Executor.handleCommand.
  destruct (Js.is_string "navigate" action) eqn:Hnav;
    [intros H; by apply navigate_sends_no_message in H |].
  destruct (Js.is_string "screenshot" action) eqn:Hshot;
    [intros H; by apply screenshot_sends_no_message in H |].
  destruct (Js.is_string "get_title" action) eqn:Htitle;
    [intros H; by apply getTitle_sends_no_message in H |].
  destruct (Js.is_string "click" action || Js.is_string "fill" action
            || Js.is_string "scrape" action || Js.is_string "scroll" action
            || Js.is_string "hover" action || Js.is_string "get_text" action) eqn:Hfwd;
    [| by intros []].
  intros H. apply forward_sends_command_message in H as ->.
  split; [done |]. split; [done |].
  assert (∃ f, route page action = Some f) as [f Hf].
  { unfold route. rewrite Htitle.
    destruct (Js.is_string "scrape" action); [eauto |].
    destruct (Js.is_string "click" action); [eauto |].
    destruct (Js.is_string "fill" action); [eauto |].
    destruct (Js.is_string "scroll" action); [eauto |].
    destruct (Js.is_string "hover" action); [eauto |].
    destruct (Js.is_string "get_text" action); [eauto | done]. }
  exists f. split; [done |].
  unfold onMessage, command_message.
  cbn [Js.get Js.is_string String.eqb Ascii.eqb Bool.eqb negb].
  rewrite Hf. by destruct (f (Js.Obj params)).
Qed.

Lemma forwarded_actions_are_known_witness :
  let params := [("selector", Js.Str "#x")] in
  let message := command_message (Js.Str "hover") params in
  onMessage Sample.content_page message
  = {| effects := [scrollIntoView 1; dispatchEvent 1 "mouseover";
                   dispatchEvent 1 "mouseenter"];
       sendResponse :=
         Some [("success", Js.Bool true);
               ("data", Js.Obj [("hovered", Js.Str "#x"); ("tag", Js.Str "div")])];
       returned := true |}.
Proof.
  intros params message.
  destruct (forwarded_actions_are_known Sample.content_browser Sample.content_page
              (Js.Str "hover") params (Js.Num 42) message
              (or_intror (or_intror (or_introl eq_refl))))
    as (_ & _ & f & Hf & Hm).
  injection Hf as <-. exact Hm.
Defined.

Lemma length_take (n : nat) (s : string) : (String.length (take n s) ≤ n)%nat.
Proof.
  revert s. induction n as [|n IHn]; intros [|c s]; simpl; try lia.
  specialize (IHn s). lia.
Qed.

Lemma prefix_take (n : nat) (s : string) : String.prefix (take n s) s = true.
Proof.
  revert s. induction n as [|n IHn]; intros [|c s]; simpl; try done.
  destruct (ascii_dec c c); [apply IHn | done].
Qed.

Lemma take_all (n : nat) (s : string) : (String.length s ≤ n)%nat → take n s = s.
Proof.
  revert s. induction n as [|n IHn]; intros [|c s]; simpl; try done; try lia.
  intros H. rewrite IHn; [done | lia].
Qed.

(** X22.  [get_text] makes no call on the page, whatever the selector
    resolves to.  For a node that has a text content, an element or a text
    node of the tree, or an attribute or a comment that an XPath selects,
    the answer is [{success: true, data: {text}}], where [text] is the
    trimmed text content cut to its first 10000 code units: a prefix of it,
    and all of it when it is no longer than that.  For the document or a
    doctype, whose text content is [null], as the path [/] selects, the
    answer is a failure with the TypeError of [null.trim]. *)
Theorem get_text_reads_bounded_text
    (page : Page) (params : Js.object) (found : Found) :
  resolveElement page (Js.get "selector" params) = Js.Normal (Some found) →
  match text_of found with
  | Some content =>
      ∃ text,
        onMessage page (command_message (Js.Str "get_text") params)
        = {| effects := [];
             sendResponse := Some [("success", Js.Bool true);
                                   ("data", Js.Obj [("text", Js.Str text)])];
             returned := true |}
        ∧ (N.of_nat (String.length text) ≤ 10000)%N
        ∧ String.prefix text (Js.trim content) = true
        ∧ ((N.of_nat (String.length (Js.trim content)) ≤ 10000)%N →
           text = Js.trim content)
  | None =>
      onMessage page (command_message (Js.Str "get_text") params)
      = {| effects := [];
           sendResponse :=
             Some [("success", Js.Bool false);
                   ("error", Js.Str "Cannot read properties of null (reading 'trim')")];
           returned := true |}
  end.
Proof.
  intros Hn.
  assert (getText page (Js.Obj params)
          = match text_of found with
            | Some content =>
                ([], Js.Normal (Js.Obj [("text",
                                         Js.Str (slice0 10000 (Js.trim content)))]))
            | None => ([], Js.Throw "Cannot read properties of null (reading 'trim')")
            end) as Hget.
  { unfold getText, lift, bind, member. cbn [Js.get]. rewrite Hn.
    by destruct (text_of found). }
  assert (onMessage page (command_message (Js.Str "get_text") params)
          = let '(fx, r) := getText page (Js.Obj params) in
            {| effects := fx; sendResponse := Some (response r); returned := true |})
    as ->.
  { unfold onMessage, command_message.
    by cbn [Js.get Js.is_string String.eqb Ascii.eqb Bool.eqb negb route]. }
  rewrite Hget. destruct (text_of found) as [content|]; [| done].
  exists (slice0 10000 (Js.trim content)). split; [done |]. split; [| split].
  - unfold slice0. pose proof (length_take (N.to_nat 10000) (Js.trim content)). lia.
  - apply prefix_take.
  - intros Hlen. unfold slice0. apply take_all. lia.
Qed.

Lemma get_text_reads_bounded_text_witness :
  onMessage Sample.content_page (command_message (Js.Str "get_text") [("selector", Js.Str "/")])
  = {| effects := [];
       sendResponse :=
         Some [("success", Js.Bool false);
               ("error", Js.Str "Cannot read properties of null (reading 'trim')")];
       returned := true |}.
Proof.
  exact (get_text_reads_bounded_text Sample.content_page [("selector", Js.Str "/")]
           (Outside None) eq_refl).
Defined.

Lemma fill_submits (page : Page) (params : Js.value) (form : nat) :
  In (form_submit form) (fst (fill page params)) →
  ∃ o el tagName childNodes,
    params = Js.Obj o
    ∧ Js.truthy (Js.get "submit" o) = true
    ∧ resolveElement page (Js.get "selector" o)
      = Js.Normal (Some (InTree (Element el tagName childNodes)))
    ∧ closest_form page el = Some form.
Proof.
  unfold fill, lift, call, effect, ret, throw.
  destruct params as [| | b | z | str | items | o]; cbn; try (by intros []).
  destruct (resolveElement page (Js.get "selector" o))
    as [[[[el tagName kids|]|]|]|] eqn:Hel; cbn; try (by intros []).
  destruct (inputValueSetter page _ _); cbn; [| intros H; decompose [or] H; done].
  destruct (Js.truthy (Js.get "submit" o)) eqn:Hsubmit; cbn;
    [| intros H; decompose [or] H; done].
  destruct (closest_form page el) as [form'|] eqn:Hform; cbn;
    intros H; decompose [or] H; try done.
  match goal with H : form_submit _ = form_submit _ |- _ => injection H as -> end.
  by exists o, el, tagName, kids.
Qed.

Ltac no_submit :=
  cbn; try (by intros []); intros H; decompose [or] H; done.

Lemma click_never_submits (page : Page) (params : Js.value) (form : nat) :
  ¬ In (form_submit form) (fst (click page params)).
Proof.
  unfold click, lift, call, effect, ret, throw.
  destruct params as [| | b | z | str | items | o]; cbn; try (by intros []);
    match goal with
    | |- context [resolveElement ?d ?v] =>
        destruct (resolveElement d v) as [[[[]|]|]|]; no_submit
    end.
Qed.

Lemma hover_never_submits (page : Page) (params : Js.value) (form : nat) :
  ¬ In (form_submit form) (fst (hover page params)).
Proof.
  unfold hover, lift, call, effect, ret, throw.
  destruct params as [| | b | z | str | items | o]; cbn; try (by intros []);
    match goal with
    | |- context [resolveElement ?d ?v] =>
        destruct (resolveElement d v) as [[[[]|]|]|]; no_submit
    end.
Qed.

Lemma getText_never_submits (page : Page) (params : Js.value) (form : nat) :
  ¬ In (form_submit form) (fst (getText page params)).
Proof.
  unfold getText, lift, call, effect, ret, throw.
  destruct params as [| | b | z | str | items | o]; cbn; try (by intros []);
    match goal with
    | |- context [resolveElement ?d ?v] =>
        destruct (resolveElement d v) as [[f|]|]; [destruct (text_of f) | |]; no_submit
    end.
Qed.

Lemma scroll_never_submits (page : Page) (params : Js.value) (form : nat) :
  ¬ In (form_submit form) (fst (scroll page params)).
Proof.
  unfold scroll, lift, call, effect, ret, throw.
  destruct params as [| | b | z | str | items | o]; cbn [fst In]; try (by intros []);
    cbn [Js.fields];
    match goal with
    | |- context [Js.truthy ?v] =>
        destruct (Js.truthy v); cbn [bind];
        [match goal with
         | |- context [resolveElement ?d ?w] =>
             destruct (resolveElement d w) as [[|]|]; no_submit
         end
        | no_submit]
    end.
Qed.

(** X23.  The content script calls [form.submit()] only when it is asked
    to: if handling a message makes that call on a form, then the message
    is a [fill] command from the worker whose [submit] parameter is truthy,
    and the form is the closest form around the element that its selector
    resolves to.  No other action of the script, and no [fill] without
    [submit], makes the call.  The statement is about the calls of the
    script: what the page does in answer to an event that the script
    dispatches, a [click] on a submit button for one, is not part of it. *)
Theorem form_submit_is_called_only_on_request
    (page : Page) (message : Js.object) (form : nat) :
  In (form_submit form) (effects (onMessage page message)) →
  Js.get "source" message = Js.Str "zeroclaw"
  ∧ Js.get "action" message = Js.Str "fill"
  ∧ ∃ params el tagName childNodes,
      Js.get "params" message = Js.Obj params
      ∧ Js.truthy (Js.get "submit" params) = true
      ∧ resolveElement page (Js.get "selector" params)
        = Js.Normal (Some (InTree (Element el tagName childNodes)))
      ∧ closest_form page el = Some form.
Proof.
  unfold onMessage.
  destruct (Js.is_string "zeroclaw" (Js.get "source" message)) eqn:Hsource;
    cbn [negb]; [| by intros []].
  assert (Js.get "source" message = Js.Str "zeroclaw") as Hsrc.
  { unfold Js.is_string in Hsource. destruct (Js.get "source" message); try done.
    by apply String.eqb_eq in Hsource as ->. }
  set (params := match Js.get "params" message with
                 | Js.Undefined => Js.Obj []
                 | v => v
                 end).
  unfold route.
  destruct (Js.is_string "scrape" (Js.get "action" message));
    [unfold lift; destruct (scrape page params); by intros [] |].
  destruct (Js.is_string "click" (Js.get "action" message)).
  { pose proof (click_never_submits page params form).
    by destruct (click page params). }
  destruct (Js.is_string "fill" (Js.get "action" message)) eqn:Hfill.
  { pose proof (fill_submits page params form) as Hsub.
    destruct (fill page params) as [fx r]. cbn [effects fst] in *.
    intros Hin.
    destruct (Hsub Hin) as (o & el & tagName & kids & Hparams & Hsubmit & Hel & Hform).
    split; [done |]. split.
    - unfold Js.is_string in Hfill. destruct (Js.get "action" message); try done.
      by apply String.eqb_eq in Hfill as ->.
    - exists o, el, tagName, kids. split; [| done].
      subst params. destruct (Js.get "params" message); try done.
      injection Hparams as <-. done. }
  destruct (Js.is_string "scroll" (Js.get "action" message)).
  { pose proof (scroll_never_submits page params form).
    by destruct (scroll page params). }
  destruct (Js.is_string "hover" (Js.get "action" message)).
  { pose proof (hover_never_submits page params form).
    by destruct (hover page params). }
  destruct (Js.is_string "get_text" (Js.get "action" message)).
  { pose proof (getText_never_submits page params form).
    by destruct (getText page params). }
  destruct (Js.is_string "get_title" (Js.get "action" message)); by intros [].
Qed.

Lemma form_submit_is_called_only_on_request_witness :
  let message := command_message (Js.Str "fill")
                   [("selector", Js.Str "#q"); ("value", Js.Str "rocq");
                    ("submit", Js.Bool true)] in
  effects (onMessage Sample.form_page message)
  = [scrollIntoView 5; focus 5; nativeInputValueSetter_call 5 (Js.Str "rocq");
     dispatchEvent 5 "input"; dispatchEvent 5 "change"; form_submit 4]
  ∧ Js.get "action" message = Js.Str "fill".
Proof.
  intros message. split; [reflexivity |].
  exact (proj1 (proj2 (form_submit_is_called_only_on_request Sample.form_page message 4
                         ltac:(simpl; tauto)))).
Defined.

End ContentExtra.

(** ** The command-line wrapper: words and string values *)

Module CliExtra.
Import Cli.

Lemma escape_cons (c : ascii) (rest : string) :
  escape (String c rest)
  = if Ascii.eqb c backslash then String backslash (String backslash (escape rest))
    else if Ascii.eqb c quote then String backslash (String quote (escape rest))
    else String c (escape rest).
Proof.
  unfold escape. cbn [replace_all].
  destruct (Ascii.eqb_spec c backslash) as [->|Hb]; [done |].
  cbn [replace_all]. by destruct (Ascii.eqb c quote).
Qed.

Lemma escaped_value_reads_back (value : string) :
  json_string_body (escape value) = if printable value then Some value else None.
Proof.
  induction value as [|c rest IH]; [done |].
  rewrite escape_cons. unfold printable in *. cbn [list_ascii_of_string forallb].
  destruct (Ascii.eqb_spec c backslash) as [->|Hb].
  - cbn [json_string_body]. change (Ascii.eqb backslash backslash) with true.
    cbn iota. change (Ascii.eqb backslash quote) with false. cbn iota.
    rewrite IH. change (Nat.leb 32 (nat_of_ascii backslash)) with true.
    cbn [andb]. by destruct (forallb _ _).
  - destruct (Ascii.eqb_spec c quote) as [->|Hq].
    + cbn [json_string_body]. change (Ascii.eqb backslash backslash) with true.
      cbn iota. change (Ascii.eqb quote quote) with true. cbn iota.
      rewrite IH. change (Nat.leb 32 (nat_of_ascii quote)) with true.
      cbn [andb]. by destruct (forallb _ _).
    + cbn [json_string_body].
      destruct (Ascii.eqb_spec c backslash); [done |].
      destruct (Ascii.eqb_spec c quote); [done |]. cbn [orb].
      rewrite IH. rewrite Nat.ltb_antisym.
      destruct (Nat.leb 32 (nat_of_ascii c)); cbn [negb andb]; [| done].
      by destruct (forallb _ _).
Qed.

(** X24.  A string value given on the command line arrives as it was
    typed.  For a word whose value is not [true], [false] or a row of
    digits, the wrapper adds the member [,"key":"..."] in which the
    backslashes of the value are doubled and its quotes have a backslash
    before them; read back as the body of a JSON string, that text is the
    value itself, so no character of a value can end the string or add a
    member to the body.  The two substitutions cover nothing else: a value
    with a control character (a line break, a tab) gives a body that is no
    JSON. *)
Theorem string_value_arrives_as_typed (param : string) :
  String.eqb (value_of param) "true" = false →
  String.eqb (value_of param) "false" = false →
  is_number (value_of param) = false →
  ∃ text,
    member param = ("," ++ quoted (key_of param) ++ ":" ++ quoted text)%string
    ∧ json_string_body text
      = if printable (value_of param) then Some (value_of param) else None.
Proof.
  intros Htrue Hfalse Hnumber. exists (escape (value_of param)). split.
  - unfold member. by rewrite Htrue, Hfalse, Hnumber.
  - apply escaped_value_reads_back.
Qed.

Lemma string_value_arrives_as_typed_witness :
  ∃ text,
    member "value=say \hi\, a=b"
    = ("," ++ quoted "value" ++ ":" ++ quoted text)%string
    ∧ json_string_body text = Some "say \hi\, a=b".
Proof.
  exact (string_value_arrives_as_typed "value=say \hi\, a=b" eq_refl eq_refl eq_refl).
Defined.

Lemma key_of_has_no_equals (param : string) :
  after_equals (key_of param) = None.
Proof.
  induction param as [|c rest IH]; [done |]. simpl.
  destruct (Ascii.eqb c "=") eqn:Hc; [done |]. simpl. by rewrite Hc.
Qed.

(** X25.  A word [key=value] is split at its first [=]: the key has no
    [=], and key, [=] and value put together give the word again, so a
    value may itself contain [=].  A word without [=] is taken as key and
    as value at once. *)
Theorem word_is_split_at_first_equals (param : string) :
  after_equals (key_of param) = None
  ∧ match after_equals param with
    | Some value => value_of param = value ∧ param = (key_of param ++ "=" ++ value)%string
    | None => key_of param = param ∧ value_of param = param
    end.
Proof.
  split; [apply key_of_has_no_equals |].
  unfold value_of. induction param as [|c rest IH]; [done |]. simpl.
  destruct (Ascii.eqb_spec c "=") as [->|Hc]; [done |].
  destruct (after_equals rest) as [value|].
  - destruct IH as [_ IH]. split; [done |]. exact (f_equal (String c) IH).
  - destruct IH as [IH _]. by rewrite IH.
Qed.

End CliExtra.

(** ** The service worker keeps trying *)

Module ReconnectExtra.

Section Timer.
Import Background.

Lemma awake_scheduleReconnect (s : State) : awake (scheduleReconnect s).
Proof.
  right. destruct (WorkerExtra.scheduleReconnect_timers s) as (_ & -> & ->).
  exists (nextTimer s). by rewrite lookup_insert_eq.
Qed.

Lemma awake_connect (c : bool) (s : State) : awake (connect c s).
Proof.
  unfold connect.
  destruct (match ws s with Some _ => _ | None => _ end) eqn:Hbusy.
  - left. destruct (ws s); [done | discriminate].
  - destruct c; [by left |]. apply awake_scheduleReconnect.
Qed.

Lemma awake_send (data : Js.object) (s : State) : awake s → awake (send data s).
Proof.
  unfold awake. by destruct (WorkerExtra.send_keeps data s) as (_ & -> & -> & -> & _).
Qed.

Lemma awake_step (s : State) (e : Event) : awake s → awake (step s e).
Proof.
  intros A.
  destruct e as [c|sock v|sock|sock rs|env raw|j|t c| |dt]; cbn [step]; try exact A.
  - apply awake_connect.
  - unfold onopen. by apply awake_send.
  - unfold onclose. apply awake_scheduleReconnect.
  - unfold onmessage. destruct (Executor.onmessage env raw); try exact A.
    by apply awake_send.
  - unfold resume. destruct (jobs s !! j); [| exact A]. by apply awake_send.
  - unfold timer_fire. destruct (timers s !! t); [| exact A].
    destruct (Z.leb _ _); [| exact A]. unfold on_reconnect_timer.
    apply awake_connect.
  - unfold keepalive. destruct (ws_open s); [| exact A]. by apply awake_send.
Qed.

Lemma awake_run (tr : list Event) (s : State) : awake s → awake (run s tr).
Proof.
  revert s. induction tr as [|e tr IH]; intros s A; [done |].
  simpl. apply IH. by apply awake_step.
Qed.

End Timer.

Section Alarm.
Import BackgroundAlarm.

Lemma armed_ensureReconnectAlarm (s : State) : armed (ensureReconnectAlarm s).
Proof.
  left. unfold ensureReconnectAlarm.
  destruct (alarms s !! RECONNECT_ALARM) eqn:Ha; [by rewrite Ha |].
  simpl. by rewrite lookup_insert_eq.
Qed.

Lemma armed_connect (c : bool) (s : State) : armed s → armed (connect c s).
Proof.
  intros A. unfold connect.
  destruct (match ws s with Some _ => _ | None => _ end); [exact A |].
  destruct c; [exact A |]. apply armed_ensureReconnectAlarm.
Qed.

Lemma armed_send (data : Js.object) (s : State) : armed s → armed (send data s).
Proof.
  unfold armed. by destruct (WorkerExtra.send_alarms data s) as [-> _].
Qed.

Lemma armed_onopen (sock : nat) (version : Js.value) (s : State) :
  armed (onopen sock version s).
Proof.
  unfold onopen. apply armed_send. right. simpl. by rewrite lookup_insert_eq.
Qed.

Lemma armed_step (s : State) (e : Event) : armed s → armed (step s e).
Proof.
  intros A.
  destruct e as [c|sock v|sock|sock rs|env raw|j|name c]; cbn [step]; try exact A.
  - by apply armed_connect.
  - apply armed_onopen.
  - unfold onclose. apply armed_ensureReconnectAlarm.
  - unfold onmessage. destruct (Executor.onmessage env raw); try exact A.
    by apply armed_send.
  - unfold resume. destruct (jobs s !! j); [| exact A]. by apply armed_send.
  - unfold onAlarm.
    assert (armed (if String.eqb name RECONNECT_ALARM then connect c s else s)) as A1.
    { destruct (String.eqb name RECONNECT_ALARM); [by apply armed_connect | done]. }
    destruct (String.eqb name KEEPALIVE_ALARM); [| exact A1].
    destruct (ws_open _); [by apply armed_send | apply armed_ensureReconnectAlarm].
Qed.

Lemma armed_life_run (lives : list Life) (s : State) : armed s → armed (life_run s lives).
Proof.
  revert s. induction lives as [|l lives IH]; intros s A; [done |].
  simpl. apply IH. destruct l as [e| |c]; cbn [life_step].
  - by apply armed_step.
  - exact A.
  - by apply armed_connect.
Qed.

End Alarm.

(** X26.  A wake-up is pending.  In the [setTimeout] worker, within one
    life of the service worker: from the [connect()] of its start-up on,
    whatever its handlers are given and in whatever order, whenever the
    worker holds no socket the timer that [reconnectTimer] names is armed.
    A termination of the worker discards that timer and leaves nothing
    pending.  In the [chrome.alarms] worker the pending wake-up survives:
    once a socket of the worker has opened or closed, the reconnect alarm
    or the keep-alive alarm is armed at every later moment, across
    handlers, terminations and restarts of the worker. *)
Theorem wake_up_is_pending
    (c : bool) (tr : list Background.Event) (t : Background.State)
    (s : BackgroundAlarm.State) (sock : nat) (version : Js.value)
    (lives : list BackgroundAlarm.Life) :
  Background.awake (Background.run Background.init (Background.Connect c :: tr))
  ∧ ¬ Background.awake (Background.terminate t)
  ∧ BackgroundAlarm.armed
      (BackgroundAlarm.life_run (BackgroundAlarm.onopen sock version s) lives)
  ∧ BackgroundAlarm.armed
      (BackgroundAlarm.life_run (BackgroundAlarm.onclose sock s) lives).
Proof.
  split; [| split; [| split]].
  - change (Background.awake
              (Background.run (Background.connect c Background.init) tr)).
    apply awake_run, awake_connect.
  - intros [H | (t0 & H & _)]; [by destruct H | done].
  - apply armed_life_run, armed_onopen.
  - apply armed_life_run, armed_ensureReconnectAlarm.
Qed.

End ReconnectExtra.
